(** * Yomitan dictionary store: the SQLite-backed [Database] and the
      [DictionaryDatabase] matching layer

    A shallow embedding of [Database] (data/database.js, the native-SQLite
    port) and of [DictionaryDatabase] (dictionary/dictionary-database.js),
    followed by the properties proved about them.

    Conventions of the embedding.
    - A JavaScript string is the list of its code points ([jstring]); table,
      column and field names, which the code only ever writes as literals,
      are Rocq strings.
    - A JavaScript number is an integer ([Z]); the stored documents only
      carry integers in the fields the code inspects.
    - A stored document is the JSON object written by [bulkAdd] through
      [jsonb(?)]; it is kept parsed, as a finite map from field names to
      values, so [safeJsonParse] never takes its fallback on a stored row.
    - The native SQLite host is not part of the sources: a statement is
      modelled by its effect on the connected database, with SQLite's
      comparison rules ([=] is equality, [NULL] equals nothing).  The host is
      assumed to be present and to open any database name successfully. *)

From Stdlib Require Import ZArith Lia Ascii String.
From stdpp Require Import base gmap sets list strings sorting.

#[local] Open Scope Z_scope.

(* ================================================================== *)
(** * JavaScript values                                                 *)
(* ================================================================== *)

(** A string, as the sequence of its code points. *)
Abbreviation jstring := (list N).

(** The code points of an ASCII literal. *)
Definition js (s : string) : jstring :=
  (λ a, N_of_ascii a) <$> list_ascii_of_string s.

(** The values a parsed JSON document holds.  Arrays and objects are never
    inspected by the code below; they are carried as their JSON text, which
    is also what [json_extract] yields for them. *)
Inductive jsval :=
| JUndefined
| JNull
| JBool (b : bool)
| JNum (n : Z)
| JStr (s : jstring)
| JOther (json : jstring).

#[global] Instance jsval_eq_dec : EqDecision jsval.
Proof. solve_decision. Defined.

(** A parsed document: [{field: value, ...}]. *)
Abbreviation doc := (gmap string jsval).

(** [row.field]: an absent property reads as [undefined]. *)
Definition prop (d : doc) (field : string) : jsval :=
  default JUndefined (d !! field).

(** JavaScript truthiness, as used by [||], [?:] and [if]. *)
Definition truthy (v : jsval) : bool :=
  match v with
  | JUndefined | JNull => false
  | JBool b => b
  | JNum n => negb (n =? 0)
  | JStr s => negb (bool_decide (s = []))
  | JOther _ => true
  end.

(* ================================================================== *)
(** * Exceptions                                                        *)
(* ================================================================== *)

Inductive error :=
| Error (message : string)            (* throw new Error(message) *)
| SqliteError (message : string)      (* an error reported by the host *)
| UnknownMode (mode : jsval).         (* throw new Error(`Unknown mode: ${mode}`) *)

Inductive result (A : Type) :=
| Ok (a : A)
| Throw (e : error).
Arguments Ok {A} a.
Arguments Throw {A} e.

#[global] Instance result_ret : MRet result := λ A a, Ok a.
#[global] Instance result_bind : MBind result := λ A B f m,
  match m with
  | Ok a => f a
  | Throw e => Throw e
  end.

#[global] Instance result_fmap : FMap result := λ A B f m,
  match m with
  | Ok a => Ok (f a)
  | Throw e => Throw e
  end.

Definition is_Ok {A} (r : result A) : Prop := ∃ a, r = Ok a.

(* ================================================================== *)
(** * The native SQLite database                                        *)
(* ================================================================== *)

Module Sqlite.

(** SQL values that the statements of the code compare. *)
Inductive value :=
| Null
| Integer (n : Z)
| Text (s : jstring).

(** [json_extract(data, '$.field')] and [data->>'field']: a JSON scalar
    becomes the SQL value, [true]/[false] become 1/0, an absent field or
    JSON null becomes NULL, an array or object its JSON text. *)
Definition of_json (v : jsval) : value :=
  match v with
  | JUndefined | JNull => Null
  | JBool b => Integer (if b then 1 else 0)
  | JNum n => Integer n
  | JStr s => Text s
  | JOther json => Text json
  end.

Definition json_extract (data : doc) (field : string) : value :=
  of_json (prop data field).

(** A bound parameter: [encodeParams] sends [JSON.stringify(params)], the
    host binds each element by its JSON type. *)
Definition bind_param (v : jsval) : value := of_json v.

(** [a = b] in a WHERE clause: true only for two non-NULL values of the
    same storage class with the same content.  There is no pattern
    matching in [=]; a [%] in a parameter is an ordinary character. *)
Definition eq (a b : value) : bool :=
  match a, b with
  | Integer x, Integer y => x =? y
  | Text x, Text y => bool_decide (x = y)
  | _, _ => false
  end.

(** One row of a table created by [_createTable]:
    [id INTEGER PRIMARY KEY, data TEXT NOT NULL]. *)
Record row := Row { id : Z; data : doc }.

Record table := Table { autoincrement : bool; rows : list row }.

(** A database file: the schema version, the tables, and the indices by
    index name, each with the table and the document field it covers. *)
Record db := Db {
  user_version : Z;
  tables : gmap string table;
  indices : gmap string (string * string)
}.

(** What the host opens when no file of that name exists yet. *)
Definition empty : db := Db 0 ∅ ∅.

Definition no_such_table {A} : result A := Throw (SqliteError "no such table").

Definition get_table (d : db) (tableName : string) : result table :=
  match tables d !! tableName with
  | Some t => Ok t
  | None => no_such_table
  end.

Definition set_rows (tableName : string) (rs : list row) (d : db) : db :=
  Db (user_version d)
     (alter (λ t, Table (autoincrement t) rs) tableName (tables d))
     (indices d).

(** [WHERE json_extract(data, '$.field') = ?] *)
Definition matches (field : string) (param : jsval) (r : row) : bool :=
  eq (json_extract (data r) field) (bind_param param).

(** [WHERE json_extract(data, '$.field') IN (?, ..., ?)] *)
Definition matches_any (field : string) (params : list jsval) (r : row) : bool :=
  existsb (λ p, matches field p r) params.

(** [SELECT ... FROM table WHERE json_extract(data,'$.field') = ?];
    rows come back in rowid order, which is the order of [rows]. *)
Definition select_eq (tableName field : string) (param : jsval) (d : db)
  : result (list row) :=
  t ← get_table d tableName; mret (filter (λ r, matches field param r = true) (rows t)).

(** [SELECT ... FROM table WHERE json_extract(data,'$.field') IN (...)] *)
Definition select_in (tableName field : string) (params : list jsval) (d : db)
  : result (list row) :=
  t ← get_table d tableName;
  mret (filter (λ r, matches_any field params r = true) (rows t)).

(** [SELECT id, json(data) as data FROM table] *)
Definition select_all (tableName : string) (d : db) : result (list row) :=
  t ← get_table d tableName; mret (rows t).

(** [SELECT COUNT( * ) as count FROM table WHERE data->>'field' = ?] *)
Definition count_eq (tableName field : string) (param : jsval) (d : db) : result Z :=
  rs ← select_eq tableName field param d; mret (Z.of_nat (length rs)).

(** [SELECT COUNT( * ) as count FROM table] *)
Definition count_all (tableName : string) (d : db) : result Z :=
  rs ← select_all tableName d; mret (Z.of_nat (length rs)).

(** [DELETE FROM table WHERE data->>'field' = ?] *)
Definition delete_eq (tableName field : string) (param : jsval) (d : db) : result db :=
  t ← get_table d tableName;
  mret (set_rows tableName (filter (λ r, matches field param r ≠ true) (rows t)) d).

(** [DELETE FROM table WHERE id IN (k1, ..., kn)] *)
Definition delete_in (tableName : string) (keys : list Z) (d : db) : result db :=
  t ← get_table d tableName;
  mret (set_rows tableName (filter (λ r, id r ∉ keys) (rows t)) d).

(** [SELECT 1 FROM sqlite_master WHERE type='table' AND name=?] *)
Definition table_exists (tableName : string) (d : db) : bool :=
  bool_decide (is_Some (tables d !! tableName)).

(** [CREATE TABLE IF NOT EXISTS name (id INTEGER PRIMARY KEY [AUTOINCREMENT],
    data TEXT NOT NULL)] *)
Definition create_table (tableName : string) (autoInc : bool) (d : db) : db :=
  match tables d !! tableName with
  | Some _ => d
  | None => Db (user_version d) (<[tableName := Table autoInc []]> (tables d)) (indices d)
  end.

(** The name [idx_${tableName}_${indexName}]. *)
Definition index_name (tableName indexName : string) : string :=
  "idx_" +:+ tableName +:+ "_" +:+ indexName.

(** [CREATE INDEX IF NOT EXISTS idx_table_field
    ON table ((json_extract(data, '$.field')))] *)
Definition create_index (tableName indexName : string) (d : db) : result db :=
  match indices d !! index_name tableName indexName with
  | Some _ => Ok d
  | None =>
      _ ← get_table d tableName;
      mret (Db (user_version d) (tables d)
               (<[index_name tableName indexName := (tableName, indexName)]> (indices d)))
  end.

(** [PRAGMA user_version = v] *)
Definition set_user_version (v : Z) (d : db) : db :=
  Db v (tables d) (indices d).

(** The rows of a table, none when the table does not exist. *)
Definition rows_of (d : db) (tableName : string) : list row :=
  match tables d !! tableName with
  | Some t => rows t
  | None => []
  end.

(** [INSERT INTO table (data) VALUES (jsonb(?)), ..., (jsonb(?))]: one new
    row per value, in the order of the values.  The ids are the host's to
    choose: [rowid k] is the id it gives the [k]-th new row.  A statement
    with no value at all is not a complete statement, and is refused
    before the table is looked up. *)
Definition insert_rows (tableName : string) (rowid : nat → Z) (values : list doc)
    (d : db) : result db :=
  match values with
  | [] => Throw (SqliteError "incomplete input")
  | _ =>
      t ← get_table d tableName;
      mret (set_rows tableName (rows t ++ imap (λ k v, Row (rowid k) v) values) d)
  end.

End Sqlite.

(* ================================================================== *)
(** * [Database]: the generic document store (data/database.js)        *)
(* ================================================================== *)

Module Database.

(** ** State of a [Database] object and of the host it talks to

    [_handle] is the connection returned by [_nativeSqliteOpen]; the model
    identifies a connection with the name of the file it is connected to.
    [disk] holds the database files of the host, by name; a name without a
    file reads as the empty database SQLite creates on first open. *)
Record t := State {
  _handle : option string;
  _isOpening : bool;
  disk : gmap string Sqlite.db
}.

Definition database (st : t) (name : string) : Sqlite.db :=
  default Sqlite.empty (disk st !! name).

Definition set_database (name : string) (d : Sqlite.db) (st : t) : t :=
  State (_handle st) (_isOpening st) (<[name := d]> (disk st)).

Definition set_handle (h : option string) (st : t) : t :=
  State h (_isOpening st) (disk st).

Definition set_isOpening (b : bool) (st : t) : t :=
  State (_handle st) b (disk st).

(** The database behind the open connection. *)
Definition connected (st : t) : Sqlite.db :=
  match _handle st with
  | Some name => database st name
  | None => Sqlite.empty
  end.

(** The constructor: [_handle = null], [_isOpening = false]. *)
Definition new (files : gmap string Sqlite.db) : t := State None false files.

Definition isOpening (st : t) : bool := _isOpening st.
Definition isOpen (st : t) : bool := bool_decide (is_Some (_handle st)).

(** ** Methods that change the store run in a state and exception monad *)
Definition M (A : Type) : Type := t → t * result A.

#[global] Instance M_ret : MRet M := λ A a st, (st, Ok a).
#[global] Instance M_bind : MBind M := λ A B f m st,
  match m st with
  | (st', Ok a) => f a st'
  | (st', Throw e) => (st', Throw e)
  end.

Definition not_open {A} : result A := Throw (Error "Database not open").

(** [_execute(sql, params)] for a query: the rows the statement returns. *)
Definition _execute {A} (stmt : Sqlite.db → result A) (st : t) : result A :=
  match _handle st with
  | None => not_open
  | Some name => stmt (database st name)
  end.

(** [_executeRaw(sql, params)] for a statement that changes the database. *)
Definition _executeRaw (stmt : Sqlite.db → result Sqlite.db) : M unit := λ st,
  match _handle st with
  | None => (st, not_open)
  | Some name =>
      match stmt (database st name) with
      | Ok d => (set_database name d st, Ok tt)
      | Throw e => (st, Throw e)
      end
  end.

Definition read {A} (f : t → result A) : M A := λ st, (st, f st).

(** [for (const x of xs) { await body(x); }] *)
Fixpoint for_of {A} (xs : list A) (body : A → M unit) : M unit :=
  match xs with
  | [] => mret tt
  | x :: xs' => _ ← body x; for_of xs' body
  end.

(** ** Schema definitions *)
Record PrimaryKey := { keyPath : option string; autoIncrement : bool }.
Record StoreDefinition := { primaryKey : PrimaryKey; indices : list string }.
Record StructureDefinition := {
  version : Z;
  stores : list (string * StoreDefinition)   (* Object.entries(schema.stores) *)
}.

(** [structure.sort((a, b) => a.version - b.version)]: a stable sort by
    ascending version. *)
Fixpoint sort_insert (s : StructureDefinition) (l : list StructureDefinition)
  : list StructureDefinition :=
  match l with
  | [] => [s]
  | x :: l' => if version s <=? version x then s :: l else x :: sort_insert s l'
  end.

Definition sort (structure : list StructureDefinition) : list StructureDefinition :=
  foldr sort_insert [] structure.

(** ** Migration *)
Definition _tableExists (tableName : string) (st : t) : result bool :=
  _execute (λ d, Ok (Sqlite.table_exists tableName d)) st.

Definition _createTable (tableName : string) (tableSchema : StoreDefinition) : M unit :=
  _executeRaw (λ d,
    Ok (Sqlite.create_table tableName (autoIncrement (primaryKey tableSchema)) d)).

Definition _createIndices (tableName : string) (tableSchema : StoreDefinition) : M unit :=
  for_of (indices tableSchema) (λ indexName,
    _executeRaw (Sqlite.create_index tableName indexName)).

Definition _createOrUpdateTable (tableName : string) (tableSchema : StoreDefinition)
  : M unit :=
  tableExists ← read (_tableExists tableName);
  _ ← (if negb tableExists then _createTable tableName tableSchema else mret tt);
  _createIndices tableName tableSchema.

Definition _applySchemaChanges (schema : StructureDefinition) : M unit :=
  for_of (stores schema) (λ '(tableName, tableSchema),
    _createOrUpdateTable tableName tableSchema).

(** The statement [PRAGMA user_version = v] is sent through [_execute] and
    its rows are dropped. *)
Definition _performMigrations (currentVersion targetVersion : Z)
    (structure : list StructureDefinition) : M unit :=
  for_of (sort structure) (λ schema,
    if (currentVersion <? version schema) && (version schema <=? targetVersion)
    then
      _ ← _applySchemaChanges schema;
      _executeRaw (λ d, Ok (Sqlite.set_user_version (version schema) d))
    else mret tt).

(** [open(databaseName, version, structure)].  The statements that only
    tune the connection (journal mode, synchronous, journal size limit)
    and the probe for [jsonb] leave the modelled state alone.  The
    [finally] clause resets [_isOpening] on every path out of the [try]. *)
Definition open (databaseName : string) (version : Z)
    (structure : list StructureDefinition) : M unit := λ st,
  if isOpen st then (st, Throw (Error "Database already open"))
  else if _isOpening st then (st, Throw (Error "Already opening"))
  else
    let body : M unit :=
      rows ← read (_execute (λ d, Ok (Sqlite.user_version d)));
      let currentVersion := rows in
      if currentVersion <? version
      then _performMigrations currentVersion version structure
      else mret tt in
    let '(st', r) := body (set_handle (Some databaseName) (set_isOpening true st)) in
    (set_isOpening false st', r).

(** [close()] *)
Definition close : M unit := λ st,
  match _handle st with
  | None => (st, Throw (Error "Database is not open"))
  | Some _ => (set_handle None st, Ok tt)
  end.

(** ** Lookups *)

(** [{...safeJsonParse(row.value, {}), id: row.id}] *)
Definition parse_row (r : Sqlite.row) : doc :=
  <["id" := JNum (Sqlite.id r)]> (Sqlite.data r).

(** [getAllEntries(tableName)] *)
Definition getAllEntries (tableName : string) (st : t) : result (list doc) :=
  rows ← _execute (A := list Sqlite.row) (Sqlite.select_all tableName) st;
  mret (parse_row <$> (rows : list Sqlite.row)).

(** The [query] argument of [find]: a plain key, or an object with a
    [lower] property such as [IDBKeyRange.only(x)] makes. *)
Inductive Query :=
| Key (query : jsval)
| KeyRange (lower upper : jsval).

Definition query_key (query : Query) : jsval :=
  match query with
  | Key q => q
  | KeyRange lower _ => lower
  end.

(** [find(tableName, indexName, query, predicate, predicateArg, defaultValue)];
    the statement ends in [LIMIT 1], so only the first matching row is
    looked at.  The result is the parsed document ([inl]) or the default
    ([inr]). *)
Definition find {TArg D : Type} (tableName : string) (indexName : option string)
    (query : Query) (predicate : option (doc → TArg → bool)) (predicateArg : TArg)
    (defaultValue : D) (st : t) : result (doc + D) :=
  match _handle st with
  | None => not_open
  | Some _ =>
      match indexName with
      | None => Ok (inr defaultValue)
      | Some indexName =>
          if bool_decide (indexName = EmptyString) then Ok (inr defaultValue)
          else
            rows ← _execute (A := list Sqlite.row)
                     (Sqlite.select_eq tableName indexName (query_key query)) st;
            match rows with
            | [] => Ok (inr defaultValue)
            | row :: _ =>
                let parsedData := Sqlite.data row in
                match predicate with
                | Some predicate =>
                    if predicate parsedData predicateArg
                    then Ok (inl parsedData) else Ok (inr defaultValue)
                | None => Ok (inl parsedData)
                end
            end
      end
  end.

(** A JavaScript [Map], as its entries in insertion order. *)
Definition Map_set {V} (k : jsval) (v : V) (m : list (jsval * V)) : list (jsval * V) :=
  if bool_decide (k ∈ m.*1)
  then (λ e, if bool_decide (e.1 = k) then (k, v) else e) <$> m
  else m ++ [(k, v)].

(** [new Map(entries)] sets the entries one after the other. *)
Definition new_Map {V} (entries : list (jsval * V)) : list (jsval * V) :=
  foldl (λ m e, Map_set e.1 e.2 m) [] entries.

Fixpoint Map_get {V} (m : list (jsval * V)) (k : jsval) : option V :=
  match m with
  | [] => None
  | e :: m' => if bool_decide (e.1 = k) then Some e.2 else Map_get m' k
  end.

(** The value of a result column as the host hands it back in JSON. *)
Definition column_to_js (v : Sqlite.value) : jsval :=
  match v with
  | Sqlite.Null => JNull
  | Sqlite.Integer n => JNum n
  | Sqlite.Text s => JStr s
  end.

(** [findFirstBulk(tableName, indexColumns, items, createQuery, predicate)];
    a slot holds [Some row] or [None] for [undefined]. *)
Definition findFirstBulk {TItem : Type} (tableName indexColumns : string)
    (items : list TItem) (createQuery : TItem → jsval)
    (predicate : doc → TItem → bool) (st : t) : result (list (option doc)) :=
  match items with
  | [] => Ok []
  | _ =>
      let queries := createQuery <$> items in
      rows ← _execute (A := list Sqlite.row)
               (Sqlite.select_in tableName indexColumns queries) st;
      let rowMap := new_Map ((λ row,
        (column_to_js (Sqlite.json_extract (Sqlite.data row) indexColumns),
         parse_row row)) <$> (rows : list Sqlite.row)) in
      mret ((λ '(item, query),
              match Map_get rowMap query with
              | Some row => if predicate row item then Some row else None
              | None => None
              end) <$> zip items queries)
  end.

(** The [data] object handed to [createResult]. *)
Record FindMultiBulkData (TItem : Type) := {
  item : TItem;
  itemIndex : nat;
  indexIndex : nat
}.
Arguments item {TItem} _.
Arguments itemIndex {TItem} _.
Arguments indexIndex {TItem} _.

(** The order in which the continuations of [findMultiBulk] run when every
    query is answered at once: item by item, index by index. *)
Definition issue_order (itemCount indexCount : nat) : list (nat * nat) :=
  itemIndex ← seq 0 itemCount; indexIndex ← seq 0 indexCount; [(itemIndex, indexIndex)].

Section findMultiBulk.
(** [predicate] and [createResult] are closures of the caller; [C] is the
    state the predicate closes over (the [visited] set of
    [findTermsBulk]), [createResult] may throw. *)
Context {TItem TResult C : Type}.
Variables (tableName : string) (indexColumns : list string) (items : list TItem).
Variable createQuery : TItem → jsval.
Variable predicate : doc → TItem → C → bool * C.
Variable createResult : doc → FindMultiBulkData TItem → result TResult.
Variable st : t.

(** [for (const row of rows) { ... results.push(createResult(...)) }]:
    the results one continuation pushes, in order. *)
Fixpoint for_rows (rows : list Sqlite.row) (data : FindMultiBulkData TItem) (c : C)
  : C * result (list TResult) :=
  match rows with
  | [] => (c, Ok [])
  | row :: rows' =>
      let parsedRow := parse_row row in
      let '(keep, c') := predicate parsedRow (item data) c in
      if keep then
        match createResult parsedRow data with
        | Ok r =>
            let '(c'', rest) := for_rows rows' data c' in
            (c'', (λ rs, r :: rs) <$> rest)
        | Throw e => (c', Throw e)
        end
      else for_rows rows' data c'
  end.

(** The continuations of the [(item, index)] pairs, run in the order
    [order]; each looks its rows up with
    [WHERE json_extract(data, '$.indexName') = ?] and pushes onto the one
    [results] array.  The first exception rejects the whole call. *)
Fixpoint continuations (order : list (nat * nat)) (c : C) : C * result (list TResult) :=
  match order with
  | [] => (c, Ok [])
  | (i, j) :: order' =>
      match items !! i, indexColumns !! j with
      | Some it, Some indexName =>
          match _execute (Sqlite.select_eq tableName indexName (createQuery it)) st with
          | Throw e => (c, Throw e)
          | Ok rows =>
              match for_rows rows {| item := it; itemIndex := i; indexIndex := j |} c with
              | (c', Throw e) => (c', Throw e)
              | (c', Ok rs) =>
                  let '(c'', rest) := continuations order' c' in
                  (c'', (λ rs', rs ++ rs') <$> rest)
              end
          end
      | _, _ => continuations order' c
      end
  end.

(** [findMultiBulk] with the completion order of its sub-queries made
    explicit. *)
Definition findMultiBulk_in (order : list (nat * nat)) (c : C)
  : C * result (list TResult) :=
  if bool_decide (length items = 0%nat) || bool_decide (length indexColumns = 0%nat)
  then (c, Ok [])
  else continuations order c.

(** [findMultiBulk(tableName, indexColumns, items, createQuery, predicate,
    createResult)].  The native call inside [_execute] is synchronous, so
    every sub-query is settled when it is awaited and the continuations
    run in the order the queries were issued. *)
Definition findMultiBulk (c : C) : C * result (list TResult) :=
  findMultiBulk_in (issue_order (length items) (length indexColumns)) c.
End findMultiBulk.

(** ** Counting *)
Record CountOperation := {
  table : string;
  column : string;
  query : option jstring   (* string | null *)
}.

(** One operation of [bulkCount]; [op.query ? ... : ...] tests the query
    for truthiness. *)
Definition count_one (op : CountOperation) (st : t) : result Z :=
  match query op with
  | Some q =>
      if truthy (JStr q)
      then _execute (Sqlite.count_eq (table op) (column op) (JStr q)) st
      else _execute (Sqlite.count_all (table op)) st
  | None => _execute (Sqlite.count_all (table op)) st
  end.

(** [bulkCount(operations)]: [results[index]] is the count of
    [operations[index]], whatever order the queries complete in. *)
Fixpoint bulkCount (operations : list CountOperation) (st : t) : result (list Z) :=
  match operations with
  | [] => Ok []
  | op :: operations' =>
      n ← count_one op st;
      ns ← bulkCount operations' st;
      mret (n :: ns)
  end.

(** ** Bulk deletion

    [bulkDelete] is an [async] function: it runs up to its next [await],
    gives control back, and is resumed later.  An invocation is therefore a
    promise that is either settled or suspended at one of its [await]s. *)
Section bulkDelete.
(** [C] is the state the two callbacks close over. *)
Context {C : Type}.

(** Where an invocation waits, with the locals its continuation uses. *)
Inductive suspended :=
| AwaitCount (tableName indexName : string) (query : jsval) (countResult : Z)
| AwaitKeys (tableName : string) (totalCount : Z) (keysResult : list Z)
    (filterKeys : list Z → C → list Z * C)
| AwaitDeleteIn (totalCount : Z) (filteredKeys : list Z)
| AwaitVacuum (totalCount : Z) (filteredKeys : list Z)
| AwaitDelete (totalCount : Z).

Inductive promise :=
| Pending (at_ : suspended)
| Settled (r : result unit).

Variable filterKeys : option (list Z → C → list Z * C).
Variable onProgress : option (Z → Z → C → C).

(** [if (onProgress) onProgress(completedCount, totalCount)] *)
Definition progress (completedCount totalCount : Z) (c : C) : C :=
  match onProgress with
  | Some f => f completedCount totalCount c
  | None => c
  end.

(** The call itself: the code up to the first [await], which has already
    sent the COUNT statement to the host. *)
Definition bulkDelete_call (tableName : string) (indexName : option string)
    (query : jsval) (st : t) : promise :=
  match _handle st with
  | None => Settled not_open
  | Some _ =>
      match indexName with
      | None => Settled (Ok tt)
      | Some indexName =>
          if bool_decide (indexName = EmptyString) then Settled (Ok tt)
          else
            match _execute (Sqlite.count_eq tableName indexName query) st with
            | Ok countResult =>
                Pending (AwaitCount tableName indexName query countResult)
            | Throw e => Settled (Throw e)
            end
      end
  end.

(** [SELECT id FROM table WHERE data->>'indexName' = ?] *)
Definition select_ids (tableName indexName : string) (query : jsval) (st : t)
  : result (list Z) :=
  rows ← _execute (A := list Sqlite.row) (Sqlite.select_eq tableName indexName query) st;
  mret (Sqlite.id <$> (rows : list Sqlite.row)).

(** Resuming a suspended invocation: the code from one [await] to the
    next, or to the end.  [VACUUM] only reclaims space. *)
Definition bulkDelete_resume (s : suspended) (st : t) (c : C) : t * C * promise :=
  match s with
  | AwaitCount tableName indexName query totalCount =>
      if totalCount =? 0 then (st, progress 0 0 c, Settled (Ok tt))
      else
        match filterKeys with
        | Some f =>
            match select_ids tableName indexName query st with
            | Ok keysResult =>
                (st, c, Pending (AwaitKeys tableName totalCount keysResult f))
            | Throw e => (st, c, Settled (Throw e))
            end
        | None =>
            match _executeRaw (Sqlite.delete_eq tableName indexName query) st with
            | (st', Ok _) => (st', c, Pending (AwaitDelete totalCount))
            | (st', Throw e) => (st', c, Settled (Throw e))
            end
        end
  | AwaitKeys tableName totalCount keys f =>
      let '(filteredKeys, c') := f keys c in
      if bool_decide (length filteredKeys = 0%nat)
      then (st, progress 0 totalCount c', Settled (Ok tt))
      else
        match _executeRaw (Sqlite.delete_in tableName filteredKeys) st with
        | (st', Ok _) => (st', c', Pending (AwaitDeleteIn totalCount filteredKeys))
        | (st', Throw e) => (st', c', Settled (Throw e))
        end
  | AwaitDeleteIn totalCount filteredKeys =>
      match _executeRaw (λ d, Ok d) st with
      | (st', Ok _) => (st', c, Pending (AwaitVacuum totalCount filteredKeys))
      | (st', Throw e) => (st', c, Settled (Throw e))
      end
  | AwaitVacuum totalCount filteredKeys =>
      (st, progress (Z.of_nat (length filteredKeys)) totalCount c, Settled (Ok tt))
  | AwaitDelete totalCount =>
      (st, progress totalCount totalCount c, Settled (Ok tt))
  end.

(** One turn of the job queue over the invocations in flight: each
    suspended one is resumed once, in the order they were started. *)
Fixpoint turn (ps : list promise) (st : t) (c : C) : t * C * list promise :=
  match ps with
  | [] => (st, c, [])
  | p :: ps' =>
      let '(st1, c1, p1) :=
        match p with
        | Pending s => bulkDelete_resume s st c
        | Settled r => (st, c, Settled r)
        end in
      let '(st2, c2, ps2) := turn ps' st1 c1 in
      (st2, c2, p1 :: ps2)
  end.

Fixpoint turns (n : nat) (ps : list promise) (st : t) (c : C) : t * C * list promise :=
  match n with
  | O => (st, c, ps)
  | S n' => let '(st1, c1, ps1) := turn ps st c in turns n' ps1 st1 c1
  end.

(** An invocation passes at most four [await]s. *)
Definition max_awaits : nat := 4.

(** [await Promise.all(promises)]: the queue is turned until every
    invocation has settled. *)
Definition await_all (ps : list promise) (st : t) (c : C) : t * C * list promise :=
  turns max_awaits ps st c.

(** [await bulkDelete(tableName, indexName, query, filterKeys, onProgress)]
    with nothing else in flight. *)
Fixpoint settle (n : nat) (p : promise) (st : t) (c : C) : t * C * promise :=
  match n, p with
  | S n', Pending s =>
      let '(st1, c1, p1) := bulkDelete_resume s st c in settle n' p1 st1 c1
  | _, _ => (st, c, p)
  end.

Definition bulkDelete (tableName : string) (indexName : option string)
    (query : jsval) (st : t) (c : C) : t * C * promise :=
  settle max_awaits (bulkDelete_call tableName indexName query st) st c.
End bulkDelete.

(** ** Adding rows *)

(** [items.slice(start, end)]: a negative bound counts from the end of the
    array, and both bounds are clamped to it. *)
Definition Array_slice {A} (items : list A) (start end_ : Z) : list A :=
  let len := Z.of_nat (length items) in
  let k := if start <? 0 then Z.max (len + start) 0 else Z.min start len in
  let final := if end_ <? 0 then Z.max (len + end_) 0 else Z.min end_ len in
  take (Z.to_nat (final - k)) (drop (Z.to_nat k) items).

(** The document that [JSON.stringify(item)] writes, which [jsonb(?)]
    stores and [json(data)] with [JSON.parse] reads back: a property whose
    value is [undefined] is left out. *)
Definition JSON_stringify (item : doc) : doc :=
  filter (λ kv, kv.2 ≠ JUndefined) item.

(** [bulkAdd(objectStoreName, items, start, count)]; [rowid] gives the ids
    the host assigns to the new rows. *)
Definition bulkAdd (rowid : nat → Z) (objectStoreName : string) (items : list doc)
    (start count : Z) : M unit := λ st,
  match _handle st with
  | None => (st, not_open)
  | Some _ =>
      let length_ := Z.of_nat (length items) in
      let count := if length_ <? start + count then length_ - start else count in
      if count <=? 0 then (st, Ok tt)
      else
        let end_ := Z.min (start + count) length_ in
        let batch := Array_slice items start end_ in
        let values := JSON_stringify <$> batch in
        _executeRaw (Sqlite.insert_rows objectStoreName rowid values) st
  end.

(** ** Deleting the database file *)
Section deleteDatabase.
(** [_nativeSqliteDeleteDatabase(name)], which the host provides: the
    files it leaves, and whether it reports success. *)
Variable _nativeSqliteDeleteDatabase :
  string → gmap string Sqlite.db → gmap string Sqlite.db * bool.

(** [deleteDatabase(databaseName)] *)
Definition deleteDatabase (databaseName : string) : M unit := λ st,
  let '(files, ok) := _nativeSqliteDeleteDatabase databaseName (disk st) in
  let st' := State (_handle st) (_isOpening st) files in
  if negb ok then (st', Throw (Error "Failed to delete database"))
  else (st', Ok tt).
End deleteDatabase.

End Database.

(* ================================================================== *)
(** * [DictionaryDatabase]: the matching layer                          *)
(**   (dictionary/dictionary-database.js)                               *)
(* ================================================================== *)

Module DictionaryDatabase.
Import Database.

(** Modelled from the spec: [stringReverse] of core/utilities.js, which is
    not among the sources; the spec has it reverse the code points of the
    string. *)
Definition stringReverse (s : jstring) : jstring := reverse s.

Inductive MatchType := Exact | Prefix | Suffix.
Inductive MatchSource := Term | Reading | Sequence.

#[global] Instance MatchType_eq_dec : EqDecision MatchType.
Proof. solve_decision. Defined.

Record TermEntry := {
  te_index : nat;
  te_matchType : MatchType;
  te_matchSource : MatchSource;
  te_term : jsval;
  te_reading : jsval;
  te_definitionTags : list jstring;
  te_termTags : list jstring;
  te_rules : list jstring;
  te_definitions : jsval;
  te_score : jsval;
  te_dictionary : jsval;
  te_id : jsval;
  te_sequence : Z
}.

Record TermMeta := {
  tm_index : nat;
  tm_term : jsval;
  tm_mode : jsval;
  tm_data : jsval;
  tm_dictionary : jsval
}.

Record KanjiMeta := {
  km_index : nat;
  km_character : jsval;
  km_mode : jsval;
  km_data : jsval;
  km_dictionary : jsval
}.

Record DictionaryAndQueryRequest := { dq_query : jsval; dq_dictionary : jstring }.

(** [dictionaries.has(x)] on a set of dictionary names. *)
Definition has (dictionaries : gset jstring) (x : jsval) : bool :=
  match x with
  | JStr name => bool_decide (name ∈ dictionaries)
  | _ => false
  end.

(** [a === b]; two arrays or objects read from different places are never
    the same object. *)
Definition strict_eq (a b : jsval) : bool :=
  match a, b with
  | JOther _, _ | _, JOther _ => false
  | _, _ => bool_decide (a = b)
  end.

(** [a || b] *)
Definition or_else (a b : jsval) : jsval := if truthy a then a else b.

Definition percent : N := 37%N.
Definition space : N := 32%N.

Definition _createOnlyQuery1 (item : jstring) : jsval := JStr item.
Definition _createOnlyQuery2 (item : DictionaryAndQueryRequest) : jsval := dq_query item.
Definition _createBoundQuery1 (item : jstring) : jsval := JStr (item ++ [percent]).
Definition _createBoundQuery2 (item : jstring) : jsval :=
  let reversedItem := stringReverse item in
  JStr (reversedItem ++ [percent]).

(** [string.split(separator)] for a one-character separator. *)
Fixpoint split (separator : N) (s : jstring) : list jstring :=
  match s with
  | [] => [[]]
  | ch :: s' =>
      if (ch =? separator)%N then [] :: split separator s'
      else
        match split separator s' with
        | piece :: pieces => (ch :: piece) :: pieces
        | [] => [[ch]]
        end
  end.

(** [_splitField(field)] *)
Definition _splitField (field : jsval) : list jstring :=
  match field with
  | JStr s => if bool_decide (length s = 0%nat) then [] else split space s
  | _ => []
  end.

(** [_createTerm(matchSource, matchType, row, index)] *)
Definition _createTerm (matchSource : MatchSource) (matchType : MatchType)
    (row : doc) (index : nat) : TermEntry :=
  let sequence := prop row "sequence" in
  {| te_index := index;
     te_matchType := matchType;
     te_matchSource := matchSource;
     te_term := prop row "expression";
     te_reading := prop row "reading";
     te_definitionTags := _splitField (or_else (prop row "definitionTags") (prop row "tags"));
     te_termTags := _splitField (prop row "termTags");
     te_rules := _splitField (prop row "rules");
     te_definitions := prop row "glossary";
     te_score := prop row "score";
     te_dictionary := prop row "dictionary";
     te_id := prop row "id";
     te_sequence := match sequence with JNum n => n | _ => -1 end |}.

(** [_createTermGeneric(matchType, row, data)] *)
Definition _createTermGeneric (matchType : MatchType) (row : doc)
    (data : FindMultiBulkData jstring) : TermEntry :=
  let matchSourceIsTerm := bool_decide (indexIndex data = 0%nat) in
  let matchSource := if matchSourceIsTerm then Term else Reading in
  let matchType :=
    if strict_eq (if matchSourceIsTerm then prop row "expression" else prop row "reading")
                 (JStr (item data))
    then Exact else matchType in
  _createTerm matchSource matchType row (itemIndex data).



(** [_createTermMeta(row, data)]: the [switch] on [mode]. *)
Definition _createTermMeta (row : doc) (data : FindMultiBulkData jstring)
  : result TermMeta :=
  let mode := prop row "mode" in
  let entry := {| tm_index := itemIndex data; tm_term := prop row "expression";
                  tm_mode := mode; tm_data := prop row "data";
                  tm_dictionary := prop row "dictionary" |} in
  if strict_eq mode (JStr (js "freq")) then Ok entry
  else if strict_eq mode (JStr (js "pitch")) then Ok entry
  else if strict_eq mode (JStr (js "ipa")) then Ok entry
  else Throw (UnknownMode mode).

(** [_createKanjiMeta(row, data)] *)
Definition _createKanjiMeta (row : doc) (data : FindMultiBulkData jstring) : KanjiMeta :=
  {| km_index := itemIndex data; km_character := prop row "character";
     km_mode := prop row "mode"; km_data := prop row "data";
     km_dictionary := prop row "dictionary" |}.

(** ** Term lookups *)

(** The predicate of [findTermsBulk]; [visited] is the set it closes over,
    kept as the list of the ids added so far. *)
Definition findTermsBulk_predicate (dictionaries : gset jstring)
    (row : doc) (_ : jstring) (visited : list jsval) : bool * list jsval :=
  if negb (has dictionaries (prop row "dictionary")) then (false, visited)
  else
    let id := prop row "id" in
    if bool_decide (id ∈ visited) then (false, visited)
    else (true, id :: visited).

Definition findTermsBulk_indexNames (matchType : MatchType) : list string :=
  match matchType with
  | Suffix => ["expressionReverse"; "readingReverse"]
  | _ => ["expression"; "reading"]
  end.

Definition findTermsBulk_createQuery (matchType : MatchType) : jstring → jsval :=
  match matchType with
  | Prefix => _createBoundQuery1
  | Suffix => _createBoundQuery2
  | Exact => _createOnlyQuery1
  end.

(** [findTermsBulk] with the completion order of the sub-queries of
    [findMultiBulk] made explicit. *)
Definition findTermsBulk_in (order : list (nat * nat)) (termList : list jstring)
    (dictionaries : gset jstring) (matchType : MatchType) (st : t)
  : result (list TermEntry) :=
  (findMultiBulk_in "terms" (findTermsBulk_indexNames matchType) termList
     (findTermsBulk_createQuery matchType)
     (findTermsBulk_predicate dictionaries)
     (λ row data, Ok (_createTermGeneric matchType row data))
     st order []).2.

(** [findTermsBulk(termList, dictionaries, matchType)] *)
Definition findTermsBulk (termList : list jstring) (dictionaries : gset jstring)
    (matchType : MatchType) (st : t) : result (list TermEntry) :=
  findTermsBulk_in (issue_order (length termList)
                      (length (findTermsBulk_indexNames matchType)))
    termList dictionaries matchType st.

(** A predicate that closes over no state. *)
Definition pure_predicate {TItem} (p : doc → TItem → bool)
  : doc → TItem → unit → bool * unit :=
  λ row it c, (p row it, c).



(** [findTermMetaBulk(termList, dictionaries)] *)
Definition findTermMetaBulk (termList : list jstring) (dictionaries : gset jstring)
    (st : t) : result (list TermMeta) :=
  (findMultiBulk "termMeta" ["expression"] termList _createOnlyQuery1
     (pure_predicate (λ row _, has dictionaries (prop row "dictionary")))
     _createTermMeta st tt).2.

(** [findKanjiMetaBulk(kanjiList, dictionaries)] *)
Definition findKanjiMetaBulk (kanjiList : list jstring) (dictionaries : gset jstring)
    (st : t) : result (list KanjiMeta) :=
  (findMultiBulk "kanjiMeta" ["character"] kanjiList _createOnlyQuery1
     (pure_predicate (λ row _, has dictionaries (prop row "dictionary")))
     (λ row data, Ok (_createKanjiMeta row data)) st tt).2.

(** [findTagMetaBulk(items)] *)
Definition findTagMetaBulk (items : list DictionaryAndQueryRequest) (st : t)
  : result (list (option doc)) :=
  findFirstBulk "tagMeta" "name" items _createOnlyQuery2
    (λ row it, strict_eq (prop row "dictionary") (JStr (dq_dictionary it))) st.

(** ** Opening *)

Definition _dbName : string := "dict".

Definition store (key : option string) (autoInc : bool) (indexNames : list string)
  : StoreDefinition :=
  {| primaryKey := {| keyPath := key; autoIncrement := autoInc |};
     indices := indexNames |}.

(** The [upgrade] structure of [prepare]. *)
Definition upgrade : list StructureDefinition :=
  [ {| version := 20;
       stores :=
         [ ("terms", store (Some "id") true ["dictionary"; "expression"; "reading"]);
           ("kanji", store None true ["dictionary"; "character"]);
           ("tagMeta", store None true ["dictionary"]);
           ("dictionaries", store (Some "id") true ["title"; "version"]) ] |};
    {| version := 30;
       stores :=
         [ ("termMeta", store None true ["dictionary"; "expression"]);
           ("kanjiMeta", store None true ["dictionary"; "character"]);
           ("tagMeta", store None true ["dictionary"; "name"]) ] |};
    {| version := 40;
       stores :=
         [ ("terms", store (Some "id") true
              ["dictionary"; "expression"; "reading"; "sequence"]) ] |};
    {| version := 50;
       stores :=
         [ ("terms", store (Some "id") true
              ["dictionary"; "expression"; "reading"; "sequence";
               "expressionReverse"; "readingReverse"]) ] |};
    {| version := 60;
       stores :=
         [ ("media", store (Some "id") true ["dictionary"; "path"]) ] |} ].

(** [prepare()]; [isWorker] is the constant [false]. *)
Definition prepare : M unit := open _dbName 60 upgrade.

(** ** Counts *)

(** The [tables] array of [getDictionaryCounts]: name and column. *)
Definition count_tables : list (string * string) :=
  [ ("kanji", "dictionary"); ("kanjiMeta", "dictionary"); ("terms", "dictionary");
    ("termMeta", "dictionary"); ("tagMeta", "dictionary"); ("media", "dictionary") ].

Record DictionaryCounts := {
  total : option (gmap string jsval);      (* an object, or null *)
  counts : list (gmap string jsval)
}.

(** [rawCounts[resultIndex]] *)
Definition at_index (rawCounts : list Z) (resultIndex : nat) : jsval :=
  match rawCounts !! resultIndex with
  | Some n => JNum n
  | None => JUndefined
  end.

(** [tables.forEach(table => { group[table.name] = rawCounts[resultIndex++]; })] *)
Definition fill_group (rawCounts : list Z) (resultIndex : nat)
  : gmap string jsval * nat :=
  foldl (λ '(group, i) tb, (<[tb.1 := at_index rawCounts i]> group, S i))
        (∅, resultIndex) count_tables.

(** [dictionaryNames.forEach(() => { ...; result.counts.push(group); })] *)
Fixpoint fill_counts {A} (dictionaryNames : list A) (rawCounts : list Z)
    (resultIndex : nat) : list (gmap string jsval) :=
  match dictionaryNames with
  | [] => []
  | _ :: names =>
      let '(group, i) := fill_group rawCounts resultIndex in
      group :: fill_counts names rawCounts i
  end.

(** [getDictionaryCounts(dictionaryNames, getTotal)] *)
Definition getDictionaryCounts (dictionaryNames : list jstring) (getTotal : bool)
    (st : t) : result DictionaryCounts :=
  let countOperations :=
    (if getTotal
     then (λ tb, {| table := tb.1; column := tb.2; query := None |}) <$> count_tables
     else [])
    ++ (name ← dictionaryNames;
        (λ tb, {| table := tb.1; column := tb.2; query := Some name |}) <$> count_tables) in
  rawCounts ← bulkCount countOperations st;
  let '(tot, resultIndex) :=
    if getTotal
    then let '(group, i) := fill_group rawCounts 0 in (Some group, i)
    else (None, 0%nat) in
  mret {| total := tot; counts := fill_counts dictionaryNames rawCounts resultIndex |}.

(** ** Deleting a dictionary *)

Record DeleteDictionaryProgressData := {
  count : Z;
  processed : Z;
  storeCount : Z;
  storesProcesed : Z
}.

(** What the two callbacks of [deleteDictionary] close over: the one
    [progressData] object, and the messages handed to
    [chrome.runtime.sendMessage], each as [progressData] stood when it was
    sent. *)
Record Progress := {
  progressData : DeleteDictionaryProgressData;
  sent : list DeleteDictionaryProgressData
}.

(** [chrome.runtime.sendMessage({action: 'progress', params: progressData})] *)
Definition sendMessage (w : Progress) : Progress :=
  {| progressData := progressData w; sent := sent w ++ [progressData w] |}.

Definition targetGroups : list (list (string * string)) :=
  [ [ ("kanji", "dictionary"); ("kanjiMeta", "dictionary"); ("terms", "dictionary");
      ("termMeta", "dictionary"); ("tagMeta", "dictionary"); ("media", "dictionary") ];
    [ ("dictionaries", "title") ] ].

Definition filterKeys (keys : list Z) (w : Progress) : list Z * Progress :=
  let pd := progressData w in
  let pd' := {| count := count pd + Z.of_nat (length keys);
                processed := processed pd;
                storeCount := storeCount pd;
                storesProcesed := storesProcesed pd + 1 |} in
  (keys, sendMessage {| progressData := pd'; sent := sent w |}).

(** [onProgressWrapper]; it takes no notice of its arguments.  A zero
    [progressRate] makes the remainder [NaN], which is not [0]. *)
Definition onProgressWrapper (progressRate : Z) (_ _ : Z) (w : Progress) : Progress :=
  let pd := progressData w in
  let processed' := processed pd + 1 in
  let w' := {| progressData := {| count := count pd; processed := processed';
                                  storeCount := storeCount pd;
                                  storesProcesed := storesProcesed pd |};
               sent := sent w |} in
  if (negb (progressRate =? 0) && (Z.rem processed' progressRate =? 0))
     || (processed' =? count pd)
  then sendMessage w' else w'.

(** One pass of the loop over [targetGroups]: every [bulkDelete] of the
    group is called, then [await Promise.all(promises).catch(console.error)]
    lets them run; a rejection is printed and dropped. *)
Definition delete_group (dictionaryName : jstring) (progressRate : Z)
    (targets : list (string * string)) (st : t) (w : Progress) : t * Progress :=
  let promises :=
    (λ '(objectStoreName, indexName),
       bulkDelete_call objectStoreName (Some indexName) (JStr dictionaryName) st)
    <$> targets in
  (await_all (Some filterKeys) (Some (onProgressWrapper progressRate)) promises st w).1.

Definition initial_progress : Progress :=
  {| progressData :=
       {| count := 0; processed := 0;
          storeCount := Z.of_nat (length (concat targetGroups));
          storesProcesed := 0 |};
     sent := [] |}.

(** [deleteDictionary(dictionaryName, progressRate, onProgress)]; the
    [onProgress] argument is never used by the code. *)
Definition deleteDictionary (dictionaryName : jstring) (progressRate : Z) (st : t)
  : t * Progress :=
  foldl (λ '(st', w) targets, delete_group dictionaryName progressRate targets st' w)
        (st, initial_progress) targetGroups.

(** ** Kanji and media lookups *)









(** ** Tags and the manifest *)

(** [findTagForTitle(name, dictionary)]; [IDBKeyRange.only(name)] is the
    range whose two bounds are [name].  The result is the tag ([inl]) or
    [null]. *)
Definition findTagForTitle (name dictionary : jstring) (st : t) : result (doc + jsval) :=
  let query := KeyRange (JStr name) (JStr name) in
  find "tagMeta" (Some "name") query
    (Some (λ row (_ : jsval), strict_eq (prop row "dictionary") (JStr dictionary)))
    JNull JNull st.

(** [getDictionaryInfo()] *)
Definition getDictionaryInfo (st : t) : result (list doc) :=
  getAllEntries "dictionaries" st.

(** [dictionaryExists(title)]: [typeof result !== 'undefined'] of what
    [find] returns, a document or the default [undefined]. *)
Definition dictionaryExists (title : jstring) (st : t) : result bool :=
  let query := Key (JStr title) in
  result ← find "dictionaries" (Some "title") query
              (@None (doc → jsval → bool)) JNull JUndefined st;
  mret (match result with
        | inl _ => true
        | inr v => negb (bool_decide (v = JUndefined))
        end).

(** [isPrepared()] *)
Definition isPrepared (st : t) : bool := isOpen st.

Section purge.
Variable _nativeSqliteDeleteDatabase :
  string → gmap string Sqlite.db → gmap string Sqlite.db * bool.

(** [purge()]: the [try] around [deleteDatabase] turns its exception
    into the result [false]; the store is not closed before, and
    [prepare] is called after in either case. *)
Definition purge : M bool := λ st,
  if isOpening st then (st, Throw (Error "Cannot purge database while opening"))
  else
    let '(st1, deleted) := deleteDatabase _nativeSqliteDeleteDatabase _dbName st in
    let result := match deleted with Ok _ => true | Throw _ => false end in
    match prepare st1 with
    | (st2, Ok _) => (st2, Ok result)
    | (st2, Throw e) => (st2, Throw e)
    end.
End purge.

End DictionaryDatabase.

(* ================================================================== *)
(** * [DictionaryWorkerHandler]                                         *)
(**   (dictionary/dictionary-worker-handler.js)                         *)
(* ================================================================== *)

Module DictionaryWorkerHandler.
Import Database DictionaryDatabase.

(** A handler works on a [DictionaryDatabase] object of its own, made
    over the files of the host and dropped at the end; what a handler
    leaves behind are the files. *)
Abbreviation files := (gmap string Sqlite.db).

(** [_getPreparedDictionaryDatabase()] *)
Definition _getPreparedDictionaryDatabase (host : files) : Database.t * result unit :=
  prepare (new host).

(** [try { return await body; } finally { void dictionaryDatabase.close(); }]:
    [close] is called on every path, and what it throws is dropped with the
    promise it rejects. *)
Definition finally_close {A} (out : Database.t * A) : files * A :=
  (disk (close out.1).1, out.2).

(** [_deleteDictionary({dictionaryTitle}, onProgress)] *)
Definition _deleteDictionary (dictionaryTitle : jstring) (host : files)
  : files * result unit :=
  match _getPreparedDictionaryDatabase host with
  | (st, Throw e) => (disk st, Throw e)
  | (st, Ok _) => finally_close ((deleteDictionary dictionaryTitle 1000 st).1, Ok tt)
  end.

(** [_getDictionaryCounts({dictionaryNames, getTotal})] *)
Definition _getDictionaryCounts (dictionaryNames : list jstring) (getTotal : bool)
    (host : files) : files * result DictionaryCounts :=
  match _getPreparedDictionaryDatabase host with
  | (st, Throw e) => (disk st, Throw e)
  | (st, Ok _) => finally_close (st, getDictionaryCounts dictionaryNames getTotal st)
  end.

End DictionaryWorkerHandler.

(* ================================================================== *)
(** * Array buffers and base64 (data/array-buffer-util.js)              *)
(* ================================================================== *)

Module ArrayBufferUtil.

(** An [ArrayBuffer] seen through [new Uint8Array(arrayBuffer)] is the
    list of its bytes.  The strings of this file are made of characters
    of one byte, base64 text and binary strings alike. *)
Abbreviation ArrayBuffer := (list Byte.byte).
Abbreviation bstring := (list ascii).

(** The bit operators of JavaScript work on 32-bit integers. *)
Definition ToInt32 (x : Z) : Z := (x + 2 ^ 31) mod 2 ^ 32 - 2 ^ 31.

Definition shl (a n : Z) : Z := ToInt32 (Z.shiftl (ToInt32 a) n).    (* a << n *)
Definition sar (a n : Z) : Z := Z.shiftr (ToInt32 a) n.              (* a >> n *)
Definition bor (a b : Z) : Z := Z.lor (ToInt32 a) (ToInt32 b).       (* a | b *)
Definition band (a b : Z) : Z := Z.land (ToInt32 a) (ToInt32 b).     (* a & b *)

(** [bytes[i]]; past the end it is [undefined], which the bit operators
    read as 0. *)
Definition byte_at (bytes : ArrayBuffer) (i : nat) : Z :=
  match bytes !! i with
  | Some b => Z.of_N (Byte.to_N b)
  | None => 0
  end.

(** [s[i]] inside a concatenation. *)
Definition char_at (s : bstring) (i : Z) : bstring :=
  match (if i <? 0 then None else s !! Z.to_nat i) with
  | Some c => [c]
  | None => list_ascii_of_string "undefined"
  end.

Definition encodings : bstring :=
  list_ascii_of_string
    "ABCDEFGHIJKLMNOPQRSTUVWXYZabcdefghijklmnopqrstuvwxyz0123456789+/".

(** [arrayBufferToBinaryString(arrayBuffer)]: [String.fromCharCode] of
    all the bytes at once, or byte after byte when that call is refused;
    the string is the same. *)
Definition arrayBufferToBinaryString (arrayBuffer : ArrayBuffer) : bstring :=
  ascii_of_byte <$> arrayBuffer.

(** The main loop of [arrayBufferToBase64]:
    [for (var i = 0; i < mainLength; i = i + 3) { ... base64 += ... }];
    [fuel] bounds the number of passes. *)
Fixpoint main_loop (fuel : nat) (bytes : ArrayBuffer) (mainLength i : nat)
    (base64 : bstring) : bstring :=
  match fuel with
  | O => base64
  | S fuel' =>
      if (i <? mainLength)%nat then
        let chunk := bor (bor (shl (byte_at bytes i) 16)
                              (shl (byte_at bytes (i + 1)) 8))
                         (byte_at bytes (i + 2)) in
        let a := sar (band chunk 16515072) 18 in
        let b := sar (band chunk 258048) 12 in
        let c := sar (band chunk 4032) 6 in
        let d := band chunk 63 in
        main_loop fuel' bytes mainLength (i + 3)
          (base64 ++ (char_at encodings a ++ char_at encodings b
                      ++ char_at encodings c ++ char_at encodings d))
      else base64
  end.

(** [arrayBufferToBase64(arrayBuffer)] *)
Definition arrayBufferToBase64 (arrayBuffer : ArrayBuffer) : bstring :=
  let bytes := arrayBuffer in
  let byteLength := length bytes in
  let byteRemainder := (byteLength mod 3)%nat in
  let mainLength := (byteLength - byteRemainder)%nat in
  let base64 := main_loop byteLength bytes mainLength 0 [] in
  if (byteRemainder =? 1)%nat then
    let chunk := byte_at bytes mainLength in
    let a := sar (band chunk 252) 2 in
    let b := shl (band chunk 3) 4 in
    base64 ++ (char_at encodings a ++ char_at encodings b ++ list_ascii_of_string "==")
  else if (byteRemainder =? 2)%nat then
    let chunk := bor (shl (byte_at bytes mainLength) 8) (byte_at bytes (mainLength + 1)) in
    let a := sar (band chunk 64512) 10 in
    let b := sar (band chunk 1008) 4 in
    let c := shl (band chunk 15) 2 in
    base64 ++ (char_at encodings a ++ char_at encodings b ++ char_at encodings c
               ++ list_ascii_of_string "=")
  else base64.

(** ** [atob], which the host provides

    The decoder of the HTML standard (forgiving-base64 decode): ASCII
    whitespace is dropped; if the length is then a multiple of 4, one or
    two [=] at the end are dropped; a length that leaves the remainder 1,
    or a character outside the alphabet, is refused; every character
    stands for 6 bits, every 24 bits give three bytes, and of 12 or 18 bits
    left over the last 4 or 2 are discarded. *)
Definition is_whitespace (c : ascii) : bool :=
  bool_decide (N_of_ascii c ∈ [9; 10; 12; 13; 32]%N).

Fixpoint index_of (c : ascii) (s : bstring) : option Z :=
  match s with
  | [] => None
  | c' :: s' => if Ascii.eqb c c' then Some 0 else Z.succ <$> index_of c s'
  end.

Definition sextet (c : ascii) : option Z := index_of c encodings.

Definition octet (n : Z) : ascii := ascii_of_N (Z.to_N (n mod 256)).

Fixpoint decode (sextets : list Z) : bstring :=
  match sextets with
  | a :: b :: c :: d :: rest =>
      let n := a * 262144 + b * 4096 + c * 64 + d in
      octet (n / 65536) :: octet (n / 256) :: octet n :: decode rest
  | [a; b; c] =>
      let n := (a * 4096 + b * 64 + c) / 4 in
      [octet (n / 256); octet n]
  | [a; b] =>
      let n := (a * 64 + b) / 16 in
      [octet n]
  | _ => []
  end.

Definition equals_sign : ascii := "="%char.

Definition strip_padding (data : bstring) : bstring :=
  if (length data mod 4 =? 0)%nat then
    match reverse data with
    | c1 :: c2 :: rest =>
        if Ascii.eqb c1 equals_sign
        then if Ascii.eqb c2 equals_sign then reverse rest else reverse (c2 :: rest)
        else data
    | [c1] => if Ascii.eqb c1 equals_sign then [] else data
    | [] => data
    end
  else data.

(** [atob(data)]; [None] when it throws. *)
Definition atob (data : bstring) : option bstring :=
  let data := filter (λ c, is_whitespace c = false) data in
  let data := strip_padding data in
  if (length data mod 4 =? 1)%nat then None
  else decode <$> mapM sextet data.

(** [base64ToArrayBuffer(content)]; [None] when [atob] throws. *)
Definition base64ToArrayBuffer (content : bstring) : option ArrayBuffer :=
  match atob content with
  | Some binaryContent => Some (byte_of_ascii <$> binaryContent)
  | None => None
  end.

End ArrayBufferUtil.

(* ================================================================== *)
(** * Vocabulary of the statements                                      *)
(* ================================================================== *)

(** The schema objects of a database. *)
Definition has_table (d : Sqlite.db) (tableName : string) : Prop :=
  is_Some (Sqlite.tables d !! tableName).

Definition has_index (d : Sqlite.db) (tableName indexName : string) : Prop :=
  is_Some (Sqlite.indices d !! Sqlite.index_name tableName indexName).

(** A table that exists with every index its definition declares. *)
Definition up_to_date (d : Sqlite.db) (tableName : string)
    (tableSchema : Database.StoreDefinition) : Prop :=
  has_table d tableName ∧
  ∀ indexName, indexName ∈ Database.indices tableSchema → has_index d tableName indexName.

(** The entries a migration from [currentVersion] to [targetVersion] is to
    apply. *)
Definition in_window (currentVersion targetVersion : Z)
    (schema : Database.StructureDefinition) : Prop :=
  currentVersion < Database.version schema ∧ Database.version schema ≤ targetVersion.

#[global] Instance in_window_dec c t s : Decision (in_window c t s).
Proof. unfold in_window. apply _. Defined.

Section observed.
Context {TItem : Type}.
Variables (tableName : string) (indexColumns : list string) (items : list TItem).
Variable createQuery : TItem → jsval.
Variable d : Sqlite.db.

(** The rows the sub-query of the pair [(i, j)] returns, parsed, each with
    the [data] object of the pair. *)
Definition pair_matches (i j : nat) : list (doc * Database.FindMultiBulkData TItem) :=
  match items !! i, indexColumns !! j with
  | Some it, Some indexName =>
      (λ row, (Database.parse_row row,
               {| Database.item := it; Database.itemIndex := i;
                  Database.indexIndex := j |}))
      <$> filter (λ r, Sqlite.matches indexName (createQuery it) r = true)
                 (Sqlite.rows_of d tableName)
  | _, _ => []
  end.

(** Every row that some sub-query returns, in the order in which the
    continuations get to see them. *)
Definition observed (order : list (nat * nat))
  : list (doc * Database.FindMultiBulkData TItem) :=
  p ← order; pair_matches p.1 p.2.
End observed.

Section feed.
Context {TItem TResult C : Type}.
Variable predicate : doc → TItem → C → bool * C.
Variable createResult : doc → Database.FindMultiBulkData TItem → result TResult.

(** What the continuations make of the rows they see. *)
Fixpoint feed (obs : list (doc * Database.FindMultiBulkData TItem)) (c : C)
  : C * result (list TResult) :=
  match obs with
  | [] => (c, Ok [])
  | (row, data) :: obs' =>
      let '(keep, c') := predicate row (Database.item data) c in
      if keep then
        match createResult row data with
        | Ok r => let '(c'', rest) := feed obs' c' in (c'', (λ rs, r :: rs) <$> rest)
        | Throw e => (c', Throw e)
        end
      else feed obs' c'
  end.
End feed.

(** The first exception of a list of computations, or all their values. *)
Fixpoint traverse {A B} (f : A → result B) (l : list A) : result (list B) :=
  match l with
  | [] => Ok []
  | x :: l' =>
      match f x with
      | Ok y => (λ ys, y :: ys) <$> traverse f l'
      | Throw e => Throw e
      end
  end.



(** The closed set of modes of a meta row. *)
Definition known_mode (mode : jsval) : Prop :=
  mode = JStr (js "freq") ∨ mode = JStr (js "pitch") ∨ mode = JStr (js "ipa").

(** No row of [rs] has the field equal to the key. *)
Definition clean (field : string) (key : jsval) (rs : list Sqlite.row) : Prop :=
  ∀ r, r ∈ rs → Sqlite.matches field key r = false.

(** The two groups of [deleteDictionary]. *)
Definition content_group : list (string * string) :=
  default [] (DictionaryDatabase.targetGroups !! 0%nat).
Definition manifest_group : list (string * string) :=
  default [] (DictionaryDatabase.targetGroups !! 1%nat).

(** An open store that has the seven tables of the dictionary database. *)
Definition prepared (st : Database.t) : Prop :=
  is_Some (Database._handle st) ∧
  ∀ target, target ∈ concat DictionaryDatabase.targetGroups →
            has_table (Database.connected st) target.1.

(** [st'] comes from [st] by deleting rows: the connection and the tables
    are the same, and every row of [st'] is a row of [st]. *)
Definition shrinks (st st' : Database.t) : Prop :=
  Database._handle st' = Database._handle st ∧
  (∀ tb, has_table (Database.connected st) tb → has_table (Database.connected st') tb) ∧
  (∀ tb r, r ∈ Sqlite.rows_of (Database.connected st') tb →
           r ∈ Sqlite.rows_of (Database.connected st) tb).

(** The number of [await]s an invocation of [bulkDelete] still has to pass. *)
Definition rank {C} (p : Database.promise (C := C)) : nat :=
  match p with
  | Database.Pending (Database.AwaitCount _ _ _ _) => 4
  | Database.Pending (Database.AwaitKeys _ _ _ _) => 3
  | Database.Pending (Database.AwaitDeleteIn _ _) => 2
  | Database.Pending (Database.AwaitVacuum _ _) => 1
  | Database.Pending (Database.AwaitDelete _) => 1
  | Database.Settled _ => 0
  end.

(** What is known of an invocation of [bulkDelete] on [target] with the key
    [key] while it is in flight, when [filterKeys] hands the keys back as
    they are: once the keys are read they cover the matching rows, once the
    DELETE is sent no matching row is left, and it is not rejected. *)
Definition in_flight {C} (key : jsval) (st : Database.t) (target : string * string)
    (p : Database.promise (C := C)) : Prop :=
  let rs := Sqlite.rows_of (Database.connected st) target.1 in
  match p with
  | Database.Pending (Database.AwaitCount tb field q totalCount) =>
      tb = target.1 ∧ field = target.2 ∧ q = key ∧
      (totalCount = 0 → clean target.2 key rs)
  | Database.Pending (Database.AwaitKeys tb _ keys f) =>
      tb = target.1 ∧ (∀ ks c, (f ks c).1 = ks) ∧
      (∀ r, r ∈ rs → Sqlite.matches target.2 key r = true → Sqlite.id r ∈ keys)
  | Database.Pending _ => clean target.2 key rs
  | Database.Settled (Ok _) => clean target.2 key rs
  | Database.Settled (Throw _) => False
  end.

(** The same invocation, followed exactly, in terms of the rows [rows0] its
    table held when it was called: until its DELETE is sent the table holds
    [rows0] and the keys it has read are the ids of the matching rows; from
    then on the table holds the rows of [rows0] that do not match. *)
Definition deleting {C} (key : jsval) (rows0 : list Sqlite.row) (st : Database.t)
    (target : string * string) (p : Database.promise (C := C)) : Prop :=
  let rs := Sqlite.rows_of (Database.connected st) target.1 in
  let matching := filter (λ r, Sqlite.matches target.2 key r = true) rows0 in
  let kept := filter (λ r, Sqlite.matches target.2 key r ≠ true) rows0 in
  match p with
  | Database.Pending (Database.AwaitCount tb field q totalCount) =>
      tb = target.1 ∧ field = target.2 ∧ q = key ∧ rs = rows0 ∧
      totalCount = Z.of_nat (length matching)
  | Database.Pending (Database.AwaitKeys tb _ keys f) =>
      tb = target.1 ∧ (∀ ks c, (f ks c).1 = ks) ∧ rs = rows0 ∧
      keys = Sqlite.id <$> matching
  | Database.Pending _ => rs = kept
  | Database.Settled (Ok _) => rs = kept
  | Database.Settled (Throw _) => False
  end.

(** The counts [bulkCount] is to deliver for one dictionary name, table by
    table, and those for the totals; and the object made of six counts. *)
Definition chunk (st : Database.t) (n : jstring) : list Z :=
  (λ tb, Z.of_nat (length (filter (λ r, Sqlite.matches tb.2 (JStr n) r = true)
                                  (Sqlite.rows_of (Database.connected st) tb.1))))
  <$> DictionaryDatabase.count_tables.

Definition totals (st : Database.t) : list Z :=
  (λ tb, Z.of_nat (length (Sqlite.rows_of (Database.connected st) tb.1)))
  <$> DictionaryDatabase.count_tables.

Definition group_of (cs : list Z) : gmap string jsval :=
  list_to_map (zip (DictionaryDatabase.count_tables.*1) (JNum <$> cs)).

(** The character that stands for the six bits [a] in base64. *)
Definition code (a : Z) : ascii :=
  default "A"%char (ArrayBufferUtil.encodings !! Z.to_nat a).

(** The four characters one pass of the main loop of [arrayBufferToBase64]
    appends for the three bytes it reads. *)
Definition quad (x y z : Byte.byte) : ArrayBufferUtil.bstring :=
  let bytes := [x; y; z] in
  let chunk :=
    ArrayBufferUtil.bor
      (ArrayBufferUtil.bor (ArrayBufferUtil.shl (ArrayBufferUtil.byte_at bytes 0) 16)
                           (ArrayBufferUtil.shl (ArrayBufferUtil.byte_at bytes 1) 8))
      (ArrayBufferUtil.byte_at bytes 2) in
  ArrayBufferUtil.char_at ArrayBufferUtil.encodings
    (ArrayBufferUtil.sar (ArrayBufferUtil.band chunk 16515072) 18)
  ++ ArrayBufferUtil.char_at ArrayBufferUtil.encodings
       (ArrayBufferUtil.sar (ArrayBufferUtil.band chunk 258048) 12)
  ++ ArrayBufferUtil.char_at ArrayBufferUtil.encodings
       (ArrayBufferUtil.sar (ArrayBufferUtil.band chunk 4032) 6)
  ++ ArrayBufferUtil.char_at ArrayBufferUtil.encodings (ArrayBufferUtil.band chunk 63).

(** [d'] has all that [d] has: its tables with their rows and its indices;
    a table it has in addition is empty. *)
Definition extends (d d' : Sqlite.db) : Prop :=
  Sqlite.tables d ⊆ Sqlite.tables d' ∧
  Sqlite.indices d ⊆ Sqlite.indices d' ∧
  ∀ tableName, Sqlite.rows_of d' tableName = Sqlite.rows_of d tableName.

(** The store [st'] is the store [st] connected to the file [name], after
    statements that only add to that file. *)
Definition grows (name : string) (st st' : Database.t) : Prop :=
  Database._handle st' = Some name ∧
  Database._isOpening st' = Database._isOpening st ∧
  extends (Database.database st name) (Database.connected st') ∧
  ∀ other, other ≠ name → Database.disk st' !! other = Database.disk st !! other.

(** The body of the loop of [_performMigrations] for an entry it applies:
    the schema changes, then the new schema version. *)
Definition migration_step (schema : Database.StructureDefinition) : Database.M unit :=
  _ ← Database._applySchemaChanges schema;
  Database._executeRaw (λ d, Ok (Sqlite.set_user_version (Database.version schema) d)).

Definition version_le (a b : Database.StructureDefinition) : Prop :=
  Database.version a ≤ Database.version b.

(* ================================================================== *)
(** * A small store to run the code on                                  *)
(* ================================================================== *)

Module Sample.
Import Database DictionaryDatabase.

Definition neko : jstring := [0x306D; 0x3053]%N.                       (* ねこ *)
Definition kononeko : jstring := [0x3053; 0x306E; 0x306D; 0x3053]%N.   (* このねこ *)
Definition cat : jstring := [0x732B]%N.                                (* 猫 *)

(** A term of dictionary [d] in the old format: its tags are in [tags]. *)
Definition term_cat : Sqlite.row :=
  Sqlite.Row 1 (list_to_map
    [ ("dictionary", JStr (js "d")); ("expression", JStr cat);
      ("reading", JStr kononeko);
      ("expressionReverse", JStr (stringReverse cat));
      ("readingReverse", JStr (stringReverse kononeko));
      ("tags", JStr (js "n uk")); ("rules", JStr []); ("sequence", JNum 7);
      ("glossary", JOther (js "[cat]")); ("score", JNum 0) ]).

Definition tag_n_A : Sqlite.row :=
  Sqlite.Row 1 (list_to_map
    [ ("name", JStr (js "n")); ("dictionary", JStr (js "A")); ("category", JStr (js "pos")) ]).

Definition tag_n_B : Sqlite.row :=
  Sqlite.Row 2 (list_to_map
    [ ("name", JStr (js "n")); ("dictionary", JStr (js "B")); ("category", JStr (js "pos")) ]).

Definition meta (key : string) (mode : string) : Sqlite.row :=
  Sqlite.Row 1 (list_to_map
    [ ("dictionary", JStr (js "d")); (key, JStr cat); ("mode", JStr (js mode));
      ("data", JNum 3) ]).

Definition manifest_d : Sqlite.row :=
  Sqlite.Row 1 (list_to_map [ ("title", JStr (js "d")); ("version", JNum 3) ]).

Definition fill (tableName : string) (rs : list Sqlite.row) (st : Database.t) : Database.t :=
  set_database _dbName (Sqlite.set_rows tableName rs (database st _dbName)) st.

(** The store [prepare] makes out of nothing. *)
Definition fresh : Database.t := (prepare (new ∅)).1.

Definition store : Database.t :=
  fill "dictionaries" [manifest_d]
    (fill "kanjiMeta" [meta "character" "bogus"]
       (fill "termMeta" [meta "expression" "bogus"]
          (fill "tagMeta" [tag_n_A; tag_n_B]
             (fill "terms" [term_cat] fresh)))).
End Sample.

(* ================================================================== *)
(** * Properties                                                        *)
(* ================================================================== *)

Import Database DictionaryDatabase.

(* ================================================================== *)
(** * Facts about the store                                             *)
(* ================================================================== *)

Lemma filter_none {A} (P : A → Prop) `{!∀ x, Decision (P x)} (l : list A) :
  (∀ x, x ∈ l → ¬ P x) → filter P l = [].
Proof.
  induction l as [|x l IH]; intros Hnone; [done|].
  rewrite filter_cons_False by (apply Hnone; left).
  apply IH. intros y Hy. apply Hnone. by right.
Qed.

Lemma filter_all {A} (P : A → Prop) `{!∀ x, Decision (P x)} (l : list A) :
  Forall P l → filter P l = l.
Proof.
  induction 1 as [|x l Hx _ IH]; [done|].
  by rewrite filter_cons_True, IH.
Qed.

Section store_facts.
Implicit Types (st : Database.t) (d : Sqlite.db).

Lemma database_set_database name d st :
  database (set_database name d st) name = d.
Proof. unfold database, set_database; simpl. by rewrite lookup_insert_eq. Qed.

Lemma connected_set_database name d st :
  _handle st = Some name → connected (set_database name d st) = d.
Proof.
  intros H. unfold connected. simpl. rewrite H. apply database_set_database.
Qed.

Lemma execute_open {A} (stmt : Sqlite.db → result A) st name :
  _handle st = Some name → _execute stmt st = stmt (connected st).
Proof. intros H. unfold _execute, connected. by rewrite H. Qed.

Lemma executeRaw_open stmt st name d :
  _handle st = Some name → stmt (connected st) = Ok d →
  _executeRaw stmt st = (set_database name d st, Ok tt).
Proof.
  intros H Hd. unfold _executeRaw. unfold connected in Hd. rewrite H in *.
  by rewrite Hd.
Qed.

Lemma bind_ok {A B} (m : M A) (f : A → M B) st st' a :
  m st = (st', Ok a) → (m ≫= f) st = f a st'.
Proof. intros H. unfold mbind, M_bind. by rewrite H. Qed.

Lemma for_of_nil {A} (body : A → M unit) st : for_of [] body st = (st, Ok tt).
Proof. done. Qed.

Lemma for_of_cons_ok {A} (body : A → M unit) x xs st st' :
  body x st = (st', Ok tt) → for_of (x :: xs) body st = for_of xs body st'.
Proof. intros H. simpl. by rewrite (bind_ok _ _ _ _ _ H). Qed.

(** A loop whose body keeps an invariant indexed by the elements done. *)
Lemma for_of_ind {A} (I : list A → Database.t → Prop) (body : A → M unit) xs :
  (∀ pre x st, I pre st → x ∈ xs →
     ∃ st', body x st = (st', Ok tt) ∧ I (pre ++ [x]) st') →
  ∀ st, I [] st → ∃ st', for_of xs body st = (st', Ok tt) ∧ I xs st'.
Proof.
  intros Hbody.
  assert (G : ∀ todo pre st, I pre st → (∀ x, x ∈ todo → x ∈ xs) →
              ∃ st', for_of todo body st = (st', Ok tt) ∧ I (pre ++ todo) st').
  { induction todo as [|x todo IH]; intros pre st HI Hsub.
    - exists st. by rewrite app_nil_r.
    - destruct (Hbody pre x st HI) as (st1 & Hx & HI1); [apply Hsub; left|].
      destruct (IH (pre ++ [x]) st1 HI1) as (st2 & Hrest & HI2).
      { intros y Hy. apply Hsub. by right. }
      exists st2. rewrite (for_of_cons_ok _ _ _ _ _ Hx).
      split; [done|]. by rewrite <- app_assoc in HI2. }
  intros st HI. by apply (G xs [] st).
Qed.

(** A loop whose body does nothing leaves the state as it is. *)
Lemma for_of_skip {A} (body : A → M unit) xs st :
  (∀ x, x ∈ xs → body x st = (st, Ok tt)) → for_of xs body st = (st, Ok tt).
Proof.
  induction xs as [|x xs IH]; intros H; [done|].
  rewrite (for_of_cons_ok _ _ _ _ st); [|apply H; left].
  apply IH. intros y Hy. apply H. by right.
Qed.
End store_facts.

(* ================================================================== *)
(** * The sample store                                                  *)
(* ================================================================== *)

Lemma sample_handle : _handle Sample.store = Some _dbName.
Proof. vm_compute. reflexivity. Qed.

Lemma sample_tables tb :
  tb ∈ ["kanji"; "kanjiMeta"; "terms"; "termMeta"; "tagMeta"; "media"; "dictionaries"] →
  has_table (connected Sample.store) tb.
Proof.
  rewrite !elem_of_cons, elem_of_nil.
  intros [->|[->|[->|[->|[->|[->|[->|[]]]]]]]]; vm_compute; eauto.
Qed.

Lemma sample_terms : has_table (connected Sample.store) "terms".
Proof. apply sample_tables. rewrite !elem_of_cons. tauto. Qed.

Lemma sample_tagMeta : has_table (connected Sample.store) "tagMeta".
Proof. apply sample_tables. rewrite !elem_of_cons. tauto. Qed.

Lemma sample_termMeta : has_table (connected Sample.store) "termMeta".
Proof. apply sample_tables. rewrite !elem_of_cons. tauto. Qed.

Lemma sample_kanjiMeta : has_table (connected Sample.store) "kanjiMeta".
Proof. apply sample_tables. rewrite !elem_of_cons. tauto. Qed.



Lemma sample_dictionaries : has_table (connected Sample.store) "dictionaries".
Proof. apply sample_tables. rewrite !elem_of_cons. tauto. Qed.

Lemma sample_prepared : prepared Sample.store.
Proof.
  split; [exists _dbName; apply sample_handle|].
  intros [tb field] Htg. apply sample_tables. simpl.
  unfold targetGroups in Htg. simpl in Htg.
  rewrite !elem_of_cons, elem_of_nil in Htg. rewrite !elem_of_cons.
  destruct Htg as [H|[H|[H|[H|[H|[H|[H|[]]]]]]]]; injection H as -> _; tauto.
Qed.

Lemma sample_terms_rows :
  Sqlite.rows_of (connected Sample.store) "terms" = [Sample.term_cat].
Proof. vm_compute. reflexivity. Qed.


Lemma sample_termMeta_rows :
  Sqlite.rows_of (connected Sample.store) "termMeta" = [Sample.meta "expression" "bogus"].
Proof. vm_compute. reflexivity. Qed.



Lemma sample_bogus_mode : ¬ known_mode (JStr (js "bogus")).
Proof. intros [H|[H|H]]; vm_compute in H; discriminate H. Qed.

(* ================================================================== *)
(** * Migration                                                         *)
(* ================================================================== *)

Section migration.
Implicit Types (st : Database.t) (d : Sqlite.db).

Lemma create_index_spec tn i d :
  has_table d tn →
  ∃ d', Sqlite.create_index tn i d = Ok d' ∧
        Sqlite.user_version d' = Sqlite.user_version d ∧
        Sqlite.tables d' = Sqlite.tables d ∧
        has_index d' tn i ∧
        (∀ k, is_Some (Sqlite.indices d !! k) → is_Some (Sqlite.indices d' !! k)).
Proof.
  intros [t Ht]. unfold Sqlite.create_index, has_index.
  destruct (Sqlite.indices d !! Sqlite.index_name tn i) as [x|] eqn:E.
  - exists d. rewrite E. eauto 10.
  - unfold Sqlite.get_table. rewrite Ht. simpl. eexists. split; [reflexivity|].
    simpl. rewrite lookup_insert_eq. repeat split; eauto.
    intros k Hk. destruct (decide (Sqlite.index_name tn i = k)) as [->|Hne].
    + rewrite lookup_insert_eq. eauto.
    + by rewrite lookup_insert_ne.
Qed.



Lemma createIndices_ok tn ts st name :
  _handle st = Some name → has_table (connected st) tn →
  ∃ st', _createIndices tn ts st = (st', Ok tt) ∧
         _handle st' = Some name ∧ _isOpening st' = _isOpening st ∧
         Sqlite.user_version (connected st') = Sqlite.user_version (connected st) ∧
         Sqlite.tables (connected st') = Sqlite.tables (connected st) ∧
         (∀ i, i ∈ indices ts → has_index (connected st') tn i).
Proof.
  intros Hh Ht. unfold _createIndices.
  destruct (for_of_ind
    (λ pre s, _handle s = Some name ∧ _isOpening s = _isOpening st ∧
              Sqlite.user_version (connected s) = Sqlite.user_version (connected st) ∧
              Sqlite.tables (connected s) = Sqlite.tables (connected st) ∧
              (∀ i, i ∈ pre → has_index (connected s) tn i))
    (λ indexName, _executeRaw (Sqlite.create_index tn indexName)) (indices ts))
    with st as (st' & Hrun & HI).
  - intros pre i s (Hs & Ho & Hu & HT & Hpre) _.
    destruct (create_index_spec tn i (connected s)) as (d' & Hd & Hu' & HT' & Hi & Hmono).
    { unfold has_table. rewrite HT. exact Ht. }
    exists (set_database name d' s). split; [by apply executeRaw_open|].
    rewrite (connected_set_database _ _ _ Hs). simpl.
    repeat split; try congruence.
    intros k Hk. apply elem_of_app in Hk as [Hk|Hk].
    + apply Hmono, Hpre, Hk.
    + apply list_elem_of_singleton in Hk. by subst.
  - repeat split; try done. intros i Hi. by apply elem_of_nil in Hi.
  - exists st'. destruct HI as (?&?&?&?&?). eauto 10.
Qed.


(** [_createOrUpdateTable] always succeeds on an open connection and leaves
    the table in place with its indices; the schema version is untouched. *)
Lemma createOrUpdateTable_ok tn ts st name :
  _handle st = Some name →
  ∃ st', _createOrUpdateTable tn ts st = (st', Ok tt) ∧
         _handle st' = Some name ∧ _isOpening st' = _isOpening st ∧
         Sqlite.user_version (connected st') = Sqlite.user_version (connected st) ∧
         up_to_date (connected st') tn ts.
Proof.
  intros Hh. unfold _createOrUpdateTable.
  assert (Hread : read (_tableExists tn) st
                  = (st, Ok (Sqlite.table_exists tn (connected st)))).
  { unfold read, _tableExists. by rewrite (execute_open _ _ _ Hh). }
  rewrite (bind_ok _ _ _ _ _ Hread).
  unfold Sqlite.table_exists.
  destruct (decide (is_Some (Sqlite.tables (connected st) !! tn))) as [Hex|Hnex].
  - rewrite bool_decide_eq_true_2 by done. simpl.
    rewrite (bind_ok _ _ st st tt) by done.
    destruct (createIndices_ok tn ts st name Hh Hex) as (st' & Hrun & ? & ? & ? & HT & ?).
    exists st'. repeat split; try done. unfold has_table. by rewrite HT.
  - rewrite bool_decide_eq_false_2 by done. simpl.
    set (d1 := Sqlite.create_table tn (autoIncrement (primaryKey ts)) (connected st)).
    assert (Hct : _createTable tn ts st = (set_database name d1 st, Ok tt)).
    { unfold _createTable. by apply executeRaw_open. }
    rewrite (bind_ok _ _ _ _ _ Hct).
    assert (Hh1 : _handle (set_database name d1 st) = Some name) by done.
    assert (Hc1 : connected (set_database name d1 st) = d1)
      by by apply connected_set_database.
    assert (Ht1 : has_table d1 tn).
    { unfold d1, Sqlite.create_table, has_table.
      destruct (Sqlite.tables (connected st) !! tn) eqn:E; [by rewrite E|].
      simpl. rewrite lookup_insert_eq. eauto. }
    destruct (createIndices_ok tn ts _ name Hh1) as (st' & Hrun & ? & ? & Hu & HT & ?).
    { by rewrite Hc1. }
    exists st'. repeat split; try done.
    + rewrite Hu, Hc1. unfold d1, Sqlite.create_table.
      by destruct (Sqlite.tables (connected st) !! tn).
    + unfold has_table. rewrite HT, Hc1. exact Ht1.
Qed.


Lemma applySchemaChanges_ok schema st name :
  _handle st = Some name →
  ∃ st', _applySchemaChanges schema st = (st', Ok tt) ∧
         _handle st' = Some name ∧ _isOpening st' = _isOpening st ∧
         Sqlite.user_version (connected st') = Sqlite.user_version (connected st).
Proof.
  intros Hh. unfold _applySchemaChanges.
  destruct (for_of_ind
    (λ _ s, _handle s = Some name ∧ _isOpening s = _isOpening st ∧
            Sqlite.user_version (connected s) = Sqlite.user_version (connected st))
    (λ '(tableName, tableSchema), _createOrUpdateTable tableName tableSchema)
    (stores schema)) with st as (st' & Hrun & HI).
  - intros pre [tn ts] s (Hs & Ho & Hu) _.
    destruct (createOrUpdateTable_ok tn ts s name Hs) as (s' & Hrun & ? & ? & ? & _).
    exists s'. repeat split; congruence.
  - by repeat split.
  - exists st'. destruct HI as (?&?&?). eauto.
Qed.
End migration.

Section open_twice.
Implicit Types (st : Database.t) (d : Sqlite.db).

Lemma sort_insert_elem x s l : x ∈ sort_insert s l ↔ x = s ∨ x ∈ l.
Proof.
  induction l as [|y l IH]; simpl.
  - rewrite list_elem_of_singleton, elem_of_nil. tauto.
  - destruct (version s <=? version y); rewrite !elem_of_cons; [tauto|].
    rewrite IH. tauto.
Qed.

Lemma sort_elem x l : x ∈ sort l ↔ x ∈ l.
Proof.
  induction l as [|y l IH]; simpl; [done|].
  rewrite sort_insert_elem, IH, elem_of_cons. tauto.
Qed.

Lemma sort_insert_sorted s l :
  StronglySorted version_le l → StronglySorted version_le (sort_insert s l).
Proof.
  induction 1 as [|y l Hl IH Hy]; simpl.
  - repeat constructor.
  - destruct (version s <=? version y) eqn:E.
    + apply Z.leb_le in E. constructor; [by constructor|].
      constructor; [done|]. eapply Forall_impl; [exact Hy|].
      unfold version_le. intros; simpl in *; lia.
    + apply Z.leb_gt in E. constructor; [done|].
      apply Forall_forall. intros x Hx. apply sort_insert_elem in Hx as [->|Hx].
      * unfold version_le; lia.
      * rewrite Forall_forall in Hy. by apply Hy.
Qed.

Lemma sort_sorted l : StronglySorted version_le (sort l).
Proof.
  induction l; simpl; [constructor|]. by apply sort_insert_sorted.
Qed.

Lemma window_guard c t s :
  (c <? version s) && (version s <=? t) = bool_decide (in_window c t s).
Proof.
  unfold in_window. destruct (c <? version s) eqn:E1, (version s <=? t) eqn:E2; simpl;
    symmetry; [apply bool_decide_eq_true_2|apply bool_decide_eq_false_2..]; lia.
Qed.

Lemma migration_step_ok schema st name :
  _handle st = Some name →
  ∃ st', migration_step schema st = (st', Ok tt) ∧
         _handle st' = Some name ∧ _isOpening st' = _isOpening st ∧
         Sqlite.user_version (connected st') = version schema.
Proof.
  intros Hh. unfold migration_step.
  destruct (applySchemaChanges_ok schema st name Hh) as (st1 & Hrun & Hh1 & Ho1 & _).
  rewrite (bind_ok _ _ _ _ _ Hrun).
  exists (set_database name (Sqlite.set_user_version (version schema) (connected st1)) st1).
  split; [by apply executeRaw_open|].
  by rewrite (connected_set_database _ _ _ Hh1).
Qed.

(** The loop applies exactly the entries in the window, in sorted order. *)
Lemma performMigrations_window c t structure st :
  _performMigrations c t structure st
  = for_of (filter (in_window c t) (sort structure)) migration_step st.
Proof.
  unfold _performMigrations. generalize (sort structure) as l. intros l. revert st.
  induction l as [|s l IH]; intros st; [done|].
  rewrite filter_cons. simpl for_of at 1. rewrite window_guard.
  destruct (decide (in_window c t s)) as [Hw|Hw].
  - rewrite bool_decide_eq_true_2 by done. simpl. unfold mbind at 1, M_bind at 1.
    fold (migration_step s). unfold mbind at 2, M_bind at 2.
    destruct (migration_step s st) as [st' [[]|e]]; [apply IH|done].
  - rewrite bool_decide_eq_false_2 by done. unfold mbind, M_bind. simpl. apply IH.
Qed.

Lemma migration_loop c t l st name :
  StronglySorted version_le l → _handle st = Some name →
  ∃ st', for_of (filter (in_window c t) l) migration_step st = (st', Ok tt) ∧
         _handle st' = Some name ∧ _isOpening st' = _isOpening st ∧
         (((∀ s, s ∈ l → ¬ in_window c t s) ∧ st' = st) ∨
          (∃ s, s ∈ l ∧ in_window c t s ∧
                Sqlite.user_version (connected st') = version s ∧
                ∀ s', s' ∈ l → in_window c t s' → version s' ≤ version s)).
Proof.
  intros Hsorted. revert st. induction Hsorted as [|s l Hl IH Hs]; intros st Hh.
  - exists st. split; [reflexivity|]. split; [done|]. split; [done|]. left.
    split; [|done]. intros s Hs. by apply elem_of_nil in Hs.
  - rewrite filter_cons. destruct (decide (in_window c t s)) as [Hw|Hw].
    + destruct (migration_step_ok s st name Hh) as (st1 & Hrun & Hh1 & Ho1 & Hu1).
      rewrite (for_of_cons_ok _ _ _ _ _ Hrun).
      destruct (IH st1 Hh1) as (st2 & Hrest & Hh2 & Ho2 & Hcase).
      exists st2. repeat split; try congruence. right.
      destruct Hcase as [[Hnone ->]|(s2 & Hin & Hw2 & Hu2 & Hmax)].
      * exists s. split_and!; [left|done|done|].
        intros s' Hs' Hw'. apply elem_of_cons in Hs' as [->|Hs']; [lia|].
        by destruct (Hnone s' Hs').
      * exists s2. split_and!; [by right|done|done|].
        intros s' Hs' Hw'. apply elem_of_cons in Hs' as [->|Hs']; [|by apply Hmax].
        rewrite Forall_forall in Hs. by apply Hs.
    + destruct (IH st Hh) as (st2 & Hrest & Hh2 & Ho2 & Hcase).
      exists st2. repeat split; try done.
      destruct Hcase as [[Hnone ->]|(s2 & Hin & Hw2 & Hu2 & Hmax)].
      * left. split; [|done]. intros s' Hs'.
        apply elem_of_cons in Hs' as [->|Hs']; [done|by apply Hnone].
      * right. exists s2. split_and!; [by right|done|done|].
        intros s' Hs' Hw'. apply elem_of_cons in Hs' as [->|Hs']; [done|by apply Hmax].
Qed.

Lemma open_unfold name v structure st :
  _handle st = None → _isOpening st = false →
  open name v structure st =
    let st0 := State (Some name) true (disk st) in
    let '(st', r) :=
      (if Sqlite.user_version (database st name) <? v
       then _performMigrations (Sqlite.user_version (database st name)) v structure
       else mret tt) st0 in
    (set_isOpening false st', r).
Proof.
  intros Hh Ho. unfold open, isOpen. rewrite Hh, Ho.
  rewrite bool_decide_eq_false_2 by (intros [? ?]; done).
  unfold set_handle, set_isOpening; simpl.
  unfold mbind at 1, M_bind at 1, read. simpl. reflexivity.
Qed.

(** Opening a closed store succeeds; afterwards no entry of the structure
    lies between the stored version and the target. *)
Lemma open_ok name v structure st :
  _handle st = None → _isOpening st = false →
  ∃ st1, open name v structure st = (st1, Ok tt) ∧
         _handle st1 = Some name ∧ _isOpening st1 = false ∧
         ∀ s, s ∈ structure →
              ¬ in_window (Sqlite.user_version (connected st1)) v s.
Proof.
  intros Hh Ho. rewrite (open_unfold _ _ _ _ Hh Ho). simpl.
  set (st0 := State (Some name) true (disk st)).
  set (u0 := Sqlite.user_version (database st name)).
  assert (Hc0 : connected st0 = database st name) by done.
  destruct (u0 <? v) eqn:E.
  - rewrite performMigrations_window.
    destruct (migration_loop u0 v (sort structure) st0 name (sort_sorted _) eq_refl)
      as (st' & Hrun & Hh' & Ho' & Hcase).
    rewrite Hrun. exists (set_isOpening false st'). repeat split; try done.
    assert (Hconn : connected (set_isOpening false st') = connected st') by done.
    rewrite Hconn. intros s Hs Hw.
    destruct Hcase as [[Hnone ->]|(s2 & Hin & Hw2 & Hu2 & Hmax)].
    + rewrite Hc0 in Hw. apply (Hnone s); [by apply sort_elem|done].
    + rewrite Hu2 in Hw. unfold in_window in *.
      assert (version s ≤ version s2); [|lia].
      apply Hmax; [by apply sort_elem|]. fold u0 in Hw2. lia.
  - exists (set_isOpening false st0). repeat split; try done.
    apply Z.ltb_ge in E. intros s _ Hw. unfold in_window in Hw.
    change (connected (set_isOpening false st0)) with (database st name) in Hw.
    fold u0 in Hw. lia.
Qed.

End open_twice.



(* ================================================================== *)
(** * Point and batched lookups                                         *)
(* ================================================================== *)

Section lookups.
Implicit Types (st : Database.t) (d : Sqlite.db).

Lemma get_table_rows d tn :
  has_table d tn →
  Sqlite.get_table d tn
  = Ok (Sqlite.Table (default false (Sqlite.autoincrement <$> Sqlite.tables d !! tn))
                     (Sqlite.rows_of d tn)).
Proof.
  intros [[a rs] Ht]. unfold Sqlite.get_table, Sqlite.rows_of. by rewrite Ht.
Qed.

Lemma select_eq_rows d tn field q :
  has_table d tn →
  Sqlite.select_eq tn field q d
  = Ok (filter (λ r, Sqlite.matches field q r = true) (Sqlite.rows_of d tn)).
Proof. intros H. unfold Sqlite.select_eq. by rewrite (get_table_rows _ _ H). Qed.


Lemma select_all_rows d tn :
  has_table d tn → Sqlite.select_all tn d = Ok (Sqlite.rows_of d tn).
Proof. intros H. unfold Sqlite.select_all. by rewrite (get_table_rows _ _ H). Qed.









End lookups.



(** C2. The code at two tags of the same name in different dictionaries:
    both stored rows have the key [n], the first one is the tag of dictionary
    [A] and passes the predicate of the item, and yet the slot of the item is
    [undefined], because the [Map] built from the rows keeps the last row of
    a key and the predicate is only asked about that one. *)
Theorem findTagMetaBulk_keeps_last_row :
  let it := {| dq_query := JStr (js "n"); dq_dictionary := js "A" |} in
  Sqlite.rows_of (connected Sample.store) "tagMeta" = [Sample.tag_n_A; Sample.tag_n_B] ∧
  Sqlite.matches "name" (dq_query it) Sample.tag_n_A = true ∧
  strict_eq (prop (parse_row Sample.tag_n_A) "dictionary") (JStr (dq_dictionary it)) = true ∧
  findTagMetaBulk [it] Sample.store = Ok [None].
Proof. vm_compute. done. Qed.

(* ================================================================== *)
(** * [findMultiBulk]                                                   *)
(* ================================================================== *)

Section findMultiBulk_facts.
Context {TItem TResult C : Type}.
Variables (tableName : string) (indexColumns : list string) (items : list TItem).
Variable createQuery : TItem → jsval.
Variable predicate : doc → TItem → C → bool * C.
Variable createResult : doc → FindMultiBulkData TItem → result TResult.
Variable st : Database.t.

Abbreviation conts :=
  (continuations tableName indexColumns items createQuery predicate createResult st).
Abbreviation seen := (observed tableName indexColumns items createQuery (connected st)).
Abbreviation fed := (feed predicate createResult).

Lemma observed_cons i j order :
  seen ((i, j) :: order)
  = pair_matches tableName indexColumns items createQuery (connected st) i j ++ seen order.
Proof. done. Qed.

Lemma for_rows_feed rows data c :
  for_rows predicate createResult rows data c
  = fed ((λ row, (parse_row row, data)) <$> rows) c.
Proof.
  revert c. induction rows as [|row rows IH]; intros c; simpl; [done|].
  destruct (predicate _ _ c) as [[] c']; [|apply IH].
  destruct (createResult _ _); [|done]. by rewrite IH.
Qed.

Lemma feed_app obs1 obs2 c :
  fed (obs1 ++ obs2) c
  = match fed obs1 c with
    | (c', Ok rs) => let '(c'', rest) := fed obs2 c' in (c'', (λ rs', rs ++ rs') <$> rest)
    | (c', Throw e) => (c', Throw e)
    end.
Proof.
  revert c. induction obs1 as [|[row data] obs1 IH]; intros c; simpl.
  - destruct (fed obs2 c) as [c' [rs|e]]; done.
  - destruct (predicate _ _ c) as [[] c']; [|apply IH].
    destruct (createResult _ _) as [r|e]; [|done].
    rewrite IH. destruct (fed obs1 c') as [c1 [rs|e]]; simpl; [|done].
    destruct (fed obs2 c1) as [c2 [rs2|e]]; done.
Qed.

(** On an open store that has the table, the continuations see the rows
    of [observed], one after the other. *)
Lemma continuations_feed name order c :
  _handle st = Some name → has_table (connected st) tableName →
  conts order c = fed (seen order) c.
Proof.
  intros Hh Ht. revert c. induction order as [|[i j] order IH]; intros c; [done|].
  rewrite observed_cons. simpl. unfold pair_matches.
  destruct (items !! i) as [it|]; [|apply IH].
  destruct (indexColumns !! j) as [indexName|]; [|apply IH].
  rewrite (execute_open _ _ _ Hh), (select_eq_rows _ _ _ _ Ht).
  rewrite for_rows_feed, feed_app.
  destruct (fed _ c) as [c' [rs|e]]; [|done]. by rewrite IH.
Qed.

Lemma findMultiBulk_in_feed name order c :
  _handle st = Some name → has_table (connected st) tableName →
  findMultiBulk_in tableName indexColumns items createQuery predicate createResult st order c
  = fed (seen order) c.
Proof.
  intros Hh Ht. unfold findMultiBulk_in.
  destruct (bool_decide (length items = 0%nat) || bool_decide (length indexColumns = 0%nat))
    eqn:E; [|by eapply continuations_feed].
  replace (seen order) with (@nil (doc * FindMultiBulkData TItem)); [done|].
  symmetry. induction order as [|[i j] order IH]; [done|].
  rewrite observed_cons, IH, app_nil_r. unfold pair_matches.
  apply orb_true_iff in E as [E|E]; apply bool_decide_eq_true in E;
    apply nil_length_inv in E.
  - rewrite E. by rewrite lookup_nil.
  - rewrite E. rewrite lookup_nil. by destruct (items !! i).
Qed.

(** A row that is seen is a stored row the key of its pair matches. *)
Lemma elem_of_observed order h :
  h ∈ seen order →
  ∃ i j it indexName row,
    (i, j) ∈ order ∧ items !! i = Some it ∧ indexColumns !! j = Some indexName ∧
    row ∈ Sqlite.rows_of (connected st) tableName ∧
    Sqlite.matches indexName (createQuery it) row = true ∧
    h = (parse_row row, {| item := it; itemIndex := i; indexIndex := j |}).
Proof.
  unfold observed. intros Hin. apply list_elem_of_bind in Hin as ([i j] & Hh & Hp).
  simpl in Hh. unfold pair_matches in Hh.
  destruct (items !! i) as [it|] eqn:Ei; [|by apply elem_of_nil in Hh].
  destruct (indexColumns !! j) as [indexName|] eqn:Ej; [|by apply elem_of_nil in Hh].
  apply list_elem_of_fmap in Hh as (row & -> & Hrow).
  apply list_elem_of_filter in Hrow as [Hm Hrow]. eauto 12.
Qed.

Lemma observed_elem_of order i j it indexName row :
  (i, j) ∈ order → items !! i = Some it → indexColumns !! j = Some indexName →
  row ∈ Sqlite.rows_of (connected st) tableName →
  Sqlite.matches indexName (createQuery it) row = true →
  (parse_row row, {| item := it; itemIndex := i; indexIndex := j |}) ∈ seen order.
Proof.
  intros Hp Hi Hj Hrow Hm. unfold observed. apply list_elem_of_bind.
  exists (i, j). split; [|done]. simpl. unfold pair_matches. rewrite Hi, Hj.
  apply list_elem_of_fmap. exists row. split; [done|].
  by apply list_elem_of_filter.
Qed.
End findMultiBulk_facts.

Section feed_facts.
Context {TItem TResult : Type}.
Implicit Types obs : list (doc * FindMultiBulkData TItem).

(** With a predicate that keeps no state the continuations create the
    results of the rows the predicate accepts, up to the first
    exception. *)
Lemma feed_pure (p : doc → TItem → bool)
      (createResult : doc → FindMultiBulkData TItem → result TResult) obs :
  feed (pure_predicate p) createResult obs tt
  = (tt, traverse (λ h, createResult h.1 h.2)
                  (filter (λ h, p h.1 (item h.2) = true) obs)).
Proof.
  induction obs as [|[row data] obs IH]; [done|].
  rewrite filter_cons. cbn [feed].
  change (pure_predicate p row (item data) tt) with (p row (item data), tt).
  cbn [fst snd]. destruct (p row (item data)) eqn:E.
  - rewrite decide_True by done. cbn [traverse fst snd].
    destruct (createResult row data); [|done]. by rewrite IH.
  - rewrite decide_False by (by intros ?). apply IH.
Qed.

Lemma traverse_total {A B} (g : A → B) (l : list A) :
  traverse (λ x, Ok (g x)) l = Ok (g <$> l).
Proof. induction l as [|x l IH]; simpl; [done|]. by rewrite IH. Qed.

Lemma traverse_Throw {A B} (f : A → result B) (l : list A) x e0 :
  x ∈ l → f x = Throw e0 → ∃ y e, y ∈ l ∧ f y = Throw e ∧ traverse f l = Throw e.
Proof.
  induction l as [|z l IH]; intros Hx Hfx; [by apply elem_of_nil in Hx|].
  simpl. destruct (f z) as [b|e] eqn:E.
  - apply elem_of_cons in Hx as [->|Hx]; [congruence|].
    destruct (IH Hx Hfx) as (y & e & Hy & Hfy & Ht).
    exists y, e. rewrite Ht. split_and!; [by right|done|done].
  - exists z, e. split_and!; [left|done|done].
Qed.
End feed_facts.

(* ================================================================== *)
(** * Meta lookups                                                      *)
(* ================================================================== *)

Section meta.
Lemma prop_parse_row r field :
  field ≠ "id" → prop (parse_row r) field = prop (Sqlite.data r) field.
Proof. intros H. unfold prop, parse_row. by rewrite lookup_insert_ne. Qed.

Lemma issue_order_elem n m i j :
  (i < n)%nat → (j < m)%nat → (i, j) ∈ issue_order n m.
Proof.
  intros Hi Hj. unfold issue_order. apply list_elem_of_bind. exists i. split.
  - apply list_elem_of_bind. exists j. split; [left|]. apply elem_of_seq. lia.
  - apply elem_of_seq. lia.
Qed.

Lemma strict_eq_str_false v s : v ≠ JStr s → strict_eq v (JStr s) = false.
Proof.
  intros H. unfold strict_eq. destruct v; try done; by apply bool_decide_eq_false_2.
Qed.

Lemma strict_eq_str_true v s : strict_eq v (JStr s) = true → v = JStr s.
Proof.
  unfold strict_eq. destruct v; try done; by intros ?%bool_decide_eq_true.
Qed.

Lemma createTermMeta_unknown row data :
  ¬ known_mode (prop row "mode") →
  _createTermMeta row data = Throw (UnknownMode (prop row "mode")).
Proof.
  unfold known_mode, _createTermMeta. intros H.
  rewrite !strict_eq_str_false; [done|..]; intros E; apply H; rewrite E; tauto.
Qed.

Lemma createTermMeta_Throw row data e :
  _createTermMeta row data = Throw e →
  e = UnknownMode (prop row "mode") ∧ ¬ known_mode (prop row "mode").
Proof.
  unfold _createTermMeta.
  destruct (strict_eq _ (JStr (js "freq"))) eqn:E1; [done|].
  destruct (strict_eq _ (JStr (js "pitch"))) eqn:E2; [done|].
  destruct (strict_eq _ (JStr (js "ipa"))) eqn:E3; [done|].
  intros [= <-]. split; [done|]. unfold known_mode.
  intros [H|[H|H]]; rewrite H in *; done.
Qed.
End meta.

(** C7. A row that [findTermMetaBulk] gets to process (its expression is one
    of the terms, its dictionary is enabled) and whose mode is none of
    [freq], [pitch], [ipa] makes the lookup throw.  [findKanjiMetaBulk] does
    not look at the mode: it does not throw, and every row it processes comes
    back with the mode it was stored with. *)
Theorem term_meta_mode_is_checked_kanji_meta_mode_is_not
    (termList kanjiList : list jstring) (dictionaries : gset jstring)
    (st : Database.t) (name : string) :
  _handle st = Some name →
  has_table (connected st) "termMeta" → has_table (connected st) "kanjiMeta" →
  (∀ i it row,
     termList !! i = Some it →
     row ∈ Sqlite.rows_of (connected st) "termMeta" →
     Sqlite.matches "expression" (JStr it) row = true →
     has dictionaries (prop (Sqlite.data row) "dictionary") = true →
     ¬ known_mode (prop (Sqlite.data row) "mode") →
     ∃ mode, findTermMetaBulk termList dictionaries st = Throw (UnknownMode mode) ∧
             ¬ known_mode mode) ∧
  (∃ entries,
     findKanjiMetaBulk kanjiList dictionaries st = Ok entries ∧
     ∀ i it row,
       kanjiList !! i = Some it →
       row ∈ Sqlite.rows_of (connected st) "kanjiMeta" →
       Sqlite.matches "character" (JStr it) row = true →
       has dictionaries (prop (Sqlite.data row) "dictionary") = true →
       ∃ e, e ∈ entries ∧ km_index e = i ∧ km_mode e = prop (Sqlite.data row) "mode").
Proof.
  intros Hh Ht Hk. split.
  - intros i it row Hi Hrow Hm Hd Hmode.
    unfold findTermMetaBulk, findMultiBulk.
    rewrite (findMultiBulk_in_feed _ _ _ _ _ _ _ name) by done.
    rewrite feed_pure. simpl.
    set (obs := filter _ _).
    assert (Hin : (parse_row row, {| item := it; itemIndex := i; indexIndex := 0 |}) ∈ obs).
    { apply list_elem_of_filter. split.
      - simpl. by rewrite prop_parse_row.
      - apply observed_elem_of with (indexName := "expression"); try done.
        apply issue_order_elem; [by eapply lookup_lt_Some|simpl; lia]. }
    destruct (traverse_Throw (λ h, _createTermMeta h.1 h.2) obs _
                (UnknownMode (prop (parse_row row) "mode")) Hin)
      as (y & e & Hy & Hfy & Htr).
    { simpl. apply createTermMeta_unknown. by rewrite prop_parse_row. }
    apply createTermMeta_Throw in Hfy as [-> Hunk].
    rewrite Htr. eauto.
  - unfold findKanjiMetaBulk, findMultiBulk.
    rewrite (findMultiBulk_in_feed _ _ _ _ _ _ _ name) by done.
    rewrite feed_pure. simpl.
    rewrite (traverse_total (λ h, _createKanjiMeta h.1 h.2)).
    eexists. split; [reflexivity|].
    intros i it row Hi Hrow Hm Hd.
    exists (_createKanjiMeta (parse_row row) {| item := it; itemIndex := i; indexIndex := 0 |}).
    split; [|split; [done|]].
    + apply list_elem_of_fmap.
      exists (parse_row row, {| item := it; itemIndex := i; indexIndex := 0 |}).
      split; [reflexivity|].
      apply list_elem_of_filter. split.
      * simpl. by rewrite prop_parse_row.
      * apply observed_elem_of with (indexName := "character"); try done.
        apply issue_order_elem; [by eapply lookup_lt_Some|simpl; lia].
    + simpl. by rewrite prop_parse_row.
Qed.

Lemma term_meta_mode_is_checked_kanji_meta_mode_is_not_witness :
  _handle Sample.store = Some _dbName ∧
  has_table (connected Sample.store) "termMeta" ∧
  has_table (connected Sample.store) "kanjiMeta" ∧
  ∃ mode, findTermMetaBulk [Sample.cat] {[ js "d" ]} Sample.store = Throw (UnknownMode mode) ∧
          ¬ known_mode mode.
Proof.
  split; [exact sample_handle|]. split; [exact sample_termMeta|].
  split; [exact sample_kanjiMeta|].
  refine (proj1 (term_meta_mode_is_checked_kanji_meta_mode_is_not
                   [Sample.cat] [] {[ js "d" ]} Sample.store _dbName
                   sample_handle sample_termMeta sample_kanjiMeta)
                0%nat Sample.cat (Sample.meta "expression" "bogus") eq_refl _ _ _ _).
  - rewrite sample_termMeta_rows. left.
  - vm_compute. reflexivity.
  - vm_compute. reflexivity.
  - exact sample_bogus_mode.
Defined.

(** C7, the claim as it stands fails for kanji meta rows: a row of mode
    [bogus] comes back from [findKanjiMetaBulk] as an entry of mode
    [bogus]. *)
Lemma kanji_meta_unknown_mode_is_returned :
  ∃ e, findKanjiMetaBulk [Sample.cat] {[ js "d" ]} Sample.store = Ok [e] ∧
       km_mode e = JStr (js "bogus") ∧ ¬ known_mode (km_mode e).
Proof.
  eexists. split; [vm_compute; reflexivity|]. split; [reflexivity|].
  exact sample_bogus_mode.
Qed.

(* ================================================================== *)
(** * Term lookups                                                      *)
(* ================================================================== *)

Section dedup.
Variable dictionaries : gset jstring.
Variable f : doc → FindMultiBulkData jstring → TermEntry.
Hypothesis f_id : ∀ row data, te_id (f row data) = prop row "id".

Abbreviation enabled :=
  (λ h : doc * FindMultiBulkData jstring, has dictionaries (prop h.1 "dictionary") = true).

(** The [visited] set lets through the first row of every id, and only
    that one. *)
Lemma feed_visited obs visited :
  ∃ visited' entries,
    feed (findTermsBulk_predicate dictionaries) (λ row data, Ok (f row data)) obs visited
    = (visited', Ok entries) ∧
    NoDup (te_id <$> entries) ∧
    (∀ e, e ∈ entries → te_id e ∉ visited) ∧
    (∀ h, h ∈ obs → enabled h →
          prop h.1 "id" ∈ visited ∨ prop h.1 "id" ∈ te_id <$> entries) ∧
    (∀ e, e ∈ entries →
          ∃ before h after,
            filter enabled obs = before ++ h :: after ∧
            (∀ h', h' ∈ before → prop h'.1 "id" ≠ prop h.1 "id") ∧
            e = f h.1 h.2).
Proof.
  revert visited. induction obs as [|[row data] obs IH]; intros visited.
  { exists visited, []. split_and!; try done.
    - constructor.
    - intros e He. by apply elem_of_nil in He.
    - intros h Hh. by apply elem_of_nil in Hh.
    - intros e He. by apply elem_of_nil in He. }
  cbn [feed]. unfold findTermsBulk_predicate at 1. rewrite filter_cons. cbn [fst].
  destruct (has dictionaries (prop row "dictionary")) eqn:Edict; cbn [negb].
  2:{ destruct (IH visited) as (v' & es & Hrun & Hnd & Hfresh & Hall & Hfirst).
      exists v', es. rewrite decide_False by (by intros ?).
      split_and!; try done.
      intros h Hh Hen. apply elem_of_cons in Hh as [->|Hh]; [|by apply Hall].
      simpl in Hen. congruence. }
  rewrite decide_True by done.
  case_bool_decide as Hvis.
  - destruct (IH visited) as (v' & es & Hrun & Hnd & Hfresh & Hall & Hfirst).
    exists v', es. split_and!; try done.
    + intros h Hh Hen. apply elem_of_cons in Hh as [->|Hh]; [by left|by apply Hall].
    + intros e He. destruct (Hfirst e He) as (before & h & after & Hsplit & Hbefore & ->).
      exists ((row, data) :: before), h, after. split_and!; [by rewrite Hsplit| |done].
      intros h' Hh'. apply elem_of_cons in Hh' as [->|Hh']; [|by apply Hbefore].
      simpl. intros Heq. apply (Hfresh _ He). rewrite f_id, <- Heq. exact Hvis.
  - destruct (IH (prop row "id" :: visited))
      as (v' & es & Hrun & Hnd & Hfresh & Hall & Hfirst).
    rewrite Hrun. exists v', (f row data :: es). split_and!; [done| | | |].
    + rewrite fmap_cons. constructor; [|done].
      intros Hin. apply list_elem_of_fmap in Hin as (e & Heq & He).
      apply (Hfresh e He). rewrite <- Heq, f_id. left.
    + intros e He. apply elem_of_cons in He as [->|He]; [by rewrite f_id|].
      intros Hin. apply (Hfresh e He). by right.
    + intros h Hh Hen. rewrite fmap_cons, f_id.
      apply elem_of_cons in Hh as [->|Hh]; [right; left|].
      destruct (Hall h Hh Hen) as [Hv|He]; [|right; by right].
      apply elem_of_cons in Hv as [->|Hv]; [right; left|by left].
    + intros e He. apply elem_of_cons in He as [->|He].
      * exists [], (row, data), (filter enabled obs). split_and!; [done| |done].
        intros h' Hh'. by apply elem_of_nil in Hh'.
      * destruct (Hfirst e He) as (before & h & after & Hsplit & Hbefore & ->).
        exists ((row, data) :: before), h, after. split_and!; [by rewrite Hsplit| |done].
        intros h' Hh'. apply elem_of_cons in Hh' as [->|Hh']; [|by apply Hbefore].
        simpl. intros Heq. apply (Hfresh _ He). rewrite f_id, <- Heq. left.
Qed.
End dedup.

(** C4. On an open store, and for every order in which the sub-queries of
    [findMultiBulk] may complete, [findTermsBulk] returns a list in which no
    row id occurs twice; every row that some sub-query returns and whose
    dictionary is enabled has its id in the list; and the entry of a row is
    the one made at the first place the row was seen, from the item and the
    index of that sub-query. *)
Theorem findTermsBulk_emits_each_row_once
    (order : list (nat * nat)) (termList : list jstring) (dictionaries : gset jstring)
    (matchType : MatchType) (st : Database.t) (name : string) :
  _handle st = Some name → has_table (connected st) "terms" →
  let seen :=
    filter (λ h, has dictionaries (prop h.1 "dictionary") = true)
           (observed "terms" (findTermsBulk_indexNames matchType) termList
                     (findTermsBulk_createQuery matchType) (connected st) order) in
  ∃ entries,
    findTermsBulk_in order termList dictionaries matchType st = Ok entries ∧
    NoDup (te_id <$> entries) ∧
    (∀ h, h ∈ seen → prop h.1 "id" ∈ te_id <$> entries) ∧
    (∀ e, e ∈ entries →
          ∃ before h after,
            seen = before ++ h :: after ∧
            (∀ h', h' ∈ before → prop h'.1 "id" ≠ prop h.1 "id") ∧
            e = _createTermGeneric matchType h.1 h.2).
Proof.
  intros Hh Ht seen. unfold findTermsBulk_in.
  rewrite (findMultiBulk_in_feed _ _ _ _ _ _ _ name) by done.
  destruct (feed_visited dictionaries (_createTermGeneric matchType) (λ _ _, eq_refl)
              (observed "terms" (findTermsBulk_indexNames matchType) termList
                        (findTermsBulk_createQuery matchType) (connected st) order) [])
    as (v' & es & Hrun & Hnd & Hfresh & Hall & Hfirst).
  rewrite Hrun. exists es. split_and!; try done.
  intros h Hin. apply list_elem_of_filter in Hin as [Hen Hin].
  destruct (Hall h Hin Hen) as [Hv|He]; [by apply elem_of_nil in Hv|done].
Qed.

Lemma findTermsBulk_emits_each_row_once_witness :
  _handle Sample.store = Some _dbName ∧ has_table (connected Sample.store) "terms" ∧
  ∃ entries,
    findTermsBulk_in [(1, 1); (0, 1); (1, 0); (0, 0)]%nat [Sample.kononeko; Sample.cat]
                     {[ js "d" ]} Exact Sample.store = Ok entries ∧
    NoDup (te_id <$> entries).
Proof.
  split; [exact sample_handle|]. split; [exact sample_terms|].
  destruct (findTermsBulk_emits_each_row_once
              [(1, 1); (0, 1); (1, 0); (0, 0)]%nat [Sample.kononeko; Sample.cat]
              {[ js "d" ]} Exact Sample.store _dbName sample_handle sample_terms)
    as (entries & Hrun & Hnd & _).
  exists entries. split; [exact Hrun|exact Hnd].
Defined.

(** C1. The code at the example of the claim.  The stored term has the
    reading このねこ, which ends in ねこ, its dictionary is enabled and its
    [readingReverse] holds the reversed reading; the suffix lookup of ねこ
    returns nothing.  The query built for the term is the reversed term
    followed by [%], and the statement compares it to the reversed fields
    with [=], which holds for no stored value but that very text. *)
Theorem findTermsBulk_suffix_misses_the_row :
  Sample.term_cat ∈ Sqlite.rows_of (connected Sample.store) "terms" ∧
  prop (Sqlite.data Sample.term_cat) "reading" = JStr Sample.kononeko ∧
  Sample.neko `suffix_of` Sample.kononeko ∧
  prop (Sqlite.data Sample.term_cat) "readingReverse"
    = JStr (stringReverse Sample.kononeko) ∧
  has {[ js "d" ]} (prop (Sqlite.data Sample.term_cat) "dictionary") = true ∧
  findTermsBulk_createQuery Suffix Sample.neko
    = JStr (stringReverse Sample.neko ++ [percent]) ∧
  findTermsBulk [Sample.neko] {[ js "d" ]} Suffix Sample.store = Ok [].
Proof.
  split_and!; try (vm_compute; reflexivity).
  - vm_compute. left.
  - by exists [0x3053; 0x306E]%N.
Qed.

(* ================================================================== *)
(** * The fields of a term entry                                        *)
(* ================================================================== *)

Section split_facts.






End split_facts.

Section results.
Context {TItem TResult C : Type}.
Variables (tableName : string) (indexColumns : list string) (items : list TItem).
Variable createQuery : TItem → jsval.
Variable predicate : doc → TItem → C → bool * C.
Variable f : doc → FindMultiBulkData TItem → TResult.
Variable st : Database.t.



End results.




(* ================================================================== *)
(** * Bulk deletion                                                     *)
(* ================================================================== *)

Section bulkDelete_facts.
Implicit Types (st : Database.t) (d : Sqlite.db).

Lemma count_eq_rows d tn field q :
  has_table d tn →
  Sqlite.count_eq tn field q d
  = Ok (Z.of_nat (length (filter (λ r, Sqlite.matches field q r = true)
                                 (Sqlite.rows_of d tn)))).
Proof. intros H. unfold Sqlite.count_eq. by rewrite (select_eq_rows _ _ _ _ H). Qed.

Lemma delete_eq_rows d tn field q :
  has_table d tn →
  Sqlite.delete_eq tn field q d
  = Ok (Sqlite.set_rows tn (filter (λ r, Sqlite.matches field q r ≠ true)
                                   (Sqlite.rows_of d tn)) d).
Proof. intros H. unfold Sqlite.delete_eq. by rewrite (get_table_rows _ _ H). Qed.

Lemma delete_in_rows d tn keys :
  has_table d tn →
  Sqlite.delete_in tn keys d
  = Ok (Sqlite.set_rows tn (filter (λ r, Sqlite.id r ∉ keys) (Sqlite.rows_of d tn)) d).
Proof. intros H. unfold Sqlite.delete_in. by rewrite (get_table_rows _ _ H). Qed.

Lemma bulkDelete_call_open {C} tn field q st name :
  _handle st = Some name → has_table (connected st) tn → field ≠ EmptyString →
  bulkDelete_call (C := C) tn (Some field) q st
  = Pending (AwaitCount tn field q
               (Z.of_nat (length (filter (λ r, Sqlite.matches field q r = true)
                                         (Sqlite.rows_of (connected st) tn))))).
Proof.
  intros Hh Ht Hf. unfold bulkDelete_call. rewrite Hh.
  rewrite bool_decide_eq_false_2 by done.
  by rewrite (execute_open _ _ _ Hh), (count_eq_rows _ _ _ _ Ht).
Qed.

Lemma select_ids_open tn field q st name :
  _handle st = Some name → has_table (connected st) tn →
  select_ids tn field q st
  = Ok (Sqlite.id <$> filter (λ r, Sqlite.matches field q r = true)
                             (Sqlite.rows_of (connected st) tn)).
Proof.
  intros Hh Ht. unfold select_ids.
  by rewrite (execute_open _ _ _ Hh), (select_eq_rows _ _ _ _ Ht).
Qed.
End bulkDelete_facts.

(** C5. On an open store, with a non-empty index field and an [onProgress]
    callback, a call of [bulkDelete] succeeds and calls [onProgress] exactly
    once.  The total it reports is the number of rows whose index field
    equals the key; the completed count is that total when there is no
    [filterKeys], and the number of keys [filterKeys] hands back when there
    is one.  When no row matches, the one call is [onProgress(0, 0)],
    [filterKeys] is not called and the store is left as it was. *)
Theorem bulkDelete_reports_progress_once
    {C : Type} (filterKeys : option (list Z → C → list Z * C))
    (onProgress : Z → Z → C → C)
    (tableName indexName : string) (query : jsval)
    (st : Database.t) (c : C) (name : string) :
  _handle st = Some name → has_table (connected st) tableName → indexName ≠ EmptyString →
  let matching :=
    filter (λ r, Sqlite.matches indexName query r = true)
           (Sqlite.rows_of (connected st) tableName) in
  let totalCount := Z.of_nat (length matching) in
  ∃ st' completedCount c0,
    bulkDelete filterKeys (Some onProgress) tableName (Some indexName) query st c
    = (st', onProgress completedCount totalCount c0, Settled (Ok tt)) ∧
    (totalCount = 0 → completedCount = 0 ∧ c0 = c ∧ st' = st) ∧
    (totalCount ≠ 0 →
       match filterKeys with
       | None => completedCount = totalCount ∧ c0 = c
       | Some f =>
           completedCount = Z.of_nat (length (f (Sqlite.id <$> matching) c).1) ∧
           c0 = (f (Sqlite.id <$> matching) c).2
       end).
Proof.
  intros Hh Ht Hi matching totalCount. unfold bulkDelete.
  rewrite (bulkDelete_call_open _ _ _ _ name) by done.
  fold matching. fold totalCount. cbn [settle max_awaits bulkDelete_resume].
  destruct (totalCount =? 0) eqn:E0.
  { apply Z.eqb_eq in E0. exists st, 0, c. cbn [progress]. rewrite E0.
    split; [done|]. split; [done|]. lia. }
  apply Z.eqb_neq in E0.
  destruct filterKeys as [f|].
  - rewrite (select_ids_open _ _ _ _ name) by done. fold matching.
    cbn [settle bulkDelete_resume].
    destruct (f (Sqlite.id <$> matching) c) as [filteredKeys c1] eqn:Ef.
    case_bool_decide as Hlen.
    + exists st, 0, c1. split; [done|]. split; [done|]. intros _. simpl.
      by rewrite Hlen.
    + rewrite (executeRaw_open _ _ name _ Hh (delete_in_rows _ _ _ Ht)).
      cbn [settle bulkDelete_resume].
      set (st1 := set_database name _ st).
      assert (Hh1 : _handle st1 = Some name) by done.
      rewrite (executeRaw_open (λ d, Ok d) st1 name (connected st1) Hh1 eq_refl).
      cbn [settle bulkDelete_resume progress].
      eexists _, _, c1. split; [reflexivity|]. split; [done|]. done.
  - rewrite (executeRaw_open _ _ name _ Hh (delete_eq_rows _ _ _ _ Ht)).
    cbn [settle bulkDelete_resume progress].
    eexists _, _, c. split; [reflexivity|]. split; [done|]. done.
Qed.

Lemma bulkDelete_reports_progress_once_witness :
  _handle Sample.store = Some _dbName ∧ has_table (connected Sample.store) "terms" ∧
  "dictionary" ≠ EmptyString ∧
  ∃ st' log,
    bulkDelete None (Some (λ completed total log, log ++ [(completed, total)]))
               "terms" (Some "dictionary") (JStr (js "d")) Sample.store []
    = (st', log, Settled (Ok tt)).
Proof.
  assert (Hne : "dictionary" ≠ EmptyString) by discriminate.
  split; [exact sample_handle|]. split; [exact sample_terms|]. split; [exact Hne|].
  destruct (bulkDelete_reports_progress_once None
              (λ completed total (log : list (Z * Z)), log ++ [(completed, total)])
              "terms" "dictionary" (JStr (js "d")) Sample.store [] _dbName
              sample_handle sample_terms Hne)
    as (st' & completedCount & c0 & Hrun & _).
  eexists st', _. exact Hrun.
Defined.

(** C5, the claim as it stands fails when [filterKeys] narrows the keys: one
    term matches, [filterKeys] hands back no key, the call succeeds and its
    only call of [onProgress] is [(0, 1)]. *)
Lemma bulkDelete_narrowed_keys_report_less_than_total :
  ∃ completedCount totalCount,
    bulkDelete (Some (λ _ log, ([], log)))
               (Some (λ completed total log, log ++ [(completed, total)]))
               "terms" (Some "dictionary") (JStr (js "d")) Sample.store []
    = (Sample.store, [(completedCount, totalCount)], Settled (Ok tt)) ∧
    completedCount ≠ totalCount.
Proof. exists 0, 1. split; [vm_compute; reflexivity|done]. Qed.

(* ================================================================== *)
(** * Deleting a dictionary                                             *)
(* ================================================================== *)

Section shrinking.
Implicit Types (st : Database.t) (d : Sqlite.db).

Lemma shrinks_refl st : shrinks st st.
Proof. by repeat split. Qed.

Lemma shrinks_trans st1 st2 st3 : shrinks st1 st2 → shrinks st2 st3 → shrinks st1 st3.
Proof.
  intros (H1 & T1 & R1) (H2 & T2 & R2). split_and!; [congruence|auto|auto].
Qed.

Lemma has_table_set_rows d tn rs tb :
  has_table (Sqlite.set_rows tn rs d) tb ↔ has_table d tb.
Proof.
  unfold has_table, Sqlite.set_rows. simpl.
  destruct (decide (tn = tb)) as [->|Hne].
  - rewrite lookup_alter_eq. destruct (Sqlite.tables d !! tb); simpl; [|done].
    split; eauto.
  - by rewrite lookup_alter_ne.
Qed.

Lemma rows_of_set_rows_eq d tn rs :
  has_table d tn → Sqlite.rows_of (Sqlite.set_rows tn rs d) tn = rs.
Proof.
  intros [t Ht]. unfold Sqlite.rows_of, Sqlite.set_rows. simpl.
  by rewrite lookup_alter_eq, Ht.
Qed.

Lemma rows_of_set_rows_ne d tn rs tb :
  tn ≠ tb → Sqlite.rows_of (Sqlite.set_rows tn rs d) tb = Sqlite.rows_of d tb.
Proof.
  intros Hne. unfold Sqlite.rows_of, Sqlite.set_rows. simpl.
  by rewrite lookup_alter_ne.
Qed.

(** Replacing the rows of a table by some of them shrinks the store. *)
Lemma shrinks_set_rows st name tn rs :
  _handle st = Some name → has_table (connected st) tn →
  (∀ r, r ∈ rs → r ∈ Sqlite.rows_of (connected st) tn) →
  shrinks st (set_database name (Sqlite.set_rows tn rs (connected st)) st).
Proof.
  intros Hh Ht Hsub. unfold shrinks.
  rewrite (connected_set_database _ _ _ Hh). split_and!; [done| |].
  - intros tb. by rewrite has_table_set_rows.
  - intros tb r. destruct (decide (tn = tb)) as [<-|Hne].
    + rewrite rows_of_set_rows_eq by done. apply Hsub.
    + by rewrite rows_of_set_rows_ne.
Qed.

Lemma set_database_connected st name :
  _handle st = Some name → connected (set_database name (connected st) st) = connected st.
Proof. intros Hh. by rewrite (connected_set_database _ _ _ Hh). Qed.

Lemma clean_subset field key rs rs' :
  (∀ r, r ∈ rs' → r ∈ rs) → clean field key rs → clean field key rs'.
Proof. unfold clean. auto. Qed.

Lemma clean_filter_delete field key rs :
  clean field key (filter (λ r, Sqlite.matches field key r ≠ true) rs).
Proof.
  intros r Hr. apply list_elem_of_filter in Hr as [Hm _].
  by destruct (Sqlite.matches field key r).
Qed.

Lemma clean_of_count field key rs :
  Z.of_nat (length (filter (λ r, Sqlite.matches field key r = true) rs)) = 0 →
  clean field key rs.
Proof.
  intros Hlen r Hr. destruct (Sqlite.matches field key r) eqn:E; [|done].
  assert (r ∈ filter (λ r, Sqlite.matches field key r = true) rs) as Hin
    by by apply list_elem_of_filter.
  destruct (filter _ rs); [by apply elem_of_nil in Hin|simpl in Hlen; lia].
Qed.

Lemma in_flight_shrinks {C} key st st' target (p : promise (C := C)) :
  shrinks st st' → in_flight key st target p → in_flight key st' target p.
Proof.
  intros (_ & _ & Hsub). specialize (Hsub target.1).
  unfold in_flight.
  destruct p as [[tb field q total|tb total keys f|total keys|total keys|total]|[[]|e]];
    try (by apply clean_subset).
  - intros (-> & -> & -> & Hz). split_and!; try done.
    intros H0. eapply clean_subset; [exact Hsub|auto].
  - intros (-> & Hf & Hk). split_and!; try done. intros r Hr. apply Hk. by apply Hsub.
  - done.
Qed.
End shrinking.

Section group.
Context {C : Type}.
Variable filterKeys : list Z → C → list Z * C.
Variable onProgress : option (Z → Z → C → C).
Variable key : jsval.
Hypothesis filterKeys_keeps : ∀ keys c, (filterKeys keys c).1 = keys.

Abbreviation resume := (bulkDelete_resume (Some filterKeys) onProgress).

(** Resuming an invocation deletes rows of its table only, keeps what is
    known of it, and brings it one [await] closer to its end. *)
Lemma resume_in_flight s st c name target :
  _handle st = Some name → has_table (connected st) target.1 →
  in_flight key st target (Pending s) →
  ∃ st' c' p',
    resume s st c = (st', c', p') ∧
    shrinks st st' ∧ in_flight key st' target p' ∧
    (rank p' < rank (Pending (C := C) s))%nat ∧
    (∀ tb, tb ≠ target.1 →
           Sqlite.rows_of (connected st') tb = Sqlite.rows_of (connected st) tb).
Proof.
  intros Hh Ht Hin. destruct target as [tn field]. simpl in *.
  destruct s as [tb f q total|tb total keys fk|total keys|total keys|total];
    cbn [bulkDelete_resume].
  - destruct Hin as (-> & -> & -> & Hz).
    destruct (total =? 0) eqn:E0.
    { apply Z.eqb_eq in E0. eexists st, _, _. split; [reflexivity|].
      split_and!; [apply shrinks_refl|by apply Hz|simpl; lia|done]. }
    rewrite (select_ids_open _ _ _ _ name) by done.
    eexists st, c, _. split; [reflexivity|].
    split_and!; [apply shrinks_refl| |simpl; lia|done].
    simpl. split_and!; [done|done|].
    intros r Hr Hm. apply list_elem_of_fmap. exists r. split; [done|].
    by apply list_elem_of_filter.
  - destruct Hin as (-> & Hfk & Hkeys).
    destruct (fk keys c) as [filteredKeys c1] eqn:Efk.
    assert (filteredKeys = keys) as -> by (by rewrite <- (Hfk keys c), Efk).
    case_bool_decide as Hlen.
    + eexists st, _, _. split; [reflexivity|].
      split_and!; [apply shrinks_refl| |simpl; lia|done].
      simpl. intros r Hr. destruct (Sqlite.matches field key r) eqn:E; [|done].
      apply nil_length_inv in Hlen. subst keys.
      by apply Hkeys, elem_of_nil in E.
    + rewrite (executeRaw_open _ _ name _ Hh (delete_in_rows _ _ _ Ht)).
      eexists _, c1, _. split; [reflexivity|].
      assert (Hsh : shrinks st (set_database name (Sqlite.set_rows tn
                      (filter (λ r, Sqlite.id r ∉ keys) (Sqlite.rows_of (connected st) tn))
                      (connected st)) st)).
      { apply shrinks_set_rows; try done.
        intros r Hr. by apply list_elem_of_filter in Hr as [_ ?]. }
      split_and!; [exact Hsh| |simpl; lia|].
      * simpl. rewrite (connected_set_database _ _ _ Hh).
        rewrite rows_of_set_rows_eq by done.
        intros r Hr. apply list_elem_of_filter in Hr as [Hid Hr].
        destruct (Sqlite.matches field key r) eqn:E; [|done].
        by destruct (Hid (Hkeys r Hr E)).
      * intros tb Hne. rewrite (connected_set_database _ _ _ Hh).
        by rewrite rows_of_set_rows_ne.
  - rewrite (executeRaw_open (λ d, Ok d) st name (connected st) Hh eq_refl).
    eexists _, c, _. split; [reflexivity|].
    assert (Hc : connected (set_database name (connected st) st) = connected st)
      by by apply set_database_connected.
    split_and!; [|simpl; by rewrite Hc|simpl; lia|intros; by rewrite Hc].
    unfold shrinks. rewrite Hc. by repeat split.
  - eexists st, _, _. split; [reflexivity|].
    split_and!; [apply shrinks_refl|done|simpl; lia|done].
  - eexists st, _, _. split; [reflexivity|].
    split_and!; [apply shrinks_refl|done|simpl; lia|done].
Qed.

(** One turn of the queue over a group of invocations. *)
Lemma turn_in_flight targets ps st c name :
  _handle st = Some name →
  (∀ target, target ∈ targets → has_table (connected st) target.1) →
  Forall2 (in_flight key st) targets ps →
  ∃ st' c' ps',
    turn (Some filterKeys) onProgress ps st c = (st', c', ps') ∧
    shrinks st st' ∧
    Forall2 (in_flight key st') targets ps' ∧
    Forall2 (λ p p', (rank p' ≤ pred (rank p))%nat) ps ps' ∧
    (∀ tb, tb ∉ targets.*1 →
           Sqlite.rows_of (connected st') tb = Sqlite.rows_of (connected st) tb).
Proof.
  intros Hh Ht Hall. revert st c Hh Ht Hall. revert ps.
  induction targets as [|target targets IH]; intros ps st0 c Hh Ht Hall.
  { apply Forall2_nil_inv_l in Hall as ->.
    exists st0, c, []. split_and!; try done; apply shrinks_refl. }
  apply Forall2_cons_inv_l in Hall as (p & ps0 & Hp & Hall & ->).
  assert (∃ st1 c1 p1,
            match p with
            | Pending s => resume s st0 c
            | Settled r => (st0, c, Settled r)
            end = (st1, c1, p1) ∧
            shrinks st0 st1 ∧ in_flight key st1 target p1 ∧
            (rank p1 ≤ pred (rank p))%nat ∧
            (∀ tb, tb ≠ target.1 →
               Sqlite.rows_of (connected st1) tb = Sqlite.rows_of (connected st0) tb))
    as (st1 & c1 & p1 & Hstep & Hsh1 & Hin1 & Hrk1 & Hfr1).
  { destruct p as [s|r].
    - destruct (resume_in_flight s st0 c name target Hh)
        as (st1 & c1 & p1 & ? & ? & ? & ? & ?); [apply Ht; left|exact Hp|].
      exists st1, c1, p1. split_and!; try done. lia.
    - exists st0, c, (Settled r).
      split_and!; try done; try apply shrinks_refl; simpl; lia. }
  destruct Hsh1 as (Hh1 & Htb1 & Hrows1).
  destruct (IH ps0 st1 c1) as (st2 & c2 & ps2 & Hturn & Hsh2 & Hin2 & Hrk2 & Hfr2).
  { congruence. }
  { intros tg Htg. apply Htb1, Ht. by right. }
  { eapply Forall2_impl; [exact Hall|]. intros tg q Hq.
    eapply in_flight_shrinks; [|exact Hq]. by split_and!. }
  exists st2, c2, (p1 :: ps2). cbn [turn]. rewrite Hstep, Hturn.
  split_and!; [done| | | |].
  - eapply shrinks_trans; [|exact Hsh2]. by split_and!.
  - constructor; [|done]. by eapply in_flight_shrinks.
  - by constructor.
  - intros tb Htb. rewrite fmap_cons, not_elem_of_cons in Htb. destruct Htb as [Hne Htb].
    rewrite (Hfr2 tb Htb). by apply Hfr1.
Qed.

Lemma turns_in_flight n targets ps st c name :
  _handle st = Some name →
  (∀ target, target ∈ targets → has_table (connected st) target.1) →
  Forall2 (in_flight key st) targets ps →
  ∃ st' c' ps',
    turns (Some filterKeys) onProgress n ps st c = (st', c', ps') ∧
    shrinks st st' ∧
    Forall2 (in_flight key st') targets ps' ∧
    Forall2 (λ p p', (rank p' ≤ rank p - n)%nat) ps ps' ∧
    (∀ tb, tb ∉ targets.*1 →
           Sqlite.rows_of (connected st') tb = Sqlite.rows_of (connected st) tb).
Proof.
  revert ps st c. induction n as [|n IH]; intros ps st0 c Hh Ht Hall.
  { exists st0, c, ps. split; [done|]. split; [apply shrinks_refl|].
    split; [done|]. split; [|done].
    apply Forall2_same_length_lookup. split; [done|].
    intros i p p' Hp Hp'. assert (p = p') as -> by congruence. lia. }
  destruct (turn_in_flight targets ps st0 c name Hh Ht Hall)
    as (st1 & c1 & ps1 & Hturn & Hsh1 & Hin1 & Hrk1 & Hfr1).
  destruct Hsh1 as (Hh1 & Htb1 & Hrows1).
  destruct (IH ps1 st1 c1) as (st2 & c2 & ps2 & Hturns & Hsh2 & Hin2 & Hrk2 & Hfr2).
  { congruence. }
  { intros tg Htg. by apply Htb1, Ht. }
  { done. }
  exists st2, c2, ps2. cbn [turns]. rewrite Hturn, Hturns.
  split_and!; [done| |done| |].
  - eapply shrinks_trans; [|exact Hsh2]. by split_and!.
  - apply Forall2_same_length_lookup. split.
    { rewrite (Forall2_length _ _ _ Hrk1). by apply Forall2_length in Hrk2. }
    intros i p p2 Hp Hp2.
    destruct (Forall2_lookup_l _ _ _ _ _ Hrk1 Hp) as (p1 & Hp1 & Hle1).
    destruct (Forall2_lookup_l _ _ _ _ _ Hrk2 Hp1) as (p2' & Hp2' & Hle2).
    assert (p2' = p2) as -> by congruence. lia.
  - intros tb Htb. rewrite (Hfr2 tb Htb). by apply Hfr1.
Qed.

(** A settled invocation that is not rejected has left no matching row. *)
Lemma in_flight_settled st target (p : promise (C := C)) :
  in_flight key st target p → rank p = 0%nat →
  clean target.2 key (Sqlite.rows_of (connected st) target.1).
Proof.
  unfold in_flight. destruct p as [[]|[[]|e]]; simpl; try done; lia.
Qed.

(** The invocations of a group, awaited together, leave no matching row in
    any table of the group, and touch no other table. *)
Lemma await_all_clean targets st c name :
  _handle st = Some name →
  (∀ target, target ∈ targets → has_table (connected st) target.1 ∧ target.2 ≠ EmptyString) →
  ∃ st' c' ps',
    await_all (Some filterKeys) onProgress
      ((λ '(objectStoreName, indexName),
          bulkDelete_call objectStoreName (Some indexName) key st) <$> targets) st c
    = (st', c', ps') ∧
    shrinks st st' ∧
    (∀ target, target ∈ targets →
       clean target.2 key (Sqlite.rows_of (connected st') target.1)) ∧
    (∀ tb, tb ∉ targets.*1 →
           Sqlite.rows_of (connected st') tb = Sqlite.rows_of (connected st) tb).
Proof.
  intros Hh Ht. unfold await_all.
  destruct (turns_in_flight max_awaits targets
              ((λ '(objectStoreName, indexName),
                  bulkDelete_call objectStoreName (Some indexName) key st) <$> targets)
              st c name Hh) as (st' & c' & ps' & Hturns & Hsh & Hin & Hrk & Hfr).
  { intros tg Htg. by apply Ht. }
  { apply Forall2_fmap_r, Forall_Forall2_diag, Forall_forall.
    intros [tn field] Htg. destruct (Ht _ Htg) as [Htn Hfield]. simpl in *.
    rewrite (bulkDelete_call_open _ _ _ _ name) by done.
    simpl. split_and!; try done. apply clean_of_count. }
  exists st', c', ps'. split_and!; try done.
  intros tg Htg. apply list_elem_of_lookup in Htg as [i Hi].
  destruct (Forall2_lookup_l _ _ _ _ _ Hin Hi) as (p' & Hp' & Hin').
  apply (in_flight_settled _ _ p'); [done|].
  destruct (Forall2_lookup_r _ _ _ _ _ Hrk Hp') as (p & Hp & Hle).
  assert (rank p ≤ 4)%nat by (destruct p as [[]|]; simpl; lia).
  unfold max_awaits in Hle. lia.
Qed.
End group.

Section deleteDictionary_facts.


Lemma delete_group_clean dictionaryName progressRate targets st w name :
  _handle st = Some name →
  (∀ target, target ∈ targets → has_table (connected st) target.1 ∧ target.2 ≠ EmptyString) →
  let st' := (delete_group dictionaryName progressRate targets st w).1 in
  shrinks st st' ∧
  (∀ target, target ∈ targets →
     clean target.2 (JStr dictionaryName) (Sqlite.rows_of (connected st') target.1)) ∧
  (∀ tb, tb ∉ targets.*1 →
         Sqlite.rows_of (connected st') tb = Sqlite.rows_of (connected st) tb).
Proof.
  intros Hh Ht. unfold delete_group.
  destruct (await_all_clean filterKeys (Some (onProgressWrapper progressRate))
              (JStr dictionaryName) (λ _ _, eq_refl) targets st w name Hh Ht)
    as (st' & c' & ps' & Hrun & Hsh & Hclean & Hfr).
  rewrite Hrun. simpl. by split_and!.
Qed.
End deleteDictionary_facts.



(* ================================================================== *)
(** * Counts                                                            *)
(* ================================================================== *)

(** C6. The code at a dictionary name that is the empty string: no term has
    the empty string as its dictionary, yet the count of [terms] reported for
    that name is 1, the number of all terms.  [bulkCount] tests [op.query]
    for truthiness, so the empty name is counted like the [null] of a total. *)
Theorem getDictionaryCounts_empty_name_counts_every_row :
  ∃ group,
    getDictionaryCounts [ [] ] false Sample.store
    = Ok {| total := None; counts := [group] |} ∧
    group !! "terms" = Some (JNum 1) ∧
    filter (λ r, prop (Sqlite.data r) "dictionary" = JStr [])
           (Sqlite.rows_of (connected Sample.store) "terms") = [].
Proof.
  eexists. split; [vm_compute; reflexivity|]. split; vm_compute; reflexivity.
Qed.

Section counts.
Variable st : Database.t.
Variable name : string.
Hypothesis Hh : _handle st = Some name.
Hypothesis Ht : ∀ tb, tb ∈ count_tables → has_table (connected st) tb.1.

Abbreviation chunk' := (chunk st).
Abbreviation totals' := (totals st).

Lemma bulkCount_app ops1 ops2 :
  bulkCount (ops1 ++ ops2) st
  = (r1 ← bulkCount ops1 st; r2 ← bulkCount ops2 st; mret (r1 ++ r2)).
Proof.
  induction ops1 as [|op ops1 IH]; simpl.
  - by destruct (bulkCount ops2 st).
  - destruct (count_one op st) as [n|e]; simpl; [|done]. rewrite IH.
    destruct (bulkCount ops1 st) as [r1|e]; simpl; [|done].
    by destruct (bulkCount ops2 st).
Qed.

Lemma bulkCount_each (tbs : list (string * string)) (q : option jstring) (g : string * string → Z) :
  (∀ tb, tb ∈ tbs →
     count_one {| table := tb.1; column := tb.2; query := q |} st = Ok (g tb)) →
  bulkCount ((λ tb, {| table := tb.1; column := tb.2; query := q |}) <$> tbs) st
  = Ok (g <$> tbs).
Proof.
  induction tbs as [|tb tbs IH]; intros Hall; [done|].
  rewrite fmap_cons. cbn [bulkCount]. rewrite (Hall tb) by left.
  rewrite IH; [done|]. intros tb' Htb'. apply Hall. by right.
Qed.

Lemma bulkCount_name n :
  n ≠ [] →
  bulkCount ((λ tb, {| table := tb.1; column := tb.2; query := Some n |}) <$> count_tables) st
  = Ok (chunk' n).
Proof.
  intros Hn. apply bulkCount_each. intros tb Htb. unfold count_one. simpl.
  rewrite bool_decide_eq_false_2 by done. simpl.
  rewrite (execute_open _ _ _ Hh). by apply count_eq_rows, Ht.
Qed.

Lemma bulkCount_total :
  bulkCount ((λ tb, {| table := tb.1; column := tb.2; query := None |}) <$> count_tables) st
  = Ok totals'.
Proof.
  apply bulkCount_each. intros tb Htb. unfold count_one. simpl.
  rewrite (execute_open _ _ _ Hh). unfold Sqlite.count_all.
  by rewrite (select_all_rows _ _ (Ht tb Htb)).
Qed.

Lemma bulkCount_names names :
  (∀ n, n ∈ names → n ≠ []) →
  bulkCount (n ← names;
             (λ tb, {| table := tb.1; column := tb.2; query := Some n |}) <$> count_tables) st
  = Ok (concat (chunk' <$> names)).
Proof.
  induction names as [|n names IH]; intros Hne; [done|].
  rewrite bind_cons, bulkCount_app, bulkCount_name by (apply Hne; left).
  rewrite IH; [done|]. intros n' Hn'. apply Hne. by right.
Qed.

Lemma at_index_app pre l k v i :
  l !! k = Some v → i = (length pre + k)%nat → at_index (pre ++ l) i = JNum v.
Proof.
  intros Hk ->. unfold at_index. by rewrite lookup_app_r, Nat.add_sub', Hk by lia.
Qed.

Lemma fill_group_chunk pre cs post :
  length cs = length count_tables →
  fill_group (pre ++ cs ++ post) (length pre) = (group_of cs, (length pre + 6)%nat).
Proof.
  intros Hlen.
  destruct cs as [|c0 [|c1 [|c2 [|c3 [|c4 [|c5 [|c6 cs]]]]]]]; try done.
  unfold fill_group, group_of. cbn [foldl count_tables fst snd].
  rewrite (at_index_app pre _ 0 c0 (length pre)) by (done || lia).
  rewrite (at_index_app pre _ 1 c1 (S (length pre))) by (done || lia).
  rewrite (at_index_app pre _ 2 c2 (S (S (length pre)))) by (done || lia).
  rewrite (at_index_app pre _ 3 c3 (S (S (S (length pre))))) by (done || lia).
  rewrite (at_index_app pre _ 4 c4 (S (S (S (S (length pre)))))) by (done || lia).
  rewrite (at_index_app pre _ 5 c5 (S (S (S (S (S (length pre))))))) by (done || lia).
  apply pair_equal_spec. split; [|lia].
  apply map_eq. intros k. simpl.
  repeat (rewrite lookup_insert; case_decide; [subst; done|]). done.
Qed.

Lemma length_chunk n : length (chunk' n) = length count_tables.
Proof. unfold chunk. by rewrite length_fmap. Qed.

Lemma fill_counts_chunks pre (names : list jstring) :
  fill_counts names (pre ++ concat (chunk' <$> names)) (length pre)
  = (group_of ∘ chunk') <$> names.
Proof.
  revert pre. induction names as [|n names IH]; intros pre; [done|].
  cbn [fill_counts fmap list_fmap concat].
  rewrite fill_group_chunk by apply length_chunk.
  replace (length pre + 6)%nat with (length (pre ++ chunk' n))
    by (rewrite length_app, length_chunk; done).
  rewrite (app_assoc pre), IH. done.
Qed.

Lemma group_of_lookup cs i tb c :
  length cs = length count_tables →
  count_tables !! i = Some tb → cs !! i = Some c → group_of cs !! tb.1 = Some (JNum c).
Proof.
  intros Hlen Htb Hc.
  destruct cs as [|c0 [|c1 [|c2 [|c3 [|c4 [|c5 [|c6 cs]]]]]]]; try done.
  unfold group_of.
  do 6 (destruct i as [|i]; [injection Htb as <-; injection Hc as <-; done|]).
  done.
Qed.

(** For names that are not the empty string the counts are as the claim
    has them. *)
Lemma getDictionaryCounts_counts names getTotal :
  (∀ n, n ∈ names → n ≠ []) →
  ∃ result,
    getDictionaryCounts names getTotal st = Ok result ∧
    counts result = (group_of ∘ chunk') <$> names ∧
    total result = if getTotal then Some (group_of totals') else None.
Proof.
  intros Hne. unfold getDictionaryCounts.
  rewrite bulkCount_app, (bulkCount_names _ Hne).
  destruct getTotal.
  - rewrite bulkCount_total. cbn [mbind result_bind mret result_ret].
    replace (fill_group (totals' ++ concat (chunk' <$> names)) 0)
      with (group_of totals', 6%nat).
    2:{ symmetry. apply (fill_group_chunk [] totals'). unfold totals. by rewrite length_fmap. }
    eexists. split; [reflexivity|]. split; [|done]. simpl.
    apply (fill_counts_chunks totals').
  - cbn [mbind result_bind mret result_ret bulkCount app].
    eexists. split; [reflexivity|]. split; [|done]. simpl.
    apply (fill_counts_chunks []).
Qed.
End counts.

(* ================================================================== *)
(** * Base64                                                            *)
(* ================================================================== *)

(** Linear arithmetic with division and remainder by constants. *)
Ltac dlia := zify; Z.to_euclidean_division_equations; lia.

Section base64_facts.
Import ArrayBufferUtil.

Lemma ToInt32_small x : 0 ≤ x < 2 ^ 31 → ToInt32 x = x.
Proof. intros H. unfold ToInt32. rewrite Z.mod_small; lia. Qed.

Lemma byte_at_range bytes i : 0 ≤ byte_at bytes i < 256.
Proof.
  unfold byte_at. destruct (bytes !! i) as [b|]; [|lia].
  pose proof (Byte.to_N_bounded b). lia.
Qed.

Lemma lor_shiftl_add hi lo k :
  0 ≤ k → 0 ≤ hi → 0 ≤ lo < 2 ^ k → Z.lor (Z.shiftl hi k) lo = hi * 2 ^ k + lo.
Proof.
  intros Hk Hhi Hlo.
  assert (Hland : Z.land (Z.shiftl hi k) lo = 0).
  { apply Z.bits_inj'. intros i Hi. rewrite Z.land_spec, Z.bits_0.
    destruct (Z.lt_ge_cases i k) as [Hlt|Hge].
    - rewrite Z.shiftl_spec_low by done. done.
    - destruct (Z.eq_dec lo 0) as [->|Hne].
      + rewrite Z.bits_0. apply andb_false_r.
      + rewrite (Z.bits_above_log2 lo i); [apply andb_false_r|lia|].
        apply Z.log2_lt_pow2; [lia|].
        eapply Z.lt_le_trans; [apply Hlo|]. apply Z.pow_le_mono_r; lia. }
  rewrite <- Z.lxor_lor, <- Z.add_nocarry_lxor by done.
  by rewrite Z.shiftl_mul_pow2.
Qed.

Lemma land_range a b n : 0 ≤ n → 0 ≤ a < 2 ^ n → 0 ≤ b → 0 ≤ Z.land a b < 2 ^ n.
Proof.
  intros Hn Ha Hb. split; [apply Z.land_nonneg; lia|].
  destruct (Z.eq_dec (Z.land a b) 0) as [->|Hne]; [lia|].
  assert (0 < Z.land a b) by (pose proof (proj2 (Z.land_nonneg a b)); lia).
  apply Z.log2_lt_pow2; [done|].
  pose proof (Z.log2_land a b ltac:(lia) Hb).
  assert (0 < a) by (destruct (Z.eq_dec a 0) as [->|]; [by rewrite Z.land_0_l in *|lia]).
  assert (Z.log2 a < n) by (apply Z.log2_lt_pow2; lia). lia.
Qed.

Lemma band_mask chunk mask k n :
  0 ≤ chunk < 2 ^ 31 → 0 ≤ mask < 2 ^ 31 → 0 ≤ k → 0 ≤ n →
  Z.shiftr mask k = Z.ones n →
  sar (band chunk mask) k = chunk / 2 ^ k mod 2 ^ n.
Proof.
  intros Hc Hm Hk Hn Hmask. unfold sar, band.
  rewrite (ToInt32_small chunk), (ToInt32_small mask) by done.
  assert (0 ≤ Z.land chunk mask < 2 ^ 31) by (apply land_range; lia).
  rewrite ToInt32_small by done.
  rewrite Z.shiftr_land, Hmask, Z.land_ones, Z.shiftr_div_pow2 by done. done.
Qed.
End base64_facts.

Section base64_encoding.
Import ArrayBufferUtil.

Lemma forall_below (P : nat → Prop) (p : nat → bool) n :
  (∀ k, p k = true → P k) → forallb p (seq 0 n) = true → ∀ k, (k < n)%nat → P k.
Proof.
  intros Hp Hall k Hk. apply Hp.
  rewrite forallb_forall in Hall. apply Hall. apply in_seq. lia.
Qed.

(** The alphabet: 64 characters, none of them [=] or whitespace, each
    standing for its position. *)
Lemma code_spec a :
  0 ≤ a < 64 →
  char_at encodings a = [code a] ∧ sextet (code a) = Some a ∧
  is_whitespace (code a) = false ∧ code a ≠ equals_sign ∧ code a ∈ encodings.
Proof.
  intros Ha.
  assert (G : ∀ k, (k < 64)%nat →
            encodings !! k = Some (code (Z.of_nat k)) ∧
            sextet (code (Z.of_nat k)) = Some (Z.of_nat k) ∧
            is_whitespace (code (Z.of_nat k)) = false ∧
            Ascii.eqb (code (Z.of_nat k)) equals_sign = false).
  { apply (forall_below _ (λ k,
      bool_decide (encodings !! k = Some (code (Z.of_nat k)))
      && bool_decide (sextet (code (Z.of_nat k)) = Some (Z.of_nat k))
      && negb (is_whitespace (code (Z.of_nat k)))
      && negb (Ascii.eqb (code (Z.of_nat k)) equals_sign))).
    - intros k Hk. apply andb_prop in Hk as [Hk H4]. apply andb_prop in Hk as [Hk H3].
      apply andb_prop in Hk as [H1 H2].
      apply bool_decide_eq_true in H1. apply bool_decide_eq_true in H2.
      apply negb_true_iff in H3. apply negb_true_iff in H4. done.
    - vm_compute. reflexivity. }
  destruct (G (Z.to_nat a)) as (H1 & H2 & H3 & H4); [lia|].
  rewrite Z2Nat.id in * by lia.
  split_and!; try done.
  - unfold char_at. destruct (a <? 0) eqn:E; [lia|]. by rewrite H1.
  - intros Heq. rewrite Heq in H4. by rewrite Ascii.eqb_refl in H4.
  - by eapply list_elem_of_lookup_2.
Qed.

Lemma shl_small a k : 0 ≤ k → 0 ≤ a → a * 2 ^ k < 2 ^ 31 → shl a k = a * 2 ^ k.
Proof.
  intros Hk Ha Hb. unfold shl.
  assert (1 ≤ 2 ^ k) by (apply (Z.pow_le_mono_r 2 0 k); lia).
  rewrite (ToInt32_small a) by nia.
  rewrite Z.shiftl_mul_pow2 by done. apply ToInt32_small. nia.
Qed.

Lemma bor_add hi lo k :
  0 ≤ k → 0 ≤ hi → hi * 2 ^ k + lo < 2 ^ 31 → 0 ≤ lo < 2 ^ k →
  bor (hi * 2 ^ k) lo = hi * 2 ^ k + lo.
Proof.
  intros Hk Hhi Hb Hlo. unfold bor.
  assert (0 ≤ hi * 2 ^ k) by nia.
  rewrite !ToInt32_small by lia.
  rewrite <- Z.shiftl_mul_pow2 by done. rewrite lor_shiftl_add by done.
  by rewrite Z.shiftl_mul_pow2.
Qed.

Lemma band_low chunk n :
  0 ≤ chunk < 2 ^ 31 → 0 ≤ n < 31 → band chunk (Z.ones n) = chunk mod 2 ^ n.
Proof.
  intros Hc Hn. unfold band.
  assert (0 ≤ Z.ones n < 2 ^ 31).
  { rewrite Z.ones_equiv. assert (0 < 2 ^ n) by (apply Z.pow_pos_nonneg; lia).
    assert (2 ^ n ≤ 2 ^ 31) by (apply Z.pow_le_mono_r; lia). lia. }
  rewrite !ToInt32_small by lia. apply Z.land_ones. lia.
Qed.

Lemma chunk3 x y z :
  0 ≤ x < 256 → 0 ≤ y < 256 → 0 ≤ z < 256 →
  bor (bor (shl x 16) (shl y 8)) z = x * 65536 + y * 256 + z.
Proof.
  intros Hx Hy Hz.
  rewrite (shl_small x 16), (shl_small y 8) by lia.
  rewrite (bor_add x (y * 2 ^ 8) 16) by lia.
  replace (x * 2 ^ 16 + y * 2 ^ 8) with ((x * 256 + y) * 2 ^ 8) by lia.
  rewrite bor_add by lia. lia.
Qed.

Lemma chunk2 x y :
  0 ≤ x < 256 → 0 ≤ y < 256 → bor (shl x 8) y = x * 256 + y.
Proof.
  intros Hx Hy. rewrite (shl_small x 8) by lia. rewrite bor_add by lia. lia.
Qed.

(** The four characters of three bytes, and those of the one or two bytes
    left over. *)
Lemma quad_sextets chunk :
  0 ≤ chunk < 2 ^ 24 →
  sar (band chunk 16515072) 18 = chunk / 262144 mod 64 ∧
  sar (band chunk 258048) 12 = chunk / 4096 mod 64 ∧
  sar (band chunk 4032) 6 = chunk / 64 mod 64 ∧
  band chunk 63 = chunk mod 64.
Proof.
  intros Hc. split_and!.
  - apply (band_mask chunk _ 18 6); try lia. reflexivity.
  - apply (band_mask chunk _ 12 6); try lia. reflexivity.
  - apply (band_mask chunk _ 6 6); try lia. reflexivity.
  - apply (band_low chunk 6); lia.
Qed.

Lemma tail1_sextets x :
  0 ≤ x < 256 →
  sar (band x 252) 2 = x / 4 ∧ shl (band x 3) 4 = x mod 4 * 16.
Proof.
  intros Hx. split.
  - rewrite (band_mask x _ 2 6); try lia; [|reflexivity].
    change (2 ^ 2) with 4. change (2 ^ 6) with 64. rewrite Z.mod_small; [done|].
    split; [apply Z.div_pos; lia|]. apply Z.div_lt_upper_bound; lia.
  - change (band x 3) with (band x (Z.ones 2)).
    rewrite (band_low x 2) by lia. change (2 ^ 2) with 4.
    pose proof (Z.mod_pos_bound x 4 ltac:(lia)).
    rewrite shl_small; lia.
Qed.

Lemma tail2_sextets chunk :
  0 ≤ chunk < 2 ^ 16 →
  sar (band chunk 64512) 10 = chunk / 1024 ∧
  sar (band chunk 1008) 4 = chunk / 16 mod 64 ∧
  shl (band chunk 15) 2 = chunk mod 16 * 4.
Proof.
  intros Hc. split_and!.
  - rewrite (band_mask chunk _ 10 6); try lia; [|reflexivity].
    change (2 ^ 10) with 1024. change (2 ^ 6) with 64. rewrite Z.mod_small; [done|].
    split; [apply Z.div_pos; lia|]. apply Z.div_lt_upper_bound; lia.
  - apply (band_mask chunk _ 4 6); try lia. reflexivity.
  - change (band chunk 15) with (band chunk (Z.ones 4)).
    rewrite (band_low chunk 4) by lia. change (2 ^ 4) with 16.
    pose proof (Z.mod_pos_bound chunk 16 ltac:(lia)).
    rewrite shl_small; lia.
Qed.
End base64_encoding.

Section base64_loop.
Import ArrayBufferUtil.

Lemma list_ind3 {A} (P : list A → Prop) :
  P [] → (∀ x, P [x]) → (∀ x y, P [x; y]) →
  (∀ x y z l, P l → P (x :: y :: z :: l)) → ∀ l, P l.
Proof.
  intros H0 H1 H2 H3.
  assert (G : ∀ l, P l ∧ (∀ x, P (x :: l)) ∧ (∀ x y, P (x :: y :: l))).
  { induction l as [|a l (IH0 & IH1 & IH2)]; [by split_and!|].
    split_and!; [apply IH1|intros; apply IH2|intros; by apply H3]. }
  intros l. apply G.
Qed.

Implicit Types (bytes rest : ArrayBuffer) (x y z : Byte.byte).

Lemma byte_at_shift3 x y z rest j :
  byte_at (x :: y :: z :: rest) (j + 3) = byte_at rest j.
Proof. unfold byte_at. by replace (j + 3)%nat with (S (S (S j))) by lia. Qed.

Lemma byte_at_head3 x y z rest j :
  (j < 3)%nat → byte_at (x :: y :: z :: rest) j = byte_at [x; y; z] j.
Proof. intros Hj. by destruct j as [|[|[|j]]]; [..|lia]. Qed.

Lemma main_loop_shift fuel x y z rest m i acc :
  main_loop fuel (x :: y :: z :: rest) (m + 3) (i + 3) acc
  = main_loop fuel rest m i acc.
Proof.
  revert i acc. induction fuel as [|fuel IH]; intros i acc; [done|].
  cbn [main_loop].
  replace (i + 3 <? m + 3)%nat with (i <? m)%nat
    by (destruct (Nat.ltb_spec i m), (Nat.ltb_spec (i + 3) (m + 3)); done || lia).
  destruct (i <? m)%nat; [|done].
  replace (i + 3 + 1)%nat with (i + 1 + 3)%nat by lia.
  replace (i + 3 + 2)%nat with (i + 2 + 3)%nat by lia.
  rewrite !byte_at_shift3. apply IH.
Qed.

Lemma main_loop_acc fuel bytes m i acc :
  main_loop fuel bytes m i acc = acc ++ main_loop fuel bytes m i [].
Proof.
  revert i acc. induction fuel as [|fuel IH]; intros i acc; cbn [main_loop].
  { by rewrite app_nil_r. }
  destruct (i <? m)%nat; [|by rewrite app_nil_r].
  rewrite IH. rewrite (IH _ ([] ++ _)). rewrite app_nil_l. symmetry. apply app_assoc.
Qed.

Lemma main_loop_unfold bytes m :
  ∃ pass : nat → bstring, ∀ fuel i acc,
    main_loop (S fuel) bytes m i acc
    = if (i <? m)%nat then main_loop fuel bytes m (i + 3) (acc ++ pass i) else acc.
Proof. eexists (λ i, _). intros fuel i acc. cbn [main_loop]. reflexivity. Qed.

(** The loop ends by its own test; fuel beyond that is not used. *)
Lemma main_loop_S fuel bytes m i acc :
  (m ≤ i + 3 * fuel)%nat →
  main_loop (S fuel) bytes m i acc = main_loop fuel bytes m i acc.
Proof.
  destruct (main_loop_unfold bytes m) as [pass Hunf].
  revert i acc. induction fuel as [|fuel IH]; intros i acc Hm.
  - rewrite Hunf. cbn [main_loop]. destruct (Nat.ltb_spec i m); [lia|done].
  - rewrite (Hunf fuel i acc), (Hunf (S fuel) i acc).
    destruct (i <? m)%nat; [|done]. apply IH. lia.
Qed.

Lemma arrayBufferToBase64_cons3 x y z rest :
  arrayBufferToBase64 (x :: y :: z :: rest) = quad x y z ++ arrayBufferToBase64 rest.
Proof.
  unfold arrayBufferToBase64.
  set (n := length rest).
  assert (Hlen : length (x :: y :: z :: rest) = (n + 3)%nat) by (simpl; lia).
  rewrite Hlen.
  assert (Hmod : ((n + 3) mod 3 = n mod 3)%nat).
  { replace (n + 3)%nat with (n + 1 * 3)%nat by lia. by rewrite Nat.Div0.mod_add. }
  rewrite Hmod.
  pose proof (Nat.Div0.mod_le n 3) as Hle.
  set (r := (n mod 3)%nat) in *.
  replace (n + 3 - r)%nat with (n - r + 3)%nat by lia.
  set (m := (n - r)%nat).
  assert (Hloop : main_loop (n + 3) (x :: y :: z :: rest) (m + 3) 0 []
                  = quad x y z ++ main_loop n rest m 0 []).
  { replace (n + 3)%nat with (S (n + 2)) by lia. cbn [main_loop].
    replace (0 <? m + 3)%nat with true by (symmetry; apply Nat.ltb_lt; lia).
    rewrite app_nil_l.
    rewrite (main_loop_shift (n + 2) x y z rest m 0).
    rewrite main_loop_acc.
    replace (n + 2)%nat with (S (S n)) by lia.
    rewrite (main_loop_S (S n)) by (unfold m; lia).
    rewrite (main_loop_S n) by (unfold m; lia).
    change (0 + 1)%nat with 1%nat. change (0 + 2)%nat with 2%nat.
    rewrite (byte_at_head3 x y z rest 0), (byte_at_head3 x y z rest 1),
      (byte_at_head3 x y z rest 2) by lia.
    unfold quad. reflexivity. }
  rewrite Hloop.
  replace (m + 3 + 1)%nat with (m + 1 + 3)%nat by lia.
  rewrite !byte_at_shift3.
  destruct (r =? 1)%nat; [symmetry; apply app_assoc|].
  destruct (r =? 2)%nat; [symmetry; apply app_assoc|done].
Qed.
End base64_loop.

Section base64_structure.
Import ArrayBufferUtil.
Implicit Types (bytes rest : ArrayBuffer) (x y z : Byte.byte).

Lemma main_loop_none fuel bytes i acc : main_loop fuel bytes 0 i acc = acc.
Proof. by destruct fuel. Qed.

Lemma arrayBufferToBase64_nil : arrayBufferToBase64 [] = [].
Proof. reflexivity. Qed.

Lemma arrayBufferToBase64_one x :
  arrayBufferToBase64 [x]
  = char_at encodings (sar (band (byte_at [x] 0) 252) 2)
    ++ char_at encodings (shl (band (byte_at [x] 0) 3) 4)
    ++ [equals_sign; equals_sign].
Proof.
  unfold arrayBufferToBase64.
  assert (Hr : (length [x] mod 3 = 1)%nat) by reflexivity. rewrite Hr.
  assert (Hm : (length [x] - 1 = 0)%nat) by reflexivity. rewrite Hm.
  rewrite main_loop_none.
  assert (H1 : (1 =? 1)%nat = true) by reflexivity. rewrite H1.
  apply app_nil_l.
Qed.

Lemma arrayBufferToBase64_two x y :
  arrayBufferToBase64 [x; y]
  = char_at encodings
      (sar (band (bor (shl (byte_at [x; y] 0) 8) (byte_at [x; y] 1)) 64512) 10)
    ++ char_at encodings
         (sar (band (bor (shl (byte_at [x; y] 0) 8) (byte_at [x; y] 1)) 1008) 4)
    ++ char_at encodings
         (shl (band (bor (shl (byte_at [x; y] 0) 8) (byte_at [x; y] 1)) 15) 2)
    ++ [equals_sign].
Proof.
  unfold arrayBufferToBase64.
  assert (Hr : (length [x; y] mod 3 = 2)%nat) by reflexivity. rewrite Hr.
  assert (Hm : (length [x; y] - 2 = 0)%nat) by reflexivity. rewrite Hm.
  rewrite main_loop_none.
  assert (H1 : (2 =? 1)%nat = false) by reflexivity. rewrite H1.
  assert (H2 : (2 =? 2)%nat = true) by reflexivity. rewrite H2.
  assert (H3 : (0 + 1 = 1)%nat) by reflexivity. rewrite H3.
  apply app_nil_l.
Qed.

Lemma byte_value_range x : 0 ≤ Z.of_N (Byte.to_N x) < 256.
Proof. pose proof (Byte.to_N_bounded x). lia. Qed.

Lemma octet_byte x : octet (Z.of_N (Byte.to_N x)) = ascii_of_byte x.
Proof.
  unfold octet. rewrite Z.mod_small by apply byte_value_range.
  rewrite N2Z.id. symmetry. apply ascii_of_byte_via_N.
Qed.

Lemma octet_value v x : v = Z.of_N (Byte.to_N x) → octet v = ascii_of_byte x.
Proof. intros ->. apply octet_byte. Qed.

(** The text [arrayBufferToBase64] makes: the characters of a list of
    sextets, then the padding; the sextets are the bits of the bytes. *)
Lemma base64_structure bytes :
  ∃ sextets : list Z,
    arrayBufferToBase64 bytes
    = (code <$> sextets) ++ replicate ((3 - length bytes mod 3) mod 3)%nat equals_sign ∧
    Forall (λ a, 0 ≤ a < 64) sextets ∧
    (length sextets + (3 - length bytes mod 3) mod 3 = 4 * ((length bytes + 2) / 3))%nat ∧
    decode sextets = arrayBufferToBinaryString bytes.
Proof.
  induction bytes as [|x|x y|x y z rest (sx & Htext & Hrange & Hlen & Hdec)] using list_ind3.
  - exists []. split_and!; try done.
  - pose proof (byte_value_range x) as Hx.
    set (v := Z.of_N (Byte.to_N x)) in *.
    destruct (tail1_sextets v Hx) as [Ha Hb].
    exists [v / 4; v mod 4 * 16].
    assert (Ra : 0 ≤ v / 4 < 64) by dlia.
    assert (Rb : 0 ≤ v mod 4 * 16 < 64) by dlia.
    split_and!.
    + rewrite arrayBufferToBase64_one. change (byte_at [x] 0) with v.
      rewrite Ha, Hb.
      destruct (code_spec _ Ra) as [-> _]. destruct (code_spec _ Rb) as [-> _]. done.
    + rewrite ?Forall_cons, ?Forall_nil. tauto.
    + done.
    + cbn [decode arrayBufferToBinaryString fmap list_fmap]. f_equal.
      apply octet_value. fold v. dlia.
  - pose proof (byte_value_range x) as Hx. pose proof (byte_value_range y) as Hy.
    set (v := Z.of_N (Byte.to_N x)) in *. set (w := Z.of_N (Byte.to_N y)) in *.
    assert (Hc : 0 ≤ v * 256 + w < 2 ^ 16) by dlia.
    destruct (tail2_sextets _ Hc) as (Ha & Hb & Hcc).
    set (chunk := v * 256 + w) in *.
    exists [chunk / 1024; chunk / 16 mod 64; chunk mod 16 * 4].
    assert (Ra : 0 ≤ chunk / 1024 < 64) by dlia.
    assert (Rb : 0 ≤ chunk / 16 mod 64 < 64) by dlia.
    assert (Rc : 0 ≤ chunk mod 16 * 4 < 64) by dlia.
    split_and!.
    + rewrite arrayBufferToBase64_two.
      change (byte_at [x; y] 0) with v. change (byte_at [x; y] 1) with w.
      rewrite (chunk2 v w) by done. fold chunk. rewrite Ha, Hb, Hcc.
      destruct (code_spec _ Ra) as [-> _]. destruct (code_spec _ Rb) as [-> _].
      destruct (code_spec _ Rc) as [-> _]. done.
    + rewrite ?Forall_cons, ?Forall_nil. tauto.
    + done.
    + cbn [decode arrayBufferToBinaryString fmap list_fmap]. f_equal; [|f_equal].
      * apply octet_value. fold v. unfold chunk. dlia.
      * unfold octet. rewrite <- octet_byte. unfold octet. fold w. f_equal. f_equal.
        unfold chunk. dlia.
  - pose proof (byte_value_range x) as Hx. pose proof (byte_value_range y) as Hy.
    pose proof (byte_value_range z) as Hz.
    set (v := Z.of_N (Byte.to_N x)) in *. set (w := Z.of_N (Byte.to_N y)) in *.
    set (u := Z.of_N (Byte.to_N z)) in *.
    assert (Hc : 0 ≤ v * 65536 + w * 256 + u < 2 ^ 24) by dlia.
    destruct (quad_sextets _ Hc) as (Ha & Hb & Hcc & Hd).
    set (chunk := v * 65536 + w * 256 + u) in *.
    exists (chunk / 262144 mod 64 :: chunk / 4096 mod 64 :: chunk / 64 mod 64
            :: chunk mod 64 :: sx).
    assert (Ra : 0 ≤ chunk / 262144 mod 64 < 64) by dlia.
    assert (Rb : 0 ≤ chunk / 4096 mod 64 < 64) by dlia.
    assert (Rc : 0 ≤ chunk / 64 mod 64 < 64) by dlia.
    assert (Rd : 0 ≤ chunk mod 64 < 64) by dlia.
    assert (Hmod : (length (x :: y :: z :: rest) mod 3 = length rest mod 3)%nat).
    { cbn [length]. replace (S (S (S (length rest)))) with (length rest + 1 * 3)%nat by dlia.
      by rewrite Nat.Div0.mod_add. }
    split_and!.
    + rewrite arrayBufferToBase64_cons3, Htext, Hmod. unfold quad. cbv zeta.
      change (byte_at [x; y; z] 0) with v. change (byte_at [x; y; z] 1) with w.
      change (byte_at [x; y; z] 2) with u.
      rewrite (chunk3 v w u) by done. fold chunk. rewrite Ha, Hb, Hcc, Hd.
      destruct (code_spec _ Ra) as [-> _]. destruct (code_spec _ Rb) as [-> _].
      destruct (code_spec _ Rc) as [-> _]. destruct (code_spec _ Rd) as [-> _]. done.
    + rewrite ?Forall_cons, ?Forall_nil. tauto.
    + rewrite Hmod. cbn [length].
      replace (S (S (S (length rest))) + 2)%nat with (length rest + 2 + 1 * 3)%nat by dlia.
      rewrite Nat.div_add by dlia. lia.
    + cbn [decode arrayBufferToBinaryString fmap list_fmap].
      change (list_fmap _ _ ascii_of_byte rest) with (arrayBufferToBinaryString rest).
      rewrite Hdec. f_equal; [|f_equal; [|f_equal]].
      * apply octet_value. fold v. unfold chunk. dlia.
      * unfold octet. rewrite <- octet_byte. unfold octet. fold w. f_equal. f_equal.
        unfold chunk. dlia.
      * unfold octet. rewrite <- octet_byte. unfold octet. fold u. f_equal. f_equal.
        unfold chunk. dlia.
Qed.
End base64_structure.

Section base64_decoding.
Import ArrayBufferUtil.
Implicit Types (bytes : ArrayBuffer) (body : bstring).

Lemma eqb_equals_sign c : c ≠ equals_sign → Ascii.eqb c equals_sign = false.
Proof. intros Hc. by apply Ascii.eqb_neq. Qed.

Lemma strip_padding_spec body k :
  Forall (λ c, c ≠ equals_sign) body → (k ≤ 2)%nat →
  ((length body + k) mod 4 = 0)%nat →
  strip_padding (body ++ replicate k equals_sign) = body.
Proof.
  intros Hbody Hk Hlen. unfold strip_padding.
  rewrite length_app, length_replicate, Hlen. cbn [Nat.eqb].
  rewrite reverse_app, reverse_replicate.
  assert (Hrev : Forall (λ c, c ≠ equals_sign) (reverse body)).
  { rewrite Forall_forall in *. intros c Hc. apply Hbody. by apply elem_of_reverse. }
  destruct k as [|[|[|k]]]; [| | |lia]; cbn [replicate app].
  - rewrite app_nil_r. destruct (reverse body) as [|c1 [|c2 rest]] eqn:E; [done| |].
    + apply Forall_cons in Hrev as [Hc1 _]. by rewrite eqb_equals_sign.
    + apply Forall_cons in Hrev as [Hc1 _]. by rewrite eqb_equals_sign.
  - destruct (reverse body) as [|c2 rest] eqn:E.
    + apply (f_equal reverse) in E. rewrite reverse_involutive in E. by subst.
    + rewrite Ascii.eqb_refl. apply Forall_cons in Hrev as [Hc2 _].
      rewrite eqb_equals_sign by done. rewrite <- E. apply reverse_involutive.
  - rewrite !Ascii.eqb_refl. apply reverse_involutive.
Qed.

Lemma mapM_sextet_code sextets :
  Forall (λ a, 0 ≤ a < 64) sextets → mapM sextet (code <$> sextets) = Some sextets.
Proof.
  induction 1 as [|a l Ha _ IH]; [done|].
  rewrite fmap_cons. cbn [mapM]. destruct (code_spec a Ha) as (_ & -> & _).
  cbn. rewrite IH. done.
Qed.

(** Decoding what [arrayBufferToBase64] has encoded gives the bytes
    back, as a binary string. *)
Lemma atob_arrayBufferToBase64 bytes :
  atob (arrayBufferToBase64 bytes) = Some (arrayBufferToBinaryString bytes).
Proof.
  destruct (base64_structure bytes) as (sx & Htext & Hrange & Hlen & Hdec).
  set (k := ((3 - length bytes mod 3) mod 3)%nat) in *.
  assert (Hk : (k ≤ 2)%nat).
  { pose proof (Nat.mod_upper_bound (3 - length bytes mod 3) 3). unfold k. lia. }
  assert (Hcodes : Forall (λ c, is_whitespace c = false ∧ c ≠ equals_sign) (code <$> sx)).
  { apply Forall_fmap. eapply Forall_impl; [exact Hrange|].
    intros a Ha. simpl. destruct (code_spec a Ha) as (_ & _ & ? & ? & _). done. }
  unfold atob. rewrite Htext.
  rewrite filter_all.
  2:{ apply Forall_app. split.
      - eapply Forall_impl; [exact Hcodes|]. by intros c [? _].
      - apply Forall_replicate. reflexivity. }
  rewrite strip_padding_spec.
  - rewrite length_fmap.
    assert ((length sx mod 4 =? 1)%nat = false) as ->.
    { apply Nat.eqb_neq. intros Hone.
      pose proof (Nat.div_mod_eq (length sx) 4) as Hdm. rewrite Hone in Hdm. lia. }
    rewrite mapM_sextet_code by done. simpl. by rewrite Hdec.
  - eapply Forall_impl; [exact Hcodes|]. by intros c [_ ?].
  - done.
  - rewrite length_fmap, Hlen. by rewrite Nat.mul_comm, Nat.Div0.mod_mul.
Qed.
End base64_decoding.

(** X1. The text [arrayBufferToBase64] makes of a buffer of [n]
    bytes has [4 * ceil(n / 3)] characters: characters of the 64-letter
    alphabet, followed by as many [=] as bytes are missing to a multiple of
    three (none, one or two). *)
Theorem arrayBufferToBase64_shape (arrayBuffer : ArrayBufferUtil.ArrayBuffer) :
  let n := length arrayBuffer in
  let padding := ((3 - n mod 3) mod 3)%nat in
  ∃ body,
    ArrayBufferUtil.arrayBufferToBase64 arrayBuffer
    = body ++ replicate padding ArrayBufferUtil.equals_sign ∧
    Forall (λ c, c ∈ ArrayBufferUtil.encodings) body ∧
    length (ArrayBufferUtil.arrayBufferToBase64 arrayBuffer) = (4 * ((n + 2) / 3))%nat ∧
    (padding ≤ 2)%nat.
Proof.
  intros n padding.
  destruct (base64_structure arrayBuffer) as (sx & Htext & Hrange & Hlen & _).
  exists (code <$> sx). split_and!.
  - exact Htext.
  - apply Forall_fmap. eapply Forall_impl; [exact Hrange|].
    intros a Ha. simpl. by destruct (code_spec a Ha) as (_ & _ & _ & _ & ?).
  - rewrite Htext, length_app, length_fmap, length_replicate. exact Hlen.
  - pose proof (Nat.mod_upper_bound (3 - n mod 3) 3). unfold padding. lia.
Qed.

(** X2. Decoding undoes encoding: [atob] of the text
    [arrayBufferToBase64] makes of a buffer is the binary string
    [arrayBufferToBinaryString] makes of it, and [base64ToArrayBuffer] gives
    the buffer back. *)
Theorem base64ToArrayBuffer_arrayBufferToBase64 (arrayBuffer : ArrayBufferUtil.ArrayBuffer) :
  ArrayBufferUtil.atob (ArrayBufferUtil.arrayBufferToBase64 arrayBuffer)
  = Some (ArrayBufferUtil.arrayBufferToBinaryString arrayBuffer) ∧
  ArrayBufferUtil.base64ToArrayBuffer (ArrayBufferUtil.arrayBufferToBase64 arrayBuffer)
  = Some arrayBuffer.
Proof.
  split; [apply atob_arrayBufferToBase64|].
  unfold ArrayBufferUtil.base64ToArrayBuffer. rewrite atob_arrayBufferToBase64.
  unfold ArrayBufferUtil.arrayBufferToBinaryString. f_equal.
  rewrite <- list_fmap_compose. rewrite <- (list_fmap_id arrayBuffer) at 2.
  apply list_fmap_ext. intros _ b _. apply byte_of_ascii_of_byte.
Qed.

(** X3. Two buffers with the same base64 text are the same
    buffer. *)
Theorem arrayBufferToBase64_injective (a b : ArrayBufferUtil.ArrayBuffer) :
  ArrayBufferUtil.arrayBufferToBase64 a = ArrayBufferUtil.arrayBufferToBase64 b → a = b.
Proof.
  intros Heq. apply (f_equal ArrayBufferUtil.atob) in Heq.
  rewrite !atob_arrayBufferToBase64 in Heq. injection Heq as Heq.
  apply (f_equal (fmap byte_of_ascii)) in Heq.
  unfold ArrayBufferUtil.arrayBufferToBinaryString in Heq.
  rewrite <- !list_fmap_compose in Heq.
  assert (Hid : ∀ l : list Byte.byte, (byte_of_ascii ∘ ascii_of_byte) <$> l = l).
  { intros l. rewrite <- (list_fmap_id l) at 2.
    apply list_fmap_ext. intros _ x _. apply byte_of_ascii_of_byte. }
  by rewrite !Hid in Heq.
Qed.

Lemma arrayBufferToBase64_injective_witness :
  ArrayBufferUtil.arrayBufferToBase64 [Byte.x4d; Byte.x61]
  = ArrayBufferUtil.arrayBufferToBase64 [Byte.x4d; Byte.x61] ∧
  [Byte.x4d; Byte.x61] = [Byte.x4d; Byte.x61].
Proof.
  split; [reflexivity|].
  apply (arrayBufferToBase64_injective [Byte.x4d; Byte.x61] [Byte.x4d; Byte.x61]).
  reflexivity.
Defined.

(* ================================================================== *)
(** * Lookups over one index                                            *)
(* ================================================================== *)

Section single_index.
Context {TItem TResult : Type}.
Variables (tableName indexName : string) (items : list TItem).
Variable createQuery : TItem → jsval.
Variable p : doc → TItem → bool.
Variable g : doc → FindMultiBulkData TItem → TResult.
Variable st : Database.t.



End single_index.

Section matching.
(** What [=] means for a string key: the stored value is that string, or
    an array or object whose JSON text it is. *)
Lemma matches_str field s r :
  Sqlite.matches field (JStr s) r = true ↔
  Sqlite.of_json (prop (Sqlite.data r) field) = Sqlite.Text s.
Proof.
  unfold Sqlite.matches, Sqlite.json_extract, Sqlite.bind_param. simpl.
  destruct (Sqlite.of_json _) as [|n|t]; simpl; try (split; [done|by intros ?]).
  rewrite bool_decide_eq_true. split; [by intros ->|by intros [= ->]].
Qed.

Lemma has_true dictionaries v :
  has dictionaries v = true ↔ ∃ name, v = JStr name ∧ name ∈ dictionaries.
Proof.
  unfold has. destruct v; try (split; [done|by intros (? & ? & ?)]).
  rewrite bool_decide_eq_true. split; [eauto|by intros (? & [= ->] & ?)].
Qed.

End matching.









(** X8. Every entry [findTermsBulk] returns, for any match
    type and any order in which its sub-queries complete, is made from a
    stored term of an enabled dictionary whose index field is equal to the
    key built from the term at the position of the entry: the term itself
    for an exact lookup, the term followed by [%] for a prefix lookup, the
    reversed term followed by [%] for a suffix lookup.  The field is the
    expression (or its reverse) when the match source is the term, the
    reading (or its reverse) otherwise.  An entry of a prefix lookup is
    never marked exact. *)
Theorem findTermsBulk_entries_match_key
    (order : list (nat * nat)) (termList : list jstring) (dictionaries : gset jstring)
    (matchType : MatchType) (st : Database.t) (name : string) :
  _handle st = Some name → has_table (connected st) "terms" →
  ∃ entries,
    findTermsBulk_in order termList dictionaries matchType st = Ok entries ∧
    ∀ e, e ∈ entries →
      ∃ term row indexName,
        termList !! te_index e = Some term ∧
        row ∈ Sqlite.rows_of (connected st) "terms" ∧
        te_id e = JNum (Sqlite.id row) ∧
        (∃ dictionary, te_dictionary e = JStr dictionary ∧ dictionary ∈ dictionaries) ∧
        findTermsBulk_indexNames matchType
          !! (match te_matchSource e with Term => 0 | _ => 1 end)%nat = Some indexName ∧
        Sqlite.of_json (prop (Sqlite.data row) indexName)
        = Sqlite.Text (match matchType with
                       | Exact => term
                       | Prefix => term ++ [percent]
                       | Suffix => stringReverse term ++ [percent]
                       end) ∧
        (matchType = Prefix → te_matchType e = Prefix).
Proof.
  intros Hh Ht. unfold findTermsBulk_in.
  rewrite (findMultiBulk_in_feed _ _ _ _ _ _ _ name) by done.
  destruct (feed_visited dictionaries (_createTermGeneric matchType) (λ _ _, eq_refl)
              (observed "terms" (findTermsBulk_indexNames matchType) termList
                        (findTermsBulk_createQuery matchType) (connected st) order) [])
    as (v' & entries & Hrun & _ & _ & _ & Hfirst).
  rewrite Hrun. exists entries. split; [done|].
  intros e He. destruct (Hfirst e He) as (before & h & after & Hseen & _ & ->).
  assert (Hin : h ∈ filter (λ h : doc * FindMultiBulkData jstring,
                              has dictionaries (prop h.1 "dictionary") = true)
                    (observed "terms" (findTermsBulk_indexNames matchType) termList
                       (findTermsBulk_createQuery matchType) (connected st) order)).
  { rewrite Hseen. apply elem_of_app. right. left. }
  apply list_elem_of_filter in Hin as [Hen Hin].
  apply elem_of_observed in Hin
    as (i & j & term & indexName & row & _ & Hi & Hj & Hrow & Hm & ->).
  cbn [fst snd] in *.
  rewrite prop_parse_row in Hen by done. apply has_true in Hen.
  assert (Hkey : findTermsBulk_createQuery matchType term
                 = JStr (match matchType with
                         | Exact => term
                         | Prefix => term ++ [percent]
                         | Suffix => stringReverse term ++ [percent]
                         end)) by by destruct matchType.
  rewrite Hkey in Hm. apply matches_str in Hm.
  exists term, row, indexName.
  unfold _createTermGeneric, _createTerm.
  cbn [te_index te_id te_dictionary te_matchSource te_matchType itemIndex indexIndex item].
  rewrite (prop_parse_row row "dictionary") by done.
  split_and!; try done.
  - unfold prop, parse_row. by rewrite lookup_insert_eq.
  - destruct j as [|[|j]].
    + by rewrite bool_decide_eq_true_2.
    + by rewrite bool_decide_eq_false_2.
    + by destruct matchType.
  - intros ->. simpl in Hj.
    assert (Hfield : (if bool_decide (j = 0%nat)
                      then prop (parse_row row) "expression"
                      else prop (parse_row row) "reading")
                     = prop (Sqlite.data row) indexName).
    { destruct j as [|[|j]]; simpl in Hj; [| |done]; injection Hj as <-;
        [rewrite bool_decide_eq_true_2 by done|rewrite bool_decide_eq_false_2 by done];
        by rewrite prop_parse_row. }
    rewrite Hfield.
    destruct (strict_eq (prop (Sqlite.data row) indexName) (JStr term)) eqn:E; [|done].
    apply strict_eq_str_true in E. rewrite E in Hm. simpl in Hm.
    injection Hm as Hm. apply (f_equal length) in Hm. rewrite length_app in Hm.
    simpl in Hm. lia.
Qed.

Lemma findTermsBulk_entries_match_key_witness :
  _handle Sample.store = Some _dbName ∧ has_table (connected Sample.store) "terms" ∧
  ∃ entries,
    findTermsBulk_in [(0, 1); (0, 0)]%nat [Sample.cat] {[ js "d" ]} Prefix Sample.store
    = Ok entries.
Proof.
  split; [exact sample_handle|]. split; [exact sample_terms|].
  destruct (findTermsBulk_entries_match_key [(0, 1); (0, 0)]%nat [Sample.cat] {[ js "d" ]}
              Prefix Sample.store _dbName sample_handle sample_terms)
    as (entries & Hrun & _).
  exists entries. exact Hrun.
Defined.

Section find_facts.
Implicit Types (st : Database.t).

(** [find] looks at the first row with the key, and at no other. *)
Lemma find_first {TArg D} tn field q (predicate : option (doc → TArg → bool))
      (arg : TArg) (dflt : D) st name :
  _handle st = Some name → has_table (connected st) tn → field ≠ EmptyString →
  find tn (Some field) q predicate arg dflt st
  = Ok (match filter (λ r, Sqlite.matches field (query_key q) r = true)
                     (Sqlite.rows_of (connected st) tn) with
        | [] => inr dflt
        | row :: _ =>
            match predicate with
            | Some p => if p (Sqlite.data row) arg then inl (Sqlite.data row) else inr dflt
            | None => inl (Sqlite.data row)
            end
        end).
Proof.
  intros Hh Ht Hf. unfold find. rewrite Hh.
  rewrite bool_decide_eq_false_2 by done.
  rewrite (execute_open _ _ _ Hh), (select_eq_rows _ _ _ _ Ht). simpl.
  destruct (filter _ _) as [|row rows]; [done|].
  destruct predicate as [p|]; [|done]. by destruct (p _ _).
Qed.

Lemma filter_head {A} (P : A → Prop) `{!∀ x, Decision (P x)} (l : list A) x rest :
  filter P l = x :: rest →
  ∃ before after, l = before ++ x :: after ∧ P x ∧ ∀ y, y ∈ before → ¬ P y.
Proof.
  induction l as [|y l IH]; [done|]. rewrite filter_cons.
  destruct (decide (P y)) as [Hy|Hy].
  - intros [= -> <-]. exists [], l. split_and!; try done. by intros ? ?%elem_of_nil.
  - intros Hf. destruct (IH Hf) as (before & after & -> & Hx & Hb).
    exists (y :: before), after. split_and!; try done.
    intros z [->|Hz]%elem_of_cons; [done|by apply Hb].
Qed.

Lemma filter_first {A} (P : A → Prop) `{!∀ x, Decision (P x)} (before after : list A) x :
  P x → (∀ y, y ∈ before → ¬ P y) →
  filter P (before ++ x :: after) = x :: filter P after.
Proof.
  intros Hx Hb. rewrite filter_app, filter_cons_True by done.
  by rewrite (filter_none P before Hb).
Qed.
End find_facts.

(** X9. On an open store [findTagForTitle(name, dictionary)]
    does not throw, and its answer is decided by the first stored tag with
    that name alone: the answer is that tag when its dictionary is the one
    asked for, and [null] when it is not, whatever tags follow.  So a tag
    that is returned has the name and the dictionary asked for, and [null]
    is returned when no tag has both. *)
Theorem findTagForTitle_first_named
    (tagName dictionary : jstring) (st : Database.t) (name : string) :
  _handle st = Some name → has_table (connected st) "tagMeta" →
  let rows := Sqlite.rows_of (connected st) "tagMeta" in
  ∃ answer,
    findTagForTitle tagName dictionary st = Ok answer ∧
    (∀ before row after,
        rows = before ++ row :: after →
        Sqlite.matches "name" (JStr tagName) row = true →
        (∀ r, r ∈ before → Sqlite.matches "name" (JStr tagName) r = false) →
        answer = if strict_eq (prop (Sqlite.data row) "dictionary") (JStr dictionary)
                 then inl (Sqlite.data row) else inr JNull) ∧
    (∀ tag, answer = inl tag →
            Sqlite.of_json (prop tag "name") = Sqlite.Text tagName ∧
            prop tag "dictionary" = JStr dictionary) ∧
    ((∀ row, row ∈ rows → Sqlite.matches "name" (JStr tagName) row = true →
             prop (Sqlite.data row) "dictionary" ≠ JStr dictionary) →
     answer = inr JNull) ∧
    (∀ v, answer = inr v → v = JNull).
Proof.
  intros Hh Ht rows. unfold findTagForTitle.
  rewrite (find_first _ _ _ _ _ _ _ name) by done. cbn [query_key]. fold rows.
  eexists. split; [reflexivity|].
  destruct (filter _ rows) as [|first named] eqn:Ef.
  - split_and!.
    + intros before row after Hrows Hm _.
      assert (row ∈ filter (λ r, Sqlite.matches "name" (JStr tagName) r = true) rows) as Hin.
      { apply list_elem_of_filter. split; [done|]. rewrite Hrows.
        apply elem_of_app. right. left. }
      rewrite Ef in Hin. by apply elem_of_nil in Hin.
    + by intros tag.
    + done.
    + by intros v [= <-].
  - destruct (filter_head _ _ _ _ Ef) as (b0 & a0 & Hrows0 & Hm0 & Hb0).
    split_and!.
    + intros before row after Hrows Hm Hb.
      rewrite Hrows in Ef. rewrite filter_first in Ef; [|done|].
      * by injection Ef as <- _.
      * intros y Hy. rewrite (Hb y Hy). done.
    + intros tag. destruct (strict_eq _ _) eqn:E; [|done]. intros [= <-].
      split; [by apply matches_str|by apply strict_eq_str_true].
    + intros Hnone. rewrite strict_eq_str_false; [done|].
      apply Hnone; [|done]. rewrite Hrows0. apply elem_of_app. right. left.
    + intros v. by destruct (strict_eq _ _); intros [= <-].
Qed.

Lemma findTagForTitle_first_named_witness :
  _handle Sample.store = Some _dbName ∧ has_table (connected Sample.store) "tagMeta" ∧
  ∃ answer, findTagForTitle (js "n") (js "B") Sample.store = Ok answer.
Proof.
  split; [exact sample_handle|]. split; [exact sample_tagMeta|].
  destruct (findTagForTitle_first_named (js "n") (js "B") Sample.store _dbName
              sample_handle sample_tagMeta) as (answer & Hrun & _).
  exists answer. exact Hrun.
Defined.

Lemma dictionaryExists_spec (title : jstring) (st : Database.t) (name : string) :
  _handle st = Some name → has_table (connected st) "dictionaries" →
  ∃ answer,
    dictionaryExists title st = Ok answer ∧
    (answer = true ↔
     ∃ row, row ∈ Sqlite.rows_of (connected st) "dictionaries" ∧
            Sqlite.of_json (prop (Sqlite.data row) "title") = Sqlite.Text title).
Proof.
  intros Hh Ht. unfold dictionaryExists.
  rewrite (find_first _ _ _ _ _ _ _ name) by done. cbn [query_key].
  destruct (filter _ _) as [|first named] eqn:Ef; simpl.
  - exists false. split; [done|]. split; [done|].
    intros (row & Hrow & Hm). apply matches_str in Hm.
    assert (row ∈ filter (λ r, Sqlite.matches "title" (JStr title) r = true)
                         (Sqlite.rows_of (connected st) "dictionaries")) as Hin
      by by apply list_elem_of_filter.
    rewrite Ef in Hin. by apply elem_of_nil in Hin.
  - exists true. split; [done|]. split; [|done]. intros _.
    assert (first ∈ filter (λ r, Sqlite.matches "title" (JStr title) r = true)
                           (Sqlite.rows_of (connected st) "dictionaries")) as Hin
      by (rewrite Ef; left).
    apply list_elem_of_filter in Hin as [Hm Hin]. exists first. split; [done|].
    by apply matches_str.
Qed.

(** X10. On an open store [dictionaryExists(title)] does not
    throw, and answers [true] exactly when some row of the manifest has that
    title. *)
Theorem dictionaryExists_iff (title : jstring) (st : Database.t) (name : string) :
  _handle st = Some name → has_table (connected st) "dictionaries" →
  ∃ answer,
    dictionaryExists title st = Ok answer ∧
    (answer = true ↔
     ∃ row, row ∈ Sqlite.rows_of (connected st) "dictionaries" ∧
            Sqlite.of_json (prop (Sqlite.data row) "title") = Sqlite.Text title).
Proof. apply dictionaryExists_spec. Qed.

Lemma dictionaryExists_iff_witness :
  _handle Sample.store = Some _dbName ∧ has_table (connected Sample.store) "dictionaries" ∧
  ∃ answer, dictionaryExists (js "d") Sample.store = Ok answer.
Proof.
  split; [exact sample_handle|]. split; [exact sample_dictionaries|].
  destruct (dictionaryExists_iff (js "d") Sample.store _dbName
              sample_handle sample_dictionaries) as (answer & Hrun & _).
  exists answer. exact Hrun.
Defined.

(* ================================================================== *)
(** * What a migration adds and what it keeps                           *)
(* ================================================================== *)

Section growing.
Implicit Types (st : Database.t) (d : Sqlite.db).

Lemma extends_refl d : extends d d.
Proof. by split_and!. Qed.

Lemma extends_trans d1 d2 d3 : extends d1 d2 → extends d2 d3 → extends d1 d3.
Proof.
  intros (T1 & I1 & R1) (T2 & I2 & R2). split_and!.
  - by etrans.
  - by etrans.
  - intros tb. by rewrite R2, R1.
Qed.

Lemma extends_has_table d d' tn : extends d d' → has_table d tn → has_table d' tn.
Proof.
  intros (T & _ & _) [t Ht]. exists t. by eapply lookup_weaken.
Qed.

Lemma extends_has_index d d' tn i : extends d d' → has_index d tn i → has_index d' tn i.
Proof.
  intros (_ & I & _) [x Hx]. exists x. by eapply lookup_weaken.
Qed.

Lemma extends_up_to_date d d' tn ts :
  extends d d' → up_to_date d tn ts → up_to_date d' tn ts.
Proof.
  intros He [Ht Hi]. split; [by eapply extends_has_table|].
  intros i Hin. eapply extends_has_index; [done|by apply Hi].
Qed.

Lemma create_table_extends tn a d : extends d (Sqlite.create_table tn a d).
Proof.
  unfold Sqlite.create_table. destruct (Sqlite.tables d !! tn) eqn:E.
  { apply extends_refl. }
  split_and!; simpl; [by apply insert_subseteq|done|].
  intros tb. unfold Sqlite.rows_of. simpl.
  destruct (decide (tn = tb)) as [<-|Hne].
  - by rewrite lookup_insert_eq, E.
  - by rewrite lookup_insert_ne.
Qed.

Lemma create_index_extends tn i d d' :
  Sqlite.create_index tn i d = Ok d' →
  extends d d' ∧ Sqlite.user_version d' = Sqlite.user_version d.
Proof.
  unfold Sqlite.create_index.
  destruct (Sqlite.indices d !! Sqlite.index_name tn i) eqn:E.
  { intros [= <-]. split; [apply extends_refl|done]. }
  unfold Sqlite.get_table. destruct (Sqlite.tables d !! tn); [|done].
  simpl. intros [= <-]. split; [|done].
  split_and!; simpl; [done|by apply insert_subseteq|done].
Qed.

Lemma set_user_version_extends v d : extends d (Sqlite.set_user_version v d).
Proof. by split_and!. Qed.

Lemma grows_trans name st1 st2 st3 :
  _handle st2 = Some name →
  grows name st1 st2 → grows name st2 st3 → grows name st1 st3.
Proof.
  intros Hh2 (H2 & O2 & E2 & D2) (H3 & O3 & E3 & D3).
  split_and!; [done|congruence| |].
  - eapply extends_trans; [exact E2|].
    replace (connected st2) with (database st2 name); [done|].
    unfold connected. by rewrite Hh2.
  - intros other Hne. by rewrite D3, D2.
Qed.

Lemma grows_refl name st : _handle st = Some name → grows name st st.
Proof.
  intros Hh. split_and!; try done.
  replace (connected st) with (database st name); [apply extends_refl|].
  unfold connected. by rewrite Hh.
Qed.

(** A statement that only adds to the database makes the store grow. *)
Lemma executeRaw_grows stmt st name d :
  _handle st = Some name → stmt (connected st) = Ok d → extends (connected st) d →
  _executeRaw stmt st = (set_database name d st, Ok tt) ∧
  grows name st (set_database name d st).
Proof.
  intros Hh Hd He. split; [by apply executeRaw_open|].
  split_and!; try done.
  - rewrite (connected_set_database _ _ _ Hh).
    replace (database st name) with (connected st); [done|].
    unfold connected. by rewrite Hh.
  - intros other Hne. simpl. by rewrite lookup_insert_ne.
Qed.

Lemma createIndices_grows tn ts st name :
  _handle st = Some name → has_table (connected st) tn →
  ∃ st', _createIndices tn ts st = (st', Ok tt) ∧ grows name st st' ∧
         Sqlite.user_version (connected st') = Sqlite.user_version (connected st) ∧
         (∀ i, i ∈ indices ts → has_index (connected st') tn i).
Proof.
  intros Hh Ht. unfold _createIndices.
  destruct (for_of_ind
    (λ pre s, grows name st s ∧
              Sqlite.user_version (connected s) = Sqlite.user_version (connected st) ∧
              (∀ i, i ∈ pre → has_index (connected s) tn i))
    (λ indexName, _executeRaw (Sqlite.create_index tn indexName)) (indices ts))
    with st as (st' & Hrun & HI).
  - intros pre i s (Hg & Hu & Hpre) _.
    assert (Hs : _handle s = Some name) by apply Hg.
    assert (Hcs : connected s = database s name) by (unfold connected; by rewrite Hs).
    assert (Hcst : connected st = database st name) by (unfold connected; by rewrite Hh).
    assert (Hts : has_table (connected s) tn).
    { eapply extends_has_table; [apply Hg|]. by rewrite <- Hcst. }
    destruct (create_index_spec tn i (connected s) Hts) as (d' & Hd & _ & _ & Hi & _).
    destruct (create_index_extends _ _ _ _ Hd) as [He Hu'].
    destruct (executeRaw_grows _ s name d' Hs Hd He) as [Hrun Hg'].
    exists (set_database name d' s). split; [done|].
    rewrite (connected_set_database _ _ _ Hs). split_and!.
    + by eapply grows_trans.
    + congruence.
    + intros k [Hk|Hk%list_elem_of_singleton]%elem_of_app; [|by subst].
      eapply extends_has_index; [exact He|by apply Hpre].
  - split_and!; [by apply grows_refl|done|]. by intros i ?%elem_of_nil.
  - exists st'. destruct HI as (?&?&?). by split_and!.
Qed.

Lemma createOrUpdateTable_grows tn ts st name :
  _handle st = Some name →
  ∃ st', _createOrUpdateTable tn ts st = (st', Ok tt) ∧ grows name st st' ∧
         Sqlite.user_version (connected st') = Sqlite.user_version (connected st) ∧
         up_to_date (connected st') tn ts.
Proof.
  intros Hh. unfold _createOrUpdateTable.
  assert (Hread : read (_tableExists tn) st
                  = (st, Ok (Sqlite.table_exists tn (connected st)))).
  { unfold read, _tableExists. by rewrite (execute_open _ _ _ Hh). }
  rewrite (bind_ok _ _ _ _ _ Hread).
  assert (∃ st1, (if negb (Sqlite.table_exists tn (connected st))
                  then _createTable tn ts else mret tt) st = (st1, Ok tt) ∧
                 grows name st st1 ∧ has_table (connected st1) tn ∧
                 Sqlite.user_version (connected st1) = Sqlite.user_version (connected st))
    as (st1 & Hstep & Hg1 & Ht1 & Hu1).
  { unfold Sqlite.table_exists.
    destruct (decide (is_Some (Sqlite.tables (connected st) !! tn))) as [Hex|Hnex].
    - rewrite bool_decide_eq_true_2 by done. exists st.
      split_and!; [done|by apply grows_refl|done|done].
    - rewrite bool_decide_eq_false_2 by done. simpl.
      set (d1 := Sqlite.create_table tn (autoIncrement (primaryKey ts)) (connected st)).
      destruct (executeRaw_grows
                  (λ d, Ok (Sqlite.create_table tn (autoIncrement (primaryKey ts)) d))
                  st name d1 Hh eq_refl (create_table_extends _ _ _)) as [Hrun Hg].
      exists (set_database name d1 st). unfold _createTable.
      rewrite (connected_set_database _ _ _ Hh). split_and!; [done|done| |].
      + unfold d1, Sqlite.create_table, has_table.
        destruct (Sqlite.tables (connected st) !! tn) eqn:E; [by rewrite E|].
        simpl. rewrite lookup_insert_eq. eauto.
      + unfold d1, Sqlite.create_table.
        by destruct (Sqlite.tables (connected st) !! tn). }
  rewrite (bind_ok _ _ _ _ _ Hstep).
  assert (Hh1 : _handle st1 = Some name) by apply Hg1.
  destruct (createIndices_grows tn ts st1 name Hh1 Ht1) as (st' & Hrun & Hg & Hu & Hi).
  exists st'. split_and!; [done|by eapply grows_trans|congruence|].
  split; [|done]. eapply extends_has_table; [apply Hg|].
  replace (database st1 name) with (connected st1); [done|].
  unfold connected. by rewrite Hh1.
Qed.

Lemma grows_up_to_date name st st' tn ts :
  _handle st = Some name → grows name st st' →
  up_to_date (connected st) tn ts → up_to_date (connected st') tn ts.
Proof.
  intros Hh (_ & _ & He & _). apply extends_up_to_date.
  replace (connected st) with (database st name); [done|].
  unfold connected. by rewrite Hh.
Qed.

Lemma applySchemaChanges_grows schema st name :
  _handle st = Some name →
  ∃ st', _applySchemaChanges schema st = (st', Ok tt) ∧ grows name st st' ∧
         Sqlite.user_version (connected st') = Sqlite.user_version (connected st) ∧
         (∀ tn ts, (tn, ts) ∈ stores schema → up_to_date (connected st') tn ts).
Proof.
  intros Hh. unfold _applySchemaChanges.
  destruct (for_of_ind
    (λ pre s, grows name st s ∧
              Sqlite.user_version (connected s) = Sqlite.user_version (connected st) ∧
              (∀ tn ts, (tn, ts) ∈ pre → up_to_date (connected s) tn ts))
    (λ '(tableName, tableSchema), _createOrUpdateTable tableName tableSchema)
    (stores schema)) with st as (st' & Hrun & HI).
  - intros pre [tn ts] s (Hg & Hu & Hpre) _.
    assert (Hs : _handle s = Some name) by apply Hg.
    destruct (createOrUpdateTable_grows tn ts s name Hs) as (s' & Hrun & Hg' & Hu' & Hup).
    exists s'. split; [done|]. split_and!.
    + by eapply grows_trans.
    + congruence.
    + intros tn' ts' [Hk|Hk%list_elem_of_singleton]%elem_of_app.
      * eapply grows_up_to_date; [exact Hs|exact Hg'|by apply Hpre].
      * by injection Hk as -> ->.
  - split_and!; [by apply grows_refl|done|]. by intros tn ts ?%elem_of_nil.
  - exists st'. destruct HI as (?&?&?). by split_and!.
Qed.

Lemma migration_step_grows schema st name :
  _handle st = Some name →
  ∃ st', migration_step schema st = (st', Ok tt) ∧ grows name st st' ∧
         Sqlite.user_version (connected st') = version schema ∧
         (∀ tn ts, (tn, ts) ∈ stores schema → up_to_date (connected st') tn ts).
Proof.
  intros Hh. unfold migration_step.
  destruct (applySchemaChanges_grows schema st name Hh) as (st1 & Hrun & Hg1 & _ & Hup).
  rewrite (bind_ok _ _ _ _ _ Hrun).
  assert (Hh1 : _handle st1 = Some name) by apply Hg1.
  destruct (executeRaw_grows (λ d, Ok (Sqlite.set_user_version (version schema) d))
              st1 name _ Hh1 eq_refl (set_user_version_extends _ _)) as [Hrun2 Hg2].
  eexists. split; [exact Hrun2|]. split_and!.
  - by eapply grows_trans.
  - by rewrite (connected_set_database _ _ _ Hh1).
  - intros tn ts Hin. eapply grows_up_to_date; [exact Hh1|exact Hg2|by apply Hup].
Qed.

(** The loop of [_performMigrations] over the entries it applies. *)
Lemma migration_loop_grows l st name :
  _handle st = Some name →
  ∃ st', for_of l migration_step st = (st', Ok tt) ∧ grows name st st' ∧
         Sqlite.user_version (connected st')
         = default (Sqlite.user_version (connected st)) (version <$> last l) ∧
         (∀ schema tn ts, schema ∈ l → (tn, ts) ∈ stores schema →
                          up_to_date (connected st') tn ts).
Proof.
  intros Hh.
  destruct (for_of_ind
    (λ pre s, grows name st s ∧
              Sqlite.user_version (connected s)
              = default (Sqlite.user_version (connected st)) (version <$> last pre) ∧
              (∀ schema tn ts, schema ∈ pre → (tn, ts) ∈ stores schema →
                               up_to_date (connected s) tn ts))
    migration_step l) with st as (st' & Hrun & HI).
  - intros pre schema s (Hg & Hu & Hpre) _.
    assert (Hs : _handle s = Some name) by apply Hg.
    destruct (migration_step_grows schema s name Hs) as (s' & Hrun & Hg' & Hu' & Hup).
    exists s'. split; [done|]. split_and!.
    + by eapply grows_trans.
    + by rewrite last_snoc.
    + intros sch tn ts [Hk|Hk%list_elem_of_singleton]%elem_of_app Hin.
      * eapply grows_up_to_date; [exact Hs|exact Hg'|by eapply Hpre].
      * subst. by apply Hup.
  - split_and!; [by apply grows_refl|done|]. by intros ? ? ? ?%elem_of_nil.
  - exists st'. destruct HI as (?&?&?). by split_and!.
Qed.

(** [open] on a closed store: it succeeds, the file of the store grows,
    every entry of the structure between the stored and the target
    version is applied, and the schema version ends at the highest of
    them. *)
Lemma open_grows name v structure st :
  _handle st = None → _isOpening st = false →
  let before := database st name in
  let applied :=
    if Sqlite.user_version before <? v
    then filter (in_window (Sqlite.user_version before) v) (sort structure) else [] in
  ∃ st1, open name v structure st = (st1, Ok tt) ∧
         _handle st1 = Some name ∧ _isOpening st1 = false ∧
         extends before (connected st1) ∧
         (∀ other, other ≠ name → disk st1 !! other = disk st !! other) ∧
         Sqlite.user_version (connected st1)
         = default (Sqlite.user_version before) (version <$> last applied) ∧
         (∀ schema tn ts, schema ∈ applied → (tn, ts) ∈ stores schema →
                          up_to_date (connected st1) tn ts).
Proof.
  intros Hh Ho before applied. rewrite (open_unfold _ _ _ _ Hh Ho). simpl.
  set (st0 := State (Some name) true (disk st)).
  assert (Hc0 : connected st0 = before) by done.
  assert (Hh0 : _handle st0 = Some name) by done.
  fold before. unfold applied. destruct (Sqlite.user_version before <? v) eqn:E.
  - rewrite performMigrations_window.
    destruct (migration_loop_grows
                (filter (in_window (Sqlite.user_version before) v) (sort structure))
                st0 name Hh0) as (st' & Hrun & (Hh' & Ho' & He & Hd) & Hu & Hup).
    rewrite Hrun. exists (set_isOpening false st').
    assert (Hconn : connected (set_isOpening false st') = connected st') by done.
    rewrite Hconn. split_and!; try done.
  - exists (set_isOpening false st0). split_and!; try done.
    by intros ? ? ? ?%elem_of_nil.
Qed.
End growing.

Section prepare_facts.
Implicit Types (st : Database.t).

Lemma last_elem_of {A} (l : list A) x : last l = Some x → x ∈ l.
Proof.
  intros H. destruct (last_Some l x) as [Hl _]. destruct (Hl H) as [l' ->].
  apply elem_of_app. right. left.
Qed.

(** [prepare] on a closed store: it succeeds; a file that is new gets the
    whole schema, a file that has the seven tables keeps them. *)
Lemma prepare_prepared st :
  _handle st = None → _isOpening st = false →
  (Sqlite.user_version (database st _dbName) < 20 ∨
   ∀ target, target ∈ concat targetGroups → has_table (database st _dbName) target.1) →
  ∃ st1, prepare st = (st1, Ok tt) ∧ prepared st1 ∧ _handle st1 = Some _dbName ∧
         _isOpening st1 = false ∧
         extends (database st _dbName) (connected st1) ∧
         (∀ other, other ≠ _dbName → disk st1 !! other = disk st !! other).
Proof.
  intros Hh Ho Hcase. unfold prepare.
  destruct (open_grows _dbName 60 upgrade st Hh Ho)
    as (st1 & Hrun & Hh1 & Ho1 & He & Hd & Hu & Hup).
  exists st1. split_and!; try done.
  split; [by exists _dbName|]. intros target Htarget.
  destruct Hcase as [Hnew|Hold]; [|by eapply extends_has_table; [exact He|apply Hold]].
  rewrite (proj2 (Z.ltb_lt _ 60)) in Hup by lia.
  assert (∃ schema ts, schema ∈ upgrade ∧ (target.1, ts) ∈ stores schema)
    as (schema & ts & Hs & Hts).
  { assert (Hat : ∀ i j schema store,
              upgrade !! i = Some schema → stores schema !! j = Some store →
              ∃ schema ts, schema ∈ upgrade ∧ (store.1, ts) ∈ stores schema).
    { intros i j schema [tn ts] Hi Hj. exists schema, ts.
      split; by eapply list_elem_of_lookup_2. }
    unfold targetGroups in Htarget. simpl in Htarget.
    rewrite !elem_of_cons, elem_of_nil in Htarget.
    destruct Htarget as [->|[->|[->|[->|[->|[->|[->|[]]]]]]]].
    - exact (Hat 0%nat 1%nat _ _ eq_refl eq_refl).
    - exact (Hat 1%nat 1%nat _ _ eq_refl eq_refl).
    - exact (Hat 0%nat 0%nat _ _ eq_refl eq_refl).
    - exact (Hat 1%nat 0%nat _ _ eq_refl eq_refl).
    - exact (Hat 0%nat 2%nat _ _ eq_refl eq_refl).
    - exact (Hat 4%nat 0%nat _ _ eq_refl eq_refl).
    - exact (Hat 0%nat 3%nat _ _ eq_refl eq_refl). }
  apply (Hup schema target.1 ts); [|done].
  apply list_elem_of_filter. split; [|by apply sort_elem].
  unfold in_window. unfold upgrade in Hs. rewrite !elem_of_cons, elem_of_nil in Hs.
  destruct Hs as [->|[->|[->|[->|[->|[]]]]]]; simpl; lia.
Qed.
End prepare_facts.





(** X13. [prepare] on a closed store whose file is new (its schema
    version is below 20, as that of a file that does not exist yet) succeeds
    and leaves the store open on a database at schema version 60 that has
    the seven tables, each with every index the upgrade structure declares
    for it at any version; the rows of the file and the other files are
    untouched. *)
Theorem prepare_creates_the_schema (st : Database.t) :
  _handle st = None → _isOpening st = false →
  Sqlite.user_version (database st _dbName) < 20 →
  ∃ st1,
    prepare st = (st1, Ok tt) ∧
    isPrepared st1 = true ∧ prepared st1 ∧
    Sqlite.user_version (connected st1) = 60 ∧
    (∀ schema tableName tableSchema,
        schema ∈ upgrade → (tableName, tableSchema) ∈ stores schema →
        up_to_date (connected st1) tableName tableSchema) ∧
    (∀ tableName, Sqlite.rows_of (connected st1) tableName
                  = Sqlite.rows_of (database st _dbName) tableName) ∧
    (∀ other, other ≠ _dbName → disk st1 !! other = disk st !! other).
Proof.
  intros Hh Ho Hnew.
  destruct (prepare_prepared st Hh Ho (or_introl Hnew))
    as (st1 & Hrun & Hprep & Hh1 & Ho1 & He & Hd).
  destruct (open_grows _dbName 60 upgrade st Hh Ho)
    as (st1' & Hrun' & _ & _ & _ & _ & Hu & Hup).
  unfold prepare in Hrun. rewrite Hrun in Hrun'. injection Hrun' as <-.
  rewrite (proj2 (Z.ltb_lt _ 60)) in Hu, Hup by lia.
  assert (Hall : ∀ schema, schema ∈ upgrade →
            in_window (Sqlite.user_version (database st _dbName)) 60 schema).
  { intros schema Hs. unfold in_window, upgrade in *.
    rewrite !elem_of_cons, elem_of_nil in Hs.
    destruct Hs as [->|[->|[->|[->|[->|[]]]]]]; simpl; lia. }
  exists st1. split_and!; try done.
  - unfold isPrepared, isOpen. rewrite Hh1. by apply bool_decide_eq_true_2.
  - destruct (open_ok _dbName 60 upgrade st Hh Ho) as (st1' & Hrun' & _ & _ & Hnone).
    rewrite Hrun in Hrun'. injection Hrun' as <-.
    assert (H60 : ¬ in_window (Sqlite.user_version (connected st1)) 60
                    {| version := 60;
                       stores := [("media", store (Some "id") true ["dictionary"; "path"])] |}).
    { apply Hnone. unfold upgrade. rewrite !elem_of_cons. tauto. }
    unfold in_window in H60. simpl in H60.
    assert (Sqlite.user_version (connected st1) ≤ 60); [|lia].
    rewrite Hu. destruct (last _) as [s|] eqn:El; simpl; [|lia].
    apply last_elem_of, list_elem_of_filter in El as [[? ?] _]. lia.
  - intros schema tn ts Hs Hin. apply (Hup schema); [|done].
    apply list_elem_of_filter. split; [by apply Hall|by apply sort_elem].
  - apply He.
Qed.

Lemma new_file_version : Sqlite.user_version (database (new ∅) _dbName) < 20.
Proof. vm_compute. reflexivity. Qed.

Lemma prepare_creates_the_schema_witness :
  _handle (new ∅) = None ∧ _isOpening (new ∅) = false ∧
  Sqlite.user_version (database (new ∅) _dbName) < 20 ∧
  ∃ st1, prepare (new ∅) = (st1, Ok tt) ∧ prepared st1.
Proof.
  split; [reflexivity|]. split; [reflexivity|]. split; [exact new_file_version|].
  destruct (prepare_creates_the_schema (new ∅) eq_refl eq_refl new_file_version)
    as (st1 & Hrun & _ & Hprep & _).
  exists st1. split; [exact Hrun|exact Hprep].
Defined.

(* ================================================================== *)
(** * Adding rows                                                       *)
(* ================================================================== *)

Section bulkAdd_facts.
Implicit Types (st : Database.t) (items : list doc).



End bulkAdd_facts.



Section stored_items.


End stored_items.








(** X18. What a call of [bulkDelete] on an open store, with
    an index field that is not empty, leaves in the table.  Without
    [filterKeys] it is the rows whose index field does not equal the key,
    in their order.  With [filterKeys] it is the rows whose id is not among
    the keys [filterKeys] hands back, whether or not those are ids of
    matching rows; and when no row matches, [filterKeys] is not called and
    nothing is deleted.  The other tables are never touched. *)
Theorem bulkDelete_leaves_the_other_rows
    {C : Type} (filterKeys : option (list Z → C → list Z * C))
    (onProgress : option (Z → Z → C → C))
    (tableName indexName : string) (query : jsval)
    (st : Database.t) (c : C) (name : string) :
  _handle st = Some name → has_table (connected st) tableName → indexName ≠ EmptyString →
  let rows := Sqlite.rows_of (connected st) tableName in
  let matching := filter (λ r, Sqlite.matches indexName query r = true) rows in
  ∃ st' c',
    bulkDelete filterKeys onProgress tableName (Some indexName) query st c
    = (st', c', Settled (Ok tt)) ∧
    _handle st' = Some name ∧
    Sqlite.rows_of (connected st') tableName
    = match filterKeys with
      | None => filter (λ r, Sqlite.matches indexName query r ≠ true) rows
      | Some f =>
          if decide (matching = []) then rows
          else filter (λ r, Sqlite.id r ∉ (f (Sqlite.id <$> matching) c).1) rows
      end ∧
    (∀ other, other ≠ tableName →
              Sqlite.rows_of (connected st') other = Sqlite.rows_of (connected st) other) ∧
    (∀ tb, has_table (connected st') tb ↔ has_table (connected st) tb).
Proof.
  intros Hh Ht Hi rows matching. unfold bulkDelete.
  rewrite (bulkDelete_call_open _ _ _ _ name) by done.
  fold rows. fold matching. cbn [settle max_awaits bulkDelete_resume].
  destruct (Z.of_nat (length matching) =? 0) eqn:E0.
  { apply Z.eqb_eq in E0. assert (matching = []) as Hnil by (apply nil_length_inv; lia).
    eexists st, _. split; [reflexivity|]. split_and!; try done.
    destruct filterKeys as [f|].
    - by rewrite decide_True.
    - symmetry. apply filter_all. apply Forall_forall. intros r Hr Hm.
      assert (r ∈ matching) as Hin by by apply list_elem_of_filter.
      rewrite Hnil in Hin. by apply elem_of_nil in Hin. }
  apply Z.eqb_neq in E0.
  assert (Hne : matching ≠ []) by (intros Hnil; rewrite Hnil in E0; simpl in E0; lia).
  destruct filterKeys as [f|].
  - rewrite (select_ids_open _ _ _ _ name) by done. fold rows. fold matching.
    cbn [settle bulkDelete_resume].
    destruct (f (Sqlite.id <$> matching) c) as [filteredKeys c1] eqn:Ef.
    rewrite decide_False by done. cbn [fst].
    case_bool_decide as Hlen.
    + eexists st, _. split; [reflexivity|]. split_and!; try done.
      apply nil_length_inv in Hlen. subst filteredKeys. symmetry. apply filter_all.
      apply Forall_forall. intros r _. by intros ?%elem_of_nil.
    + rewrite (executeRaw_open _ _ name _ Hh (delete_in_rows _ _ _ Ht)).
      cbn [settle bulkDelete_resume].
      set (st1 := set_database name _ st).
      assert (Hh1 : _handle st1 = Some name) by done.
      rewrite (executeRaw_open (λ d, Ok d) st1 name (connected st1) Hh1 eq_refl).
      cbn [settle bulkDelete_resume].
      eexists _, _. split; [reflexivity|].
      rewrite (set_database_connected _ _ Hh1). unfold st1.
      rewrite (connected_set_database _ _ _ Hh). split_and!; try done.
      * by rewrite rows_of_set_rows_eq.
      * intros other Hne'. by rewrite rows_of_set_rows_ne.
      * intros tb. apply has_table_set_rows.
  - rewrite (executeRaw_open _ _ name _ Hh (delete_eq_rows _ _ _ _ Ht)).
    cbn [settle bulkDelete_resume].
    eexists _, _. split; [reflexivity|].
    rewrite (connected_set_database _ _ _ Hh). split_and!; try done.
    + by rewrite rows_of_set_rows_eq.
    + intros other Hne'. by rewrite rows_of_set_rows_ne.
    + intros tb. apply has_table_set_rows.
Qed.

Lemma bulkDelete_leaves_the_other_rows_witness :
  _handle Sample.store = Some _dbName ∧ has_table (connected Sample.store) "terms" ∧
  "dictionary" ≠ EmptyString ∧
  ∃ st' c',
    bulkDelete (C := unit) None None "terms" (Some "dictionary") (JStr (js "d"))
               Sample.store tt = (st', c', Settled (Ok tt)).
Proof.
  assert (Hne : "dictionary" ≠ EmptyString) by discriminate.
  split; [exact sample_handle|]. split; [exact sample_terms|]. split; [exact Hne|].
  destruct (bulkDelete_leaves_the_other_rows (C := unit) None None "terms" "dictionary"
              (JStr (js "d")) Sample.store tt _dbName sample_handle sample_terms Hne)
    as (st' & c' & Hrun & _).
  exists st', c'. exact Hrun.
Defined.

Section closed_facts.
Context {C : Type}.
Variable filterKeys : option (list Z → C → list Z * C).
Variable onProgress : option (Z → Z → C → C).

(** Invocations that have settled are left alone by the job queue. *)
Lemma turn_settled (rs : list (result unit)) st (c : C) :
  turn filterKeys onProgress (Settled <$> rs) st c = (st, c, Settled <$> rs).
Proof.
  induction rs as [|r rs IH]; [done|].
  rewrite fmap_cons. cbn [turn]. by rewrite IH.
Qed.

Lemma turns_settled n (rs : list (result unit)) st (c : C) :
  turns filterKeys onProgress n (Settled <$> rs) st c = (st, c, Settled <$> rs).
Proof.
  induction n as [|n IH]; [done|]. cbn [turns]. by rewrite turn_settled, IH.
Qed.
End closed_facts.

(** X19. On a store that is not open, every lookup and every update
    that has something to send to the database throws [Database not open]
    and leaves the store as it is, and [close] throws [Database is not open].
    The bulk lookups and counts that are given nothing to look up return
    nothing without looking at the connection.  [deleteDictionary], which
    catches what its deletions throw, completes: it has deleted nothing and
    sent no message. *)
Theorem closed_store_is_refused (st : Database.t) :
  _handle st = None →
  (∀ (TArg D : Type) tableName indexName query predicate (arg : TArg) (dflt : D),
      find tableName indexName query predicate arg dflt st
      = Throw (Error "Database not open")) ∧
  (∀ tableName, getAllEntries tableName st = Throw (Error "Database not open")) ∧
  (∀ rowid tableName items start count,
      bulkAdd rowid tableName items start count st
      = (st, Throw (Error "Database not open"))) ∧
  (∀ (C : Type) filterKeys onProgress tableName indexName query (c : C),
      bulkDelete filterKeys onProgress tableName indexName query st c
      = (st, c, Settled (Throw (Error "Database not open")))) ∧
  close st = (st, Throw (Error "Database is not open")) ∧
  (∀ (TItem : Type) tableName indexColumns (items : list TItem) createQuery predicate,
      findFirstBulk tableName indexColumns items createQuery predicate st
      = match items with [] => Ok [] | _ => Throw (Error "Database not open") end) ∧
  (∀ (TItem TResult C : Type) tableName indexColumns (items : list TItem) createQuery
     predicate (createResult : doc → FindMultiBulkData TItem → result TResult) (c : C),
      findMultiBulk tableName indexColumns items createQuery predicate createResult st c
      = (c, match items, indexColumns with
            | _ :: _, _ :: _ => Throw (Error "Database not open")
            | _, _ => Ok []
            end)) ∧
  (∀ operations,
      bulkCount operations st
      = match operations with [] => Ok [] | _ => Throw (Error "Database not open") end) ∧
  (∀ dictionaryName progressRate,
      deleteDictionary dictionaryName progressRate st = (st, initial_progress)).
Proof.
  intros Hh. split_and!.
  - intros. unfold find. by rewrite Hh.
  - intros. unfold getAllEntries, _execute. by rewrite Hh.
  - intros. unfold bulkAdd. by rewrite Hh.
  - intros. unfold bulkDelete, bulkDelete_call. by rewrite Hh.
  - unfold close. by rewrite Hh.
  - intros TItem tn field items cq p. unfold findFirstBulk, _execute. rewrite Hh.
    by destruct items.
  - intros TItem TResult C tn idxs items cq p g c. unfold findMultiBulk, findMultiBulk_in.
    destruct items as [|it items]; [done|]. destruct idxs as [|idx idxs].
    { done. }
    simpl. unfold _execute. by rewrite Hh.
  - intros ops. destruct ops as [|op ops]; [done|]. simpl.
    unfold count_one, _execute. rewrite Hh. by destruct (query op) as [q|]; [destruct (truthy _)|].
  - intros dictionaryName progressRate.
    assert (Hgroup : ∀ targets w,
              delete_group dictionaryName progressRate targets st w = (st, w)).
    { intros targets w. unfold delete_group, await_all.
      replace ((λ '(objectStoreName, indexName),
                  bulkDelete_call objectStoreName (Some indexName) (JStr dictionaryName) st)
               <$> targets)
        with (Settled (C := Progress) <$> ((λ _, Throw (Error "Database not open")) <$> targets)).
      - by rewrite turns_settled.
      - rewrite <- list_fmap_compose. apply list_fmap_ext. intros _ [tn field] _.
        simpl. unfold bulkDelete_call. by rewrite Hh. }
    unfold deleteDictionary, targetGroups. simpl. by rewrite !Hgroup.
Qed.

Lemma closed_store_is_refused_witness :
  _handle (new ∅) = None ∧
  deleteDictionary (js "d") 1000 (new ∅) = (new ∅, initial_progress).
Proof.
  split; [reflexivity|].
  exact (proj2 (proj2 (proj2 (proj2 (proj2 (proj2 (proj2 (proj2
           (closed_store_is_refused (new ∅) eq_refl)))))))) (js "d") 1000).
Defined.

(* ================================================================== *)
(** * What deleting a dictionary keeps                                  *)
(* ================================================================== *)

Section keys.
(** In a table whose ids are unique, deleting by the ids of the rows that
    match deletes the rows that match. *)
Lemma filter_ext_in {A} (P Q : A → Prop) `{!∀ x, Decision (P x)} `{!∀ x, Decision (Q x)}
      (l : list A) :
  (∀ x, x ∈ l → (P x ↔ Q x)) → filter P l = filter Q l.
Proof.
  induction l as [|x l IH]; intros Hiff; [done|].
  rewrite !filter_cons. rewrite IH by (intros y Hy; apply Hiff; by right).
  destruct (decide (P x)) as [Hp|Hp], (decide (Q x)) as [Hq|Hq]; try done.
  - destruct Hq. apply (Hiff x); [left|done].
  - destruct Hp. apply (Hiff x); [left|done].
Qed.

Lemma NoDup_fmap_eq {A B} (f : A → B) (l : list A) x y :
  NoDup (f <$> l) → x ∈ l → y ∈ l → f x = f y → x = y.
Proof.
  induction l as [|z l IH]; [by intros _ ?%elem_of_nil|].
  rewrite fmap_cons, NoDup_cons. intros [Hz Hnd] Hx Hy Heq.
  apply elem_of_cons in Hx as [->|Hx]; apply elem_of_cons in Hy as [->|Hy]; try done.
  - destruct Hz. rewrite Heq. by apply list_elem_of_fmap_2.
  - destruct Hz. rewrite <- Heq. by apply list_elem_of_fmap_2.
  - by apply IH.
Qed.

Lemma delete_by_ids (P : Sqlite.row → Prop) `{!∀ r, Decision (P r)} (rows : list Sqlite.row) :
  NoDup (Sqlite.id <$> rows) →
  filter (λ r, Sqlite.id r ∉ Sqlite.id <$> filter P rows) rows
  = filter (λ r, ¬ P r) rows.
Proof.
  intros Hnd. apply filter_ext_in. intros r Hr. split.
  - intros Hid Hp. apply Hid. apply list_elem_of_fmap_2. by apply list_elem_of_filter.
  - intros Hnp Hid. apply list_elem_of_fmap in Hid as (r' & Heq & Hr').
    apply list_elem_of_filter in Hr' as [Hp Hr'].
    assert (r = r') as -> by by eapply (NoDup_fmap_eq Sqlite.id).
    done.
Qed.
End keys.

Section exact_group.
Context {C : Type}.
Variable filterKeys : list Z → C → list Z * C.
Variable onProgress : option (Z → Z → C → C).
Variable key : jsval.
Hypothesis filterKeys_keeps : ∀ keys c, (filterKeys keys c).1 = keys.

Abbreviation resume' := (bulkDelete_resume (Some filterKeys) onProgress).

Lemma deleting_frame rows0 st st' target (p : promise (C := C)) :
  Sqlite.rows_of (connected st') target.1 = Sqlite.rows_of (connected st) target.1 →
  deleting key rows0 st target p → deleting key rows0 st' target p.
Proof.
  intros Hrows. unfold deleting. rewrite Hrows. done.
Qed.

(** Resuming an invocation moves it one [await] on; it touches its own
    table only, and deletes exactly the matching rows when it deletes. *)
Lemma resume_deleting rows0 s st c name target :
  _handle st = Some name → has_table (connected st) target.1 →
  NoDup (Sqlite.id <$> rows0) →
  deleting key rows0 st target (Pending s) →
  ∃ st' c' p',
    resume' s st c = (st', c', p') ∧
    _handle st' = Some name ∧
    (∀ tb, has_table (connected st') tb ↔ has_table (connected st) tb) ∧
    deleting key rows0 st' target p' ∧
    (rank p' < rank (Pending (C := C) s))%nat ∧
    (∀ tb, tb ≠ target.1 →
           Sqlite.rows_of (connected st') tb = Sqlite.rows_of (connected st) tb).
Proof.
  intros Hh Ht Hnd Hin. destruct target as [tn field]. simpl in *.
  destruct s as [tb f q total|tb total keys fk|total keys|total keys|total];
    cbn [bulkDelete_resume]; unfold deleting in Hin; cbn [fst snd] in Hin.
  - destruct Hin as (-> & -> & -> & Hrows & ->).
    destruct (Z.of_nat _ =? 0) eqn:E0.
    { apply Z.eqb_eq in E0. eexists st, _, _. split; [reflexivity|].
      split_and!; [done|done| |simpl; lia|done].
      unfold deleting. cbn [fst snd]. rewrite Hrows. symmetry. apply filter_all.
      apply Forall_forall. intros r Hr Hm.
      assert (r ∈ filter (λ r, Sqlite.matches field key r = true) rows0) as Hmem
        by by apply list_elem_of_filter.
      destruct (filter _ rows0); [by apply elem_of_nil in Hmem|simpl in E0; lia]. }
    rewrite (select_ids_open _ _ _ _ name) by done.
    eexists st, c, _. split; [reflexivity|].
    split_and!; [done|done| |simpl; lia|done].
    unfold deleting. cbn [fst snd]. rewrite Hrows. by split_and!.
  - destruct Hin as (-> & Hfk & Hrows & ->).
    pose proof (Hfk (Sqlite.id <$> filter (λ r, Sqlite.matches field key r = true) rows0) c)
      as Hsame.
    destruct (fk _ c) as [filteredKeys c1] eqn:Efk. simpl in Hsame. subst filteredKeys.
    case_bool_decide as Hlen.
    + eexists st, _, _. split; [reflexivity|].
      split_and!; [done|done| |simpl; lia|done].
      unfold deleting. cbn [fst snd]. rewrite Hrows. symmetry. apply filter_all.
      apply Forall_forall. intros r Hr Hm.
      assert (Sqlite.id r ∈ Sqlite.id <$> filter (λ r, Sqlite.matches field key r = true) rows0)
        as Hmem by (apply list_elem_of_fmap_2; by apply list_elem_of_filter).
      apply nil_length_inv in Hlen. rewrite Hlen in Hmem. by apply elem_of_nil in Hmem.
    + rewrite (executeRaw_open _ _ name _ Hh (delete_in_rows _ _ _ Ht)).
      eexists _, c1, _. split; [reflexivity|].
      rewrite (connected_set_database _ _ _ Hh).
      split_and!; [done| | |simpl; lia|].
      * intros tb. apply has_table_set_rows.
      * unfold deleting. cbn [fst snd]. rewrite (connected_set_database _ _ _ Hh).
        rewrite rows_of_set_rows_eq by done. rewrite Hrows.
        by apply (delete_by_ids (λ r, Sqlite.matches field key r = true)).
      * intros tb Hne. by rewrite rows_of_set_rows_ne.
  - rewrite (executeRaw_open (λ d, Ok d) st name (connected st) Hh eq_refl).
    eexists _, c, _. split; [reflexivity|].
    assert (Hc : connected (set_database name (connected st) st) = connected st)
      by by apply set_database_connected.
    split_and!; [done|by rewrite Hc| |simpl; lia|intros; by rewrite Hc].
    unfold deleting. cbn [fst snd]. by rewrite Hc.
  - eexists st, _, _. split; [reflexivity|].
    split_and!; [done|done|done|simpl; lia|done].
  - eexists st, _, _. split; [reflexivity|].
    split_and!; [done|done|done|simpl; lia|done].
Qed.

Variable rows0 : string → list Sqlite.row.

Abbreviation exactly st :=
  (λ target p, deleting (C := C) key (rows0 target.1) st target p).

(** One turn of the queue over a group of invocations on tables that are
    all different. *)
Lemma turn_deleting targets ps st c name :
  _handle st = Some name →
  (∀ target, target ∈ targets →
     has_table (connected st) target.1 ∧ NoDup (Sqlite.id <$> rows0 target.1)) →
  NoDup targets.*1 →
  Forall2 (exactly st) targets ps →
  ∃ st' c' ps',
    turn (Some filterKeys) onProgress ps st c = (st', c', ps') ∧
    _handle st' = Some name ∧
    (∀ tb, has_table (connected st') tb ↔ has_table (connected st) tb) ∧
    Forall2 (exactly st') targets ps' ∧
    Forall2 (λ p p', (rank p' ≤ pred (rank p))%nat) ps ps' ∧
    (∀ tb, tb ∉ targets.*1 →
           Sqlite.rows_of (connected st') tb = Sqlite.rows_of (connected st) tb).
Proof.
  intros Hh Ht Hnames Hall. revert st c Hh Ht Hall. revert ps.
  induction targets as [|target targets IH]; intros ps st0 c Hh Ht Hall.
  { apply Forall2_nil_inv_l in Hall as ->.
    exists st0, c, []. by split_and!. }
  apply Forall2_cons_inv_l in Hall as (p & ps0 & Hp & Hall & ->).
  rewrite fmap_cons in Hnames. apply NoDup_cons in Hnames as [Hfresh Hnames].
  destruct (Ht target ltac:(left)) as [Htarget Hids].
  assert (∃ st1 c1 p1,
            match p with
            | Pending s => resume' s st0 c
            | Settled r => (st0, c, Settled r)
            end = (st1, c1, p1) ∧
            _handle st1 = Some name ∧
            (∀ tb, has_table (connected st1) tb ↔ has_table (connected st0) tb) ∧
            exactly st1 target p1 ∧
            (rank p1 ≤ pred (rank p))%nat ∧
            (∀ tb, tb ≠ target.1 →
               Sqlite.rows_of (connected st1) tb = Sqlite.rows_of (connected st0) tb))
    as (st1 & c1 & p1 & Hstep & Hh1 & Htb1 & Hin1 & Hrk1 & Hfr1).
  { destruct p as [s|r].
    - destruct (resume_deleting (rows0 target.1) s st0 c name target Hh Htarget Hids Hp)
        as (st1 & c1 & p1 & ? & ? & ? & ? & ? & ?).
      exists st1, c1, p1. split_and!; try done. lia.
    - exists st0, c, (Settled r). split_and!; try done; simpl; lia. }
  destruct (IH Hnames ps0 st1 c1) as (st2 & c2 & ps2 & Hturn & Hh2 & Htb2 & Hin2 & Hrk2 & Hfr2).
  { done. }
  { intros tg Htg. destruct (Ht tg ltac:(by right)) as [? ?]. split; [|done].
    by apply Htb1. }
  { apply Forall2_same_length_lookup. split; [by eapply Forall2_length|].
    intros i tg q Hi Hq.
    pose proof (Forall2_lookup_lr _ _ _ _ _ _ Hall Hi Hq) as Hdel.
    eapply deleting_frame; [|exact Hdel]. apply Hfr1.
    intros Heq. apply Hfresh. rewrite <- Heq. apply list_elem_of_fmap_2.
    by eapply list_elem_of_lookup_2. }
  exists st2, c2, (p1 :: ps2). cbn [turn]. rewrite Hstep, Hturn.
  split_and!; [done|done| | | |].
  - intros tb. by rewrite Htb2, Htb1.
  - constructor; [|done]. eapply deleting_frame; [|exact Hin1]. by apply Hfr2.
  - by constructor.
  - intros tb Htb. rewrite fmap_cons, not_elem_of_cons in Htb. destruct Htb as [Hne Htb].
    rewrite (Hfr2 tb Htb). by apply Hfr1.
Qed.

Lemma turns_deleting n targets ps st c name :
  _handle st = Some name →
  (∀ target, target ∈ targets →
     has_table (connected st) target.1 ∧ NoDup (Sqlite.id <$> rows0 target.1)) →
  NoDup targets.*1 →
  Forall2 (exactly st) targets ps →
  ∃ st' c' ps',
    turns (Some filterKeys) onProgress n ps st c = (st', c', ps') ∧
    _handle st' = Some name ∧
    (∀ tb, has_table (connected st') tb ↔ has_table (connected st) tb) ∧
    Forall2 (exactly st') targets ps' ∧
    Forall2 (λ p p', (rank p' ≤ rank p - n)%nat) ps ps' ∧
    (∀ tb, tb ∉ targets.*1 →
           Sqlite.rows_of (connected st') tb = Sqlite.rows_of (connected st) tb).
Proof.
  intros Hh Ht Hnames. revert ps st c Hh Ht.
  induction n as [|n IH]; intros ps st0 c Hh Ht Hall.
  { exists st0, c, ps. split_and!; try done.
    apply Forall2_same_length_lookup. split; [done|].
    intros i p p' Hp Hp'. assert (p = p') as -> by congruence. lia. }
  destruct (turn_deleting targets ps st0 c name Hh Ht Hnames Hall)
    as (st1 & c1 & ps1 & Hturn & Hh1 & Htb1 & Hin1 & Hrk1 & Hfr1).
  destruct (IH ps1 st1 c1) as (st2 & c2 & ps2 & Hturns & Hh2 & Htb2 & Hin2 & Hrk2 & Hfr2).
  { done. }
  { intros tg Htg. destruct (Ht tg Htg) as [? ?]. split; [by apply Htb1|done]. }
  { done. }
  exists st2, c2, ps2. cbn [turns]. rewrite Hturn, Hturns.
  split_and!; [done|done| |done| |].
  - intros tb. by rewrite Htb2, Htb1.
  - apply Forall2_same_length_lookup. split.
    { rewrite (Forall2_length _ _ _ Hrk1). by apply Forall2_length in Hrk2. }
    intros i p p2 Hp Hp2.
    destruct (Forall2_lookup_l _ _ _ _ _ Hrk1 Hp) as (p1 & Hp1 & Hle1).
    destruct (Forall2_lookup_l _ _ _ _ _ Hrk2 Hp1) as (p2' & Hp2' & Hle2).
    assert (p2' = p2) as -> by congruence. lia.
  - intros tb Htb. rewrite (Hfr2 tb Htb). by apply Hfr1.
Qed.
End exact_group.

Section exact_delete.
(** The invocations of a group, awaited together, leave in every table
    of the group the rows that do not match, and touch no other table. *)
Lemma delete_group_exact dictionaryName progressRate targets st w name :
  _handle st = Some name →
  (∀ target, target ∈ targets →
     has_table (connected st) target.1 ∧ target.2 ≠ EmptyString ∧
     NoDup (Sqlite.id <$> Sqlite.rows_of (connected st) target.1)) →
  NoDup targets.*1 →
  let st' := (delete_group dictionaryName progressRate targets st w).1 in
  _handle st' = Some name ∧
  (∀ tb, has_table (connected st') tb ↔ has_table (connected st) tb) ∧
  (∀ target, target ∈ targets →
     Sqlite.rows_of (connected st') target.1
     = filter (λ r, Sqlite.matches target.2 (JStr dictionaryName) r ≠ true)
              (Sqlite.rows_of (connected st) target.1)) ∧
  (∀ tb, tb ∉ targets.*1 →
         Sqlite.rows_of (connected st') tb = Sqlite.rows_of (connected st) tb).
Proof.
  intros Hh Ht Hnames. unfold delete_group, await_all.
  destruct (turns_deleting filterKeys (Some (onProgressWrapper progressRate))
              (JStr dictionaryName) (λ _ _, eq_refl)
              (λ tb, Sqlite.rows_of (connected st) tb) max_awaits targets
              ((λ '(objectStoreName, indexName),
                  bulkDelete_call objectStoreName (Some indexName)
                                  (JStr dictionaryName) st) <$> targets)
              st w name Hh) as (st' & c' & ps' & Hturns & Hh' & Htb & Hin & Hrk & Hfr).
  { intros tg Htg. destruct (Ht tg Htg) as (? & ? & ?). done. }
  { done. }
  { apply Forall2_fmap_r, Forall_Forall2_diag, Forall_forall.
    intros [tn field] Htg. destruct (Ht _ Htg) as (Htn & Hfield & _). simpl in *.
    rewrite (bulkDelete_call_open _ _ _ _ name) by done.
    unfold deleting. by split_and!. }
  rewrite Hturns. simpl. split_and!; try done.
  intros tg Htg. apply list_elem_of_lookup in Htg as [i Hi].
  destruct (Forall2_lookup_l _ _ _ _ _ Hin Hi) as (p' & Hp' & Hin').
  destruct (Forall2_lookup_r _ _ _ _ _ Hrk Hp') as (p & Hp & Hle).
  assert (rank p ≤ 4)%nat by (destruct p as [[]|]; simpl; lia).
  assert (rank p' = 0%nat) as Hzero by (unfold max_awaits in Hle; lia).
  unfold deleting in Hin'. destruct p' as [[]|[[]|e]]; simpl in Hzero; try done; lia.
Qed.

Lemma NoDup_filter_ids (P : Sqlite.row → Prop) `{!∀ r, Decision (P r)} rows :
  NoDup (Sqlite.id <$> rows) → NoDup (Sqlite.id <$> filter P rows).
Proof.
  induction rows as [|r rows IH]; [done|].
  rewrite fmap_cons, NoDup_cons. intros [Hr Hnd]. rewrite filter_cons.
  destruct (decide (P r)); [|by apply IH].
  rewrite fmap_cons. apply NoDup_cons. split; [|by apply IH].
  intros Hin. apply Hr. apply list_elem_of_fmap in Hin as (r' & -> & Hr').
  apply list_elem_of_fmap_2. by apply list_elem_of_filter in Hr' as [_ ?].
Qed.

(** [deleteDictionary] on a prepared store whose tables have unique ids. *)
Lemma deleteDictionary_exact dictionaryName progressRate st :
  prepared st →
  (∀ target, target ∈ concat targetGroups →
             NoDup (Sqlite.id <$> Sqlite.rows_of (connected st) target.1)) →
  let st' := (deleteDictionary dictionaryName progressRate st).1 in
  _handle st' = _handle st ∧
  (∀ tb, has_table (connected st') tb ↔ has_table (connected st) tb) ∧
  (∀ target, target ∈ concat targetGroups →
     Sqlite.rows_of (connected st') target.1
     = filter (λ r, Sqlite.matches target.2 (JStr dictionaryName) r ≠ true)
              (Sqlite.rows_of (connected st) target.1)) ∧
  (∀ tb, tb ∉ (concat targetGroups).*1 →
         Sqlite.rows_of (connected st') tb = Sqlite.rows_of (connected st) tb).
Proof.
  intros [[name Hh] Htables] Hids.
  set (after_content :=
         delete_group dictionaryName progressRate content_group st initial_progress).
  assert (Hafter : deleteDictionary dictionaryName progressRate st
                   = delete_group dictionaryName progressRate manifest_group
                                  after_content.1 after_content.2).
  { unfold deleteDictionary, after_content, content_group, manifest_group.
    simpl. by destruct (delete_group _ _ _ st initial_progress). }
  assert (Hsplit : ∀ target, target ∈ concat targetGroups ↔
                             target ∈ content_group ∨ target ∈ manifest_group).
  { intros target. unfold targetGroups, content_group, manifest_group. simpl.
    rewrite !elem_of_cons, !elem_of_nil. tauto. }
  assert (Hfields : ∀ target, target ∈ concat targetGroups → target.2 ≠ EmptyString).
  { intros target. unfold targetGroups. simpl. rewrite !elem_of_cons, elem_of_nil.
    intros [->|[->|[->|[->|[->|[->|[->|[]]]]]]]]; done. }
  assert (Hnames : NoDup (concat targetGroups).*1).
  { unfold targetGroups. simpl. apply NoDup_ListNoDup.
    repeat (constructor; [simpl; intuition discriminate|]). constructor. }
  assert (Hnames1 : NoDup content_group.*1).
  { unfold content_group. simpl. apply NoDup_ListNoDup.
    repeat (constructor; [simpl; intuition discriminate|]). constructor. }
  assert (Hnames2 : NoDup manifest_group.*1).
  { unfold manifest_group. simpl. apply NoDup_ListNoDup.
    repeat (constructor; [simpl; intuition discriminate|]). constructor. }
  assert (Hapart : ∀ target, target ∈ manifest_group → target.1 ∉ content_group.*1).
  { intros target. unfold manifest_group, content_group. simpl.
    intros ->%list_elem_of_singleton. simpl.
    rewrite !not_elem_of_cons. split_and!; try done. by intros ?%elem_of_nil. }
  assert (Hapart' : ∀ target, target ∈ content_group → target.1 ∉ manifest_group.*1).
  { intros target. unfold manifest_group, content_group. simpl.
    rewrite !elem_of_cons, elem_of_nil.
    intros [->|[->|[->|[->|[->|[->|[]]]]]]]; simpl;
      (intros [Heq|Hin]; [done|by apply elem_of_nil in Hin]). }
  destruct (delete_group_exact dictionaryName progressRate content_group st
              initial_progress name Hh) as (Hh1 & Htb1 & Hrows1 & Hframe1).
  { intros tg Htg. split_and!.
    - apply Htables, Hsplit. by left.
    - apply Hfields, Hsplit. by left.
    - apply Hids, Hsplit. by left. }
  { done. }
  fold after_content in Hh1, Htb1, Hrows1, Hframe1.
  destruct (delete_group_exact dictionaryName progressRate manifest_group
              after_content.1 after_content.2 name Hh1)
    as (Hh2 & Htb2 & Hrows2 & Hframe2).
  { intros tg Htg. split_and!.
    - apply Htb1, Htables, Hsplit. by right.
    - apply Hfields, Hsplit. by right.
    - rewrite Hframe1 by by apply Hapart. apply Hids, Hsplit. by right. }
  { done. }
  rewrite <- Hafter in Hh2, Htb2, Hrows2, Hframe2. cbv zeta.
  split_and!.
  - congruence.
  - intros tb. by rewrite Htb2, Htb1.
  - intros target [Hc|Hm]%Hsplit.
    + rewrite Hframe2 by by apply Hapart'. by apply Hrows1.
    + rewrite (Hrows2 target Hm). by rewrite Hframe1 by by apply Hapart.
  - intros tb Htb. rewrite Hframe2, Hframe1; [done| |].
    + intros Hin. apply Htb. apply list_elem_of_fmap in Hin as (tg & -> & Htg).
      apply list_elem_of_fmap_2, Hsplit. by left.
    + intros Hin. apply Htb. apply list_elem_of_fmap in Hin as (tg & -> & Htg).
      apply list_elem_of_fmap_2, Hsplit. by right.
Qed.
End exact_delete.

(** X20. On a prepared store in which the ids of every
    table are unique, [deleteDictionary(name)] deletes the rows of the
    dictionary and nothing else: each of the six content tables is left with
    the rows whose [dictionary] does not equal the name, the manifest with
    the rows whose [title] does not, all in the order they had; no other
    table is touched, no table is dropped and the store stays open. *)
Theorem deleteDictionary_deletes_nothing_else
    (dictionaryName : jstring) (progressRate : Z) (st : Database.t) :
  prepared st →
  (∀ target, target ∈ concat targetGroups →
             NoDup (Sqlite.id <$> Sqlite.rows_of (connected st) target.1)) →
  let after := (deleteDictionary dictionaryName progressRate st).1 in
  prepared after ∧ _handle after = _handle st ∧
  (∀ tableName, tableName ∈ content_group.*1 →
     Sqlite.rows_of (connected after) tableName
     = filter (λ r, Sqlite.matches "dictionary" (JStr dictionaryName) r ≠ true)
              (Sqlite.rows_of (connected st) tableName)) ∧
  Sqlite.rows_of (connected after) "dictionaries"
  = filter (λ r, Sqlite.matches "title" (JStr dictionaryName) r ≠ true)
           (Sqlite.rows_of (connected st) "dictionaries") ∧
  (∀ tableName, tableName ∉ (concat targetGroups).*1 →
     Sqlite.rows_of (connected after) tableName = Sqlite.rows_of (connected st) tableName) ∧
  (∀ tableName, has_table (connected after) tableName ↔ has_table (connected st) tableName).
Proof.
  intros Hprep Hids after.
  destruct (deleteDictionary_exact dictionaryName progressRate st Hprep Hids)
    as (Hh & Htb & Hrows & Hframe).
  fold after in Hh, Htb, Hrows, Hframe.
  split_and!; try done.
  - destruct Hprep as [Hopen Htables]. split; [by rewrite Hh|].
    intros target Htarget. by apply Htb, Htables.
  - intros tb Htb'. unfold content_group in Htb'. simpl in Htb'.
    rewrite !elem_of_cons, elem_of_nil in Htb'.
    destruct Htb' as [->|[->|[->|[->|[->|[->|[]]]]]]].
    + apply (Hrows ("kanji", "dictionary")). unfold targetGroups. simpl.
      rewrite !elem_of_cons. tauto.
    + apply (Hrows ("kanjiMeta", "dictionary")). unfold targetGroups. simpl.
      rewrite !elem_of_cons. tauto.
    + apply (Hrows ("terms", "dictionary")). unfold targetGroups. simpl.
      rewrite !elem_of_cons. tauto.
    + apply (Hrows ("termMeta", "dictionary")). unfold targetGroups. simpl.
      rewrite !elem_of_cons. tauto.
    + apply (Hrows ("tagMeta", "dictionary")). unfold targetGroups. simpl.
      rewrite !elem_of_cons. tauto.
    + apply (Hrows ("media", "dictionary")). unfold targetGroups. simpl.
      rewrite !elem_of_cons. tauto.
  - apply (Hrows ("dictionaries", "title")). unfold targetGroups. simpl.
    rewrite !elem_of_cons. tauto.
Qed.

Lemma sample_unique_ids target :
  target ∈ concat targetGroups →
  NoDup (Sqlite.id <$> Sqlite.rows_of (connected Sample.store) target.1).
Proof.
  unfold targetGroups. simpl. rewrite !elem_of_cons, elem_of_nil.
  intros [->|[->|[->|[->|[->|[->|[->|[]]]]]]]];
    apply (bool_decide_unpack _); vm_compute; exact I.
Qed.

Lemma deleteDictionary_deletes_nothing_else_witness :
  prepared Sample.store ∧
  (∀ target, target ∈ concat targetGroups →
             NoDup (Sqlite.id <$> Sqlite.rows_of (connected Sample.store) target.1)) ∧
  prepared (deleteDictionary (js "d") 1000 Sample.store).1.
Proof.
  split; [exact sample_prepared|]. split; [exact sample_unique_ids|].
  exact (proj1 (deleteDictionary_deletes_nothing_else (js "d") 1000 Sample.store
                  sample_prepared sample_unique_ids)).
Defined.

Section gone.
(** After [deleteDictionary] on a prepared store no table of the two
    groups has a row that matches the name. *)
Lemma deleteDictionary_clean dictionaryName progressRate st :
  prepared st →
  let st' := (deleteDictionary dictionaryName progressRate st).1 in
  prepared st' ∧
  ∀ target, target ∈ concat targetGroups →
    clean target.2 (JStr dictionaryName) (Sqlite.rows_of (connected st') target.1).
Proof.
  intros [[name Hh] Htables].
  set (after_content :=
         delete_group dictionaryName progressRate content_group st initial_progress).
  assert (Hafter : deleteDictionary dictionaryName progressRate st
                   = delete_group dictionaryName progressRate manifest_group
                                  after_content.1 after_content.2).
  { unfold deleteDictionary, after_content, content_group, manifest_group.
    simpl. by destruct (delete_group _ _ _ st initial_progress). }
  assert (Hsplit : ∀ target, target ∈ concat targetGroups ↔
                             target ∈ content_group ∨ target ∈ manifest_group).
  { intros target. unfold targetGroups, content_group, manifest_group. simpl.
    rewrite !elem_of_cons, !elem_of_nil. tauto. }
  assert (Hfields : ∀ target, target ∈ concat targetGroups → target.2 ≠ EmptyString).
  { intros target. unfold targetGroups. simpl. rewrite !elem_of_cons, elem_of_nil.
    intros [->|[->|[->|[->|[->|[->|[->|[]]]]]]]]; done. }
  destruct (delete_group_clean dictionaryName progressRate content_group st
              initial_progress name Hh) as (Hsh1 & Hclean1 & Hframe1).
  { intros tg Htg. split; [apply Htables|apply Hfields]; apply Hsplit; by left. }
  fold after_content in Hsh1, Hclean1, Hframe1.
  destruct Hsh1 as (Hh1 & Htb1 & Hrows1).
  destruct (delete_group_clean dictionaryName progressRate manifest_group
              after_content.1 after_content.2 name) as (Hsh2 & Hclean2 & Hframe2).
  { congruence. }
  { intros tg Htg. split; [apply Htb1, Htables|apply Hfields]; apply Hsplit; by right. }
  rewrite <- Hafter in Hsh2, Hclean2, Hframe2.
  destruct Hsh2 as (Hh2 & Htb2 & Hrows2). cbv zeta. split.
  - split; [exists name; congruence|]. intros target Htarget. by apply Htb2, Htb1, Htables.
  - intros target [Hc|Hm]%Hsplit; [|by apply Hclean2].
    eapply clean_subset; [apply Hrows2|]. by apply Hclean1.
Qed.

Lemma clean_count field key rs :
  clean field key rs →
  length (filter (λ r, Sqlite.matches field key r = true) rs) = 0%nat.
Proof.
  intros Hc. rewrite filter_none; [done|]. intros r Hr. by rewrite (Hc r Hr).
Qed.
End gone.

(** X21. After [deleteDictionary(name)] on a prepared
    store the dictionary is gone for the queries of the manifest and the
    counts: [dictionaryExists(name)] answers [false], no entry of
    [getDictionaryInfo] has the title, and, for a name that is not the empty
    string, [getDictionaryCounts([name])] counts no row in any of the six
    tables. *)
Theorem deleteDictionary_then_dictionary_is_gone
    (dictionaryName : jstring) (progressRate : Z) (st : Database.t) :
  prepared st →
  let after := (deleteDictionary dictionaryName progressRate st).1 in
  dictionaryExists dictionaryName after = Ok false ∧
  (∃ entries,
      getDictionaryInfo after = Ok entries ∧
      ∀ entry, entry ∈ entries →
               Sqlite.of_json (prop entry "title") ≠ Sqlite.Text dictionaryName) ∧
  (dictionaryName ≠ [] →
   ∃ result group,
     getDictionaryCounts [dictionaryName] false after = Ok result ∧
     counts result = [group] ∧ total result = None ∧
     ∀ tb, tb ∈ count_tables → group !! tb.1 = Some (JNum 0)).
Proof.
  intros Hprep after.
  destruct (deleteDictionary_clean dictionaryName progressRate st Hprep)
    as [[[name Hh] Htables] Hclean].
  fold after in Hh, Htables, Hclean.
  assert (Hmanifest : ("dictionaries", "title") ∈ concat targetGroups).
  { unfold targetGroups. simpl. rewrite !elem_of_cons. tauto. }
  pose proof (Htables _ Hmanifest) as Ht. pose proof (Hclean _ Hmanifest) as Hc.
  simpl in Ht, Hc. split_and!.
  - destruct (dictionaryExists_spec dictionaryName after name Hh Ht)
      as (answer & Hanswer & Hiff).
    rewrite Hanswer. f_equal. destruct answer; [|done].
    destruct (proj1 Hiff eq_refl) as (row & Hrow & Htitle).
    apply matches_str in Htitle. by rewrite (Hc row Hrow) in Htitle.
  - exists (parse_row <$> Sqlite.rows_of (connected after) "dictionaries"). split.
    + unfold getDictionaryInfo, getAllEntries.
      by rewrite (execute_open _ _ _ Hh), (select_all_rows _ _ Ht).
    + intros entry (row & -> & Hrow)%list_elem_of_fmap Htitle.
      unfold prop, parse_row in Htitle. rewrite lookup_insert_ne in Htitle by done.
      apply matches_str in Htitle. by rewrite (Hc row Hrow) in Htitle.
  - intros Hne.
    assert (Hcount : ∀ tb, tb ∈ count_tables → has_table (connected after) tb.1).
    { intros tb Htb. apply (Htables tb). unfold count_tables in Htb. unfold targetGroups.
      simpl. rewrite !elem_of_cons, elem_of_nil in Htb. rewrite !elem_of_cons. tauto. }
    destruct (getDictionaryCounts_counts after name Hh Hcount [dictionaryName] false)
      as (result & Hrun & Hcounts & Htotal).
    { by intros n ->%list_elem_of_singleton. }
    exists result, (group_of (chunk after dictionaryName)).
    split_and!; [done|done|done|].
    assert (Hzero : chunk after dictionaryName = [0; 0; 0; 0; 0; 0]).
    { unfold chunk, count_tables. simpl.
      rewrite !clean_count; [done|..].
      - apply (Hclean ("media", "dictionary")). unfold targetGroups. simpl.
        rewrite !elem_of_cons. tauto.
      - apply (Hclean ("tagMeta", "dictionary")). unfold targetGroups. simpl.
        rewrite !elem_of_cons. tauto.
      - apply (Hclean ("termMeta", "dictionary")). unfold targetGroups. simpl.
        rewrite !elem_of_cons. tauto.
      - apply (Hclean ("terms", "dictionary")). unfold targetGroups. simpl.
        rewrite !elem_of_cons. tauto.
      - apply (Hclean ("kanjiMeta", "dictionary")). unfold targetGroups. simpl.
        rewrite !elem_of_cons. tauto.
      - apply (Hclean ("kanji", "dictionary")). unfold targetGroups. simpl.
        rewrite !elem_of_cons. tauto. }
    rewrite Hzero. intros tb Htb. unfold count_tables in Htb.
    rewrite !elem_of_cons, elem_of_nil in Htb.
    destruct Htb as [->|[->|[->|[->|[->|[->|[]]]]]]]; vm_compute; reflexivity.
Qed.

Lemma deleteDictionary_then_dictionary_is_gone_witness :
  prepared Sample.store ∧
  dictionaryExists (js "d") (deleteDictionary (js "d") 1000 Sample.store).1 = Ok false.
Proof.
  split; [exact sample_prepared|].
  exact (proj1 (deleteDictionary_then_dictionary_is_gone (js "d") 1000 Sample.store
                  sample_prepared)).
Defined.

(** X22. [purge()] does not close the store before it deletes the
    file and prepares again.  On a store that is open it therefore always
    throws [Database already open], after the host has been asked to delete
    the file, whatever the host answers; the store stays connected as it
    was. *)
Theorem purge_of_an_open_store
    (_nativeSqliteDeleteDatabase : string → gmap string Sqlite.db → gmap string Sqlite.db * bool)
    (st : Database.t) :
  is_Some (_handle st) → _isOpening st = false →
  let out := purge _nativeSqliteDeleteDatabase st in
  out.2 = Throw (Error "Database already open") ∧
  _handle out.1 = _handle st ∧
  disk out.1 = (_nativeSqliteDeleteDatabase _dbName (disk st)).1.
Proof.
  intros [name Hh] Ho. unfold purge, isOpening. rewrite Ho.
  unfold deleteDatabase.
  destruct (_nativeSqliteDeleteDatabase _dbName (disk st)) as [files ok].
  destruct (negb ok); unfold prepare, open, isOpen; simpl; rewrite Hh;
    (rewrite bool_decide_eq_true_2 by (by eexists)); done.
Qed.

Lemma sample_not_opening : _isOpening Sample.store = false.
Proof. vm_compute. reflexivity. Qed.

Lemma purge_of_an_open_store_witness :
  is_Some (_handle Sample.store) ∧ _isOpening Sample.store = false ∧
  (purge (λ name files, (delete name files, true)) Sample.store).2
  = Throw (Error "Database already open").
Proof.
  split; [exact (proj1 sample_prepared)|]. split; [exact sample_not_opening|].
  exact (proj1 (purge_of_an_open_store (λ name files, (delete name files, true))
                  Sample.store (proj1 sample_prepared) sample_not_opening)).
Defined.

(** X23. On a store that is closed, with a host that leaves no
    file of the name behind, [purge()] returns what the host answered
    ([true] for a deletion it reports done, [false] for one it reports
    failed, which the [catch] swallows) and leaves the store prepared on a
    new file: open, with the seven tables, and no row in any table. *)
Theorem purge_of_a_closed_store
    (_nativeSqliteDeleteDatabase : string → gmap string Sqlite.db → gmap string Sqlite.db * bool)
    (st : Database.t) :
  _handle st = None → _isOpening st = false →
  (_nativeSqliteDeleteDatabase _dbName (disk st)).1 !! _dbName = None →
  ∃ st',
    purge _nativeSqliteDeleteDatabase st
    = (st', Ok (_nativeSqliteDeleteDatabase _dbName (disk st)).2) ∧
    prepared st' ∧ _handle st' = Some _dbName ∧
    ∀ tableName, Sqlite.rows_of (connected st') tableName = [].
Proof.
  intros Hh Ho Hgone. unfold purge, isOpening. rewrite Ho.
  unfold deleteDatabase.
  destruct (_nativeSqliteDeleteDatabase _dbName (disk st)) as [files ok] eqn:Hhost.
  simpl in Hgone.
  set (st1 := State (_handle st) (_isOpening st) files).
  assert (Hnew : database st1 _dbName = Sqlite.empty).
  { unfold database, st1. simpl. by rewrite Hgone. }
  destruct (prepare_prepared st1) as (st2 & Hrun & Hprep & Hh2 & _ & Hext & _).
  { done. }
  { done. }
  { left. rewrite Hnew. simpl. lia. }
  exists st2.
  assert (Hrows : ∀ tableName, Sqlite.rows_of (connected st2) tableName = []).
  { intros tableName. destruct Hext as (_ & _ & Hrows). rewrite Hrows, Hnew.
    unfold Sqlite.rows_of. simpl. by rewrite lookup_empty. }
  destruct ok; simpl; fold st1; rewrite Hrun; done.
Qed.

Lemma purge_of_a_closed_store_witness :
  ∃ st', purge (λ name files, (delete name files, true)) (new (disk Sample.store))
         = (st', Ok true) ∧ prepared st'.
Proof.
  destruct (purge_of_a_closed_store (λ name files, (delete name files, true))
              (new (disk Sample.store)) eq_refl eq_refl (lookup_delete_eq _ _))
    as (st' & Hrun & Hprep & _).
  exists st'. split; [exact Hrun|exact Hprep].
Defined.

(* ================================================================== *)
(** * The handlers of the dictionary worker                             *)
(* ================================================================== *)

Section handlers.
Implicit Types host : gmap string Sqlite.db.

(** The file a new [DictionaryDatabase] object connects to. *)
Lemma connected_file st :
  _handle st = Some _dbName → connected st = database (new (disk st)) _dbName.
Proof. intros Hh. unfold connected. by rewrite Hh. Qed.

Lemma chunk_ext st st' n :
  (∀ tb, Sqlite.rows_of (connected st') tb = Sqlite.rows_of (connected st) tb) →
  chunk st' n = chunk st n.
Proof. intros Hrows. unfold chunk. apply list_fmap_ext. intros i tb _. by rewrite Hrows. Qed.

Lemma totals_ext st st' :
  (∀ tb, Sqlite.rows_of (connected st') tb = Sqlite.rows_of (connected st) tb) →
  totals st' = totals st.
Proof. intros Hrows. unfold totals. apply list_fmap_ext. intros i tb _. by rewrite Hrows. Qed.
End handlers.

(** X24. The handler [_deleteDictionary] of the worker, run on
    the files of the host: when the dictionary file is new (schema version
    below 20) or has the seven tables, and the ids of each table are unique,
    the handler resolves, and the file it leaves has the seven tables, each
    with exactly the rows that do not belong to the dictionary, in the order
    they had. *)
Theorem handler_deleteDictionary_deletes_exactly
    (dictionaryTitle : jstring) (host : gmap string Sqlite.db) :
  (Sqlite.user_version (database (new host) _dbName) < 20 ∨
   ∀ target, target ∈ concat targetGroups →
             has_table (database (new host) _dbName) target.1) →
  (∀ target, target ∈ concat targetGroups →
     NoDup (Sqlite.id <$> Sqlite.rows_of (database (new host) _dbName) target.1)) →
  ∃ files',
    DictionaryWorkerHandler._deleteDictionary dictionaryTitle host = (files', Ok tt) ∧
    ∀ target, target ∈ concat targetGroups →
      has_table (database (new files') _dbName) target.1 ∧
      Sqlite.rows_of (database (new files') _dbName) target.1
      = filter (λ r, Sqlite.matches target.2 (JStr dictionaryTitle) r ≠ true)
               (Sqlite.rows_of (database (new host) _dbName) target.1).
Proof.
  intros Hfile Hids.
  destruct (prepare_prepared (new host) eq_refl eq_refl Hfile)
    as (st1 & Hrun & Hprep & Hh1 & _ & (_ & _ & Hrows1) & _).
  assert (Hids1 : ∀ target, target ∈ concat targetGroups →
                    NoDup (Sqlite.id <$> Sqlite.rows_of (connected st1) target.1)).
  { intros target Htarget. rewrite Hrows1. by apply Hids. }
  destruct (deleteDictionary_exact dictionaryTitle 1000 st1 Hprep Hids1)
    as (Hh2 & Htb2 & Hrows2 & _).
  set (st2 := (deleteDictionary dictionaryTitle 1000 st1).1) in *.
  assert (Hh2' : _handle st2 = Some _dbName) by congruence.
  exists (disk st2). split.
  - unfold DictionaryWorkerHandler._deleteDictionary,
      DictionaryWorkerHandler._getPreparedDictionaryDatabase.
    rewrite Hrun. unfold DictionaryWorkerHandler.finally_close, close. simpl.
    fold st2. by rewrite Hh2'.
  - intros target Htarget. rewrite <- (connected_file st2 Hh2'). split.
    + apply Htb2. by apply (proj2 Hprep).
    + rewrite (Hrows2 target Htarget). by rewrite Hrows1.
Qed.

Lemma sample_file_tables target :
  target ∈ concat targetGroups →
  has_table (database (new (disk Sample.store)) _dbName) target.1.
Proof.
  intros Htarget. rewrite <- (connected_file Sample.store sample_handle).
  by apply (proj2 sample_prepared).
Qed.

Lemma sample_file_ids target :
  target ∈ concat targetGroups →
  NoDup (Sqlite.id <$> Sqlite.rows_of (database (new (disk Sample.store)) _dbName) target.1).
Proof.
  intros Htarget. rewrite <- (connected_file Sample.store sample_handle).
  by apply sample_unique_ids.
Qed.

Lemma handler_deleteDictionary_deletes_exactly_witness :
  ∃ files',
    DictionaryWorkerHandler._deleteDictionary (js "d") (disk Sample.store) = (files', Ok tt) ∧
    Sqlite.rows_of (database (new files') _dbName) "dictionaries"
    = filter (λ r, Sqlite.matches "title" (JStr (js "d")) r ≠ true)
             (Sqlite.rows_of (database (new (disk Sample.store)) _dbName) "dictionaries").
Proof.
  destruct (handler_deleteDictionary_deletes_exactly (js "d") (disk Sample.store)
              (or_intror sample_file_tables) sample_file_ids) as (files' & Hrun & Hrows).
  exists files'. split; [exact Hrun|].
  refine (proj2 (Hrows ("dictionaries", "title") _)).
  unfold targetGroups. simpl. rewrite !elem_of_cons. tauto.
Defined.

(** X25. The handler [_getDictionaryCounts] of the worker, run
    on the files of the host: when the dictionary file is new or has the
    seven tables, and no name asked for is the empty string, the handler
    resolves with, per name and table, the number of rows of the host's file
    whose [dictionary] is the name (and the table sizes as the total, when
    asked for).  It changes no row: all it may add to the file are the
    tables and indices of the schema, and it leaves the other files alone. *)
Theorem handler_getDictionaryCounts_counts_the_file
    (dictionaryNames : list jstring) (getTotal : bool) (host : gmap string Sqlite.db) :
  (Sqlite.user_version (database (new host) _dbName) < 20 ∨
   ∀ target, target ∈ concat targetGroups →
             has_table (database (new host) _dbName) target.1) →
  (∀ n, n ∈ dictionaryNames → n ≠ []) →
  let opened := set_handle (Some _dbName) (new host) in
  ∃ files' result,
    DictionaryWorkerHandler._getDictionaryCounts dictionaryNames getTotal host
    = (files', Ok result) ∧
    counts result = (group_of ∘ chunk opened) <$> dictionaryNames ∧
    total result = (if getTotal then Some (group_of (totals opened)) else None) ∧
    extends (database (new host) _dbName) (database (new files') _dbName) ∧
    ∀ other, other ≠ _dbName → files' !! other = host !! other.
Proof.
  intros Hfile Hne opened.
  destruct (prepare_prepared (new host) eq_refl eq_refl Hfile)
    as (st1 & Hrun & Hprep & Hh1 & _ & Hext & Hothers).
  assert (Hcount : ∀ tb, tb ∈ count_tables → has_table (connected st1) tb.1).
  { intros tb Htb. apply (proj2 Hprep tb). unfold count_tables in Htb. unfold targetGroups.
    simpl. rewrite !elem_of_cons, elem_of_nil in Htb. rewrite !elem_of_cons. tauto. }
  destruct (getDictionaryCounts_counts st1 _dbName Hh1 Hcount dictionaryNames getTotal Hne)
    as (result & Hget & Hcounts & Htotal).
  assert (Hrows : ∀ tb, Sqlite.rows_of (connected st1) tb = Sqlite.rows_of (connected opened) tb).
  { intros tb. destruct Hext as (_ & _ & Hrows). by rewrite Hrows. }
  exists (disk st1), result. split_and!.
  - unfold DictionaryWorkerHandler._getDictionaryCounts,
      DictionaryWorkerHandler._getPreparedDictionaryDatabase.
    rewrite Hrun, Hget. unfold DictionaryWorkerHandler.finally_close, close. simpl.
    by rewrite Hh1.
  - rewrite Hcounts. apply list_fmap_ext. intros i n _. simpl.
    by rewrite (chunk_ext opened st1 n Hrows).
  - rewrite Htotal. destruct getTotal; [|done]. by rewrite (totals_ext opened st1 Hrows).
  - by rewrite <- (connected_file st1 Hh1).
  - exact Hothers.
Qed.

Lemma handler_getDictionaryCounts_counts_the_file_witness :
  ∃ files' result,
    DictionaryWorkerHandler._getDictionaryCounts [js "d"] true (disk Sample.store)
    = (files', Ok result) ∧
    counts result
    = [group_of (chunk (set_handle (Some _dbName) (new (disk Sample.store))) (js "d"))].
Proof.
  destruct (handler_getDictionaryCounts_counts_the_file [js "d"] true (disk Sample.store)
              (or_intror sample_file_tables))
    as (files' & result & Hrun & Hcounts & _).
  { intros n Hn. apply list_elem_of_singleton in Hn. subst n. discriminate. }
  exists files', result. split; [exact Hrun|exact Hcounts].
Defined.
